(** * nbtedit: the NBT editor of [nbt_editor.cpp]

    A shallow embedding of the tag tree, of the byte-order primitives of
    [NBTFile], of the stubbed [load]/[save] pair and of the [NBTEditor]
    command handlers, followed by the properties established about them.

    Conventions.
    - A C++ fixed-width integer is a [Z] inside the range of its type; every
      conversion the compiler inserts (integer promotion, the usual
      arithmetic conversions, the narrowing on assignment or return) is
      written out with [to_i8] .. [to_i64], [to_u32], [to_u64].
    - A byte of a stream is a [Z] in [0, 256).
    - [float] and [double] are carried as their IEEE-754 bit patterns, so the
      [memcpy] bit casts of the source are the identity. *)

From Stdlib Require Import ZArith List String Ascii Bool Lia DecimalString.
From Stdlib Require Import Sorting.Sorted Sorting.Permutation.
From Stdlib Require Import Structures.OrderedTypeEx.
From Stdlib Require DecimalPos.
From coqutil Require Import Z.bitblast.
Import ListNotations.

Local Open Scope Z_scope.

(** ** Fixed-width integers *)

Module Cxx.

(** Conversion to an unsigned type of [w] bits: reduction modulo [2^w]. *)
Definition to_unsigned (w : Z) (z : Z) : Z := z mod 2 ^ w.

(** Conversion to a signed type of [w] bits (two's complement). *)
Definition to_signed (w : Z) (z : Z) : Z :=
  let u := z mod 2 ^ w in
  if u <? 2 ^ (w - 1) then u else u - 2 ^ w.

Definition to_i8 := to_signed 8.
Definition to_i16 := to_signed 16.
Definition to_i32 := to_signed 32.
Definition to_i64 := to_signed 64.
Definition to_u32 := to_unsigned 32.
Definition to_u64 := to_unsigned 64.

Definition in_signed (w : Z) (z : Z) : Prop := - 2 ^ (w - 1) <= z < 2 ^ (w - 1).

Definition is_int8 := in_signed 8.
Definition is_int16 := in_signed 16.
Definition is_int32 := in_signed 32.
Definition is_int64 := in_signed 64.

End Cxx.
Import Cxx.

(** ** Byte streams and the byte-order primitives of [NBTFile] *)

Section Streams.

(** The byte order of the machine the editor runs on.  [file.read] and
    [file.write] copy the object representation of the integer, so the
    order of the bytes in the file depends on it. *)
Variable host_big_endian : bool.

(** The bytes of an input stream still to be read. *)
Definition ifstream := list Z.
(** The bytes written to an output stream so far. *)
Definition ofstream := list Z.

(** The [n] bytes of [v], least significant first, and the value a
    sequence of bytes stands for in that order. *)
Fixpoint le_bytes (n : nat) (v : Z) : list Z :=
  match n with
  | O => []
  | S n' => v mod 256 :: le_bytes n' (v / 256)
  end.

Fixpoint le_value (bs : list Z) : Z :=
  match bs with
  | [] => 0
  | b :: bs' => b + 256 * le_value bs'
  end.

Definition is_byte (b : Z) : Prop := 0 <= b < 256.

(** The pattern whose [n] low bytes are those of [u] in the opposite
    order. *)
Definition byte_reverse (n : nat) (u : Z) : Z := le_value (rev (le_bytes n u)).

(** Object representation of an integer of [n] bytes. *)
Definition object_bytes (n : nat) (v : Z) : list Z :=
  if host_big_endian then rev (le_bytes n v) else le_bytes n v.

(** Unsigned value held by an object representation. *)
Definition object_value (bs : list Z) : Z :=
  le_value (if host_big_endian then rev bs else bs).

(** [file.read(reinterpret_cast<char*>(&value), n)]: the next [n] bytes,
    or nothing when the stream is too short ([value] is then left
    uninitialised by the source). *)
Definition stream_read (n : nat) (file : ifstream) : option (list Z * ifstream) :=
  if (n <=? List.length file)%nat then Some (firstn n file, skipn n file) else None.

(** [file.write(reinterpret_cast<char*>(&value), n)]. *)
Definition stream_write (file : ofstream) (bs : list Z) : ofstream := file ++ bs.

(** The expression shared by [readShort] and [writeShort]:
    [((value & 0xFF) << 8) | ((value & 0xFF00) >> 8)], computed in [int]
    after promotion and narrowed to [int16_t]. *)
Definition swap_short (value : Z) : Z :=
  to_i16 (Z.lor (Z.shiftl (Z.land value 0xFF) 8)
                (Z.shiftr (Z.land value 0xFF00) 8)).

(** The expression shared by [readInt] and [writeInt].  The first three
    operands have type [int]; the literal [0xFF000000] does not fit [int]
    and has type [unsigned int], so [value] is converted to unsigned
    before the last mask, the last shift is a logical one, and the final
    [|] is computed in [unsigned int] before the narrowing to [int32_t].
    The first shift moves the low byte into the sign bit; the result is the
    [int] with that bit pattern. *)
Definition swap_int (value : Z) : Z :=
  to_i32
    (Z.lor
       (to_u32
          (Z.lor
             (Z.lor (to_i32 (Z.shiftl (Z.land value 0xFF) 24))
                    (Z.shiftl (Z.land value 0xFF00) 8))
             (Z.shiftr (Z.land value 0xFF0000) 8)))
       (Z.shiftr (Z.land (to_u32 value) 0xFF000000) 24)).

(** The expression shared by [readLong] and [writeLong].  The literals up
    to [0xFF000000000000LL] have type [long long]; the last one,
    [0xFF00000000000000LL], only fits [unsigned long long]. *)
Definition swap_long (value : Z) : Z :=
  to_i64
    (Z.lor
       (to_u64
          (Z.lor
             (Z.lor
                (Z.lor
                   (Z.lor
                      (Z.lor
                         (Z.lor (to_i64 (Z.shiftl (Z.land value 0xFF) 56))
                                (to_i64 (Z.shiftl (Z.land value 0xFF00) 40)))
                         (to_i64 (Z.shiftl (Z.land value 0xFF0000) 24)))
                      (to_i64 (Z.shiftl (Z.land value 0xFF000000) 8)))
                   (Z.shiftr (Z.land value 0xFF00000000) 8))
                (Z.shiftr (Z.land value 0xFF0000000000) 24))
             (Z.shiftr (Z.land value 0xFF000000000000) 40)))
       (Z.shiftr (Z.land (to_u64 value) 0xFF00000000000000) 56)).

Definition readByte (file : ifstream) : option (Z * ifstream) :=
  match stream_read 1 file with
  | Some (bs, rest) => Some (to_i8 (object_value bs), rest)
  | None => None
  end.

Definition readShort (file : ifstream) : option (Z * ifstream) :=
  match stream_read 2 file with
  | Some (bs, rest) =>
      let value := to_i16 (object_value bs) in
      Some (swap_short value, rest)
  | None => None
  end.

Definition readInt (file : ifstream) : option (Z * ifstream) :=
  match stream_read 4 file with
  | Some (bs, rest) =>
      let value := to_i32 (object_value bs) in
      Some (swap_int value, rest)
  | None => None
  end.

Definition readLong (file : ifstream) : option (Z * ifstream) :=
  match stream_read 8 file with
  | Some (bs, rest) =>
      let value := to_i64 (object_value bs) in
      Some (swap_long value, rest)
  | None => None
  end.

(** [readFloat] and [readDouble] copy the bits of the integer read. *)
Definition readFloat (file : ifstream) : option (Z * ifstream) :=
  match readInt file with
  | Some (intValue, rest) => Some (to_u32 intValue, rest)
  | None => None
  end.

Definition readDouble (file : ifstream) : option (Z * ifstream) :=
  match readLong file with
  | Some (longValue, rest) => Some (to_u64 longValue, rest)
  | None => None
  end.

Definition writeByte (file : ofstream) (value : Z) : ofstream :=
  stream_write file (object_bytes 1 value).

Definition writeShort (file : ofstream) (value : Z) : ofstream :=
  let beValue := swap_short value in
  stream_write file (object_bytes 2 beValue).

Definition writeInt (file : ofstream) (value : Z) : ofstream :=
  let beValue := swap_int value in
  stream_write file (object_bytes 4 beValue).

Definition writeLong (file : ofstream) (value : Z) : ofstream :=
  let beValue := swap_long value in
  stream_write file (object_bytes 8 beValue).

Definition writeFloat (file : ofstream) (value : Z) : ofstream :=
  let intValue := to_i32 value in
  writeInt file intValue.

Definition writeDouble (file : ofstream) (value : Z) : ofstream :=
  let longValue := to_i64 value in
  writeLong file longValue.

End Streams.

(** ** Tags *)

Inductive TagType : Type :=
  | END | BYTE | SHORT | INT | LONG | FLOAT | DOUBLE
  | BYTE_ARRAY | STRING | LIST | COMPOUND | INT_ARRAY | LONG_ARRAY.

(** The [uint8_t] behind each enumerator. *)
Definition TagType_code (type : TagType) : Z :=
  match type with
  | END => 0 | BYTE => 1 | SHORT => 2 | INT => 3 | LONG => 4 | FLOAT => 5
  | DOUBLE => 6 | BYTE_ARRAY => 7 | STRING => 8 | LIST => 9 | COMPOUND => 10
  | INT_ARRAY => 11 | LONG_ARRAY => 12
  end.

Definition TagType_eqb (a b : TagType) : bool := TagType_code a =? TagType_code b.

Definition tagTypeToString (type : TagType) : string :=
  match type with
  | END => "END"
  | BYTE => "BYTE"
  | SHORT => "SHORT"
  | INT => "INT"
  | LONG => "LONG"
  | FLOAT => "FLOAT"
  | DOUBLE => "DOUBLE"
  | BYTE_ARRAY => "BYTE_ARRAY"
  | STRING => "STRING"
  | LIST => "LIST"
  | COMPOUND => "COMPOUND"
  | INT_ARRAY => "INT_ARRAY"
  | LONG_ARRAY => "LONG_ARRAY"
  end.

(** *** [std::map<std::string, V>]

    A [std::map] keeps its entries ordered by key ([operator<] on
    [std::string]: lexicographic, characters compared as unsigned) and
    iterates in that order; it records nothing about the order of
    insertion.  It is an association list kept strictly ascending. *)

Module StdMap.

Definition t (V : Type) : Type := list (string * V).

Definition empty {V : Type} : t V := [].

Definition size {V : Type} (m : t V) : nat := List.length m.

Definition keys {V : Type} (m : t V) : list string := map fst m.

Fixpoint find {V : Type} (k : string) (m : t V) : option V :=
  match m with
  | [] => None
  | (k', v) :: m' => if String.eqb k k' then Some v else find k m'
  end.

(** [m[k] = v]: the entry of [k] is created at its place in the order, or
    its value is replaced. *)
Fixpoint assign {V : Type} (k : string) (v : V) (m : t V) : t V :=
  match m with
  | [] => [(k, v)]
  | (k', v') :: m' =>
      match String.compare k k' with
      | Lt => (k, v) :: (k', v') :: m'
      | Eq => (k, v) :: m'
      | Gt => (k', v') :: assign k v m'
      end
  end.

(** The value stored under [k] changed in place by [f]; the map is
    unchanged when [k] is absent. *)
Fixpoint alter {V : Type} (f : V -> V) (k : string) (m : t V) : t V :=
  match m with
  | [] => []
  | (k', v) :: m' =>
      if String.eqb k k' then (k', f v) :: m' else (k', v) :: alter f k m'
  end.

Definition key_lt (a b : string) : Prop := String.compare a b = Lt.

(** The representation invariant of the container. *)
Definition ordered {V : Type} (m : t V) : Prop := StronglySorted key_lt (keys m).

End StdMap.

(** [NBTValue] holds one field per kind of payload, all present at once.
    Its two containers of [std::shared_ptr<NBTTag>] refer to the class
    declared before it; the parameter [Tag] stands for that forward
    declaration. *)
Record NBTValue (Tag : Type) : Type := mkNBTValue {
  value_type : TagType;
  byteVal : Z;
  shortVal : Z;
  intVal : Z;
  longVal : Z;
  floatVal : Z;
  doubleVal : Z;
  stringVal : string;
  byteArrayVal : list Z;
  intArrayVal : list Z;
  longArrayVal : list Z;
  listVal : list Tag;
  compoundVal : StdMap.t Tag
}.

Arguments mkNBTValue {Tag}.
Arguments value_type {Tag}.
Arguments byteVal {Tag}.
Arguments shortVal {Tag}.
Arguments intVal {Tag}.
Arguments longVal {Tag}.
Arguments floatVal {Tag}.
Arguments doubleVal {Tag}.
Arguments stringVal {Tag}.
Arguments byteArrayVal {Tag}.
Arguments intArrayVal {Tag}.
Arguments longArrayVal {Tag}.
Arguments listVal {Tag}.
Arguments compoundVal {Tag}.

#[warnings="-register-all"]
Inductive NBTTag : Type := mkNBTTag {
  type : TagType;
  name : string;
  value : NBTValue NBTTag
}.

(** [NBTValue(TagType t) : type(t) {}] with the default member initialisers. *)
Definition new_NBTValue (t : TagType) : NBTValue NBTTag :=
  mkNBTValue t 0 0 0 0 0 0 EmptyString [] [] [] [] StdMap.empty.

(** [NBTTag(TagType t, const std::string& n) : type(t), name(n), value(t) {}],
    as called through [std::make_shared<NBTTag>(t, n)]. *)
Definition new_NBTTag (t : TagType) (n : string) : NBTTag :=
  mkNBTTag t n (new_NBTValue t).

(** Assignments to one member. *)
Definition set_name (n : string) (tag : NBTTag) : NBTTag :=
  mkNBTTag (type tag) n (value tag).

Definition set_value (v : NBTValue NBTTag) (tag : NBTTag) : NBTTag :=
  mkNBTTag (type tag) (name tag) v.

Definition set_byteVal {Tag} (x : Z) (v : NBTValue Tag) : NBTValue Tag :=
  mkNBTValue (value_type v) x (shortVal v) (intVal v) (longVal v) (floatVal v)
    (doubleVal v) (stringVal v) (byteArrayVal v) (intArrayVal v) (longArrayVal v)
    (listVal v) (compoundVal v).

Definition set_shortVal {Tag} (x : Z) (v : NBTValue Tag) : NBTValue Tag :=
  mkNBTValue (value_type v) (byteVal v) x (intVal v) (longVal v) (floatVal v)
    (doubleVal v) (stringVal v) (byteArrayVal v) (intArrayVal v) (longArrayVal v)
    (listVal v) (compoundVal v).

Definition set_intVal {Tag} (x : Z) (v : NBTValue Tag) : NBTValue Tag :=
  mkNBTValue (value_type v) (byteVal v) (shortVal v) x (longVal v) (floatVal v)
    (doubleVal v) (stringVal v) (byteArrayVal v) (intArrayVal v) (longArrayVal v)
    (listVal v) (compoundVal v).

Definition set_longVal {Tag} (x : Z) (v : NBTValue Tag) : NBTValue Tag :=
  mkNBTValue (value_type v) (byteVal v) (shortVal v) (intVal v) x (floatVal v)
    (doubleVal v) (stringVal v) (byteArrayVal v) (intArrayVal v) (longArrayVal v)
    (listVal v) (compoundVal v).

Definition set_floatVal {Tag} (x : Z) (v : NBTValue Tag) : NBTValue Tag :=
  mkNBTValue (value_type v) (byteVal v) (shortVal v) (intVal v) (longVal v) x
    (doubleVal v) (stringVal v) (byteArrayVal v) (intArrayVal v) (longArrayVal v)
    (listVal v) (compoundVal v).

Definition set_doubleVal {Tag} (x : Z) (v : NBTValue Tag) : NBTValue Tag :=
  mkNBTValue (value_type v) (byteVal v) (shortVal v) (intVal v) (longVal v)
    (floatVal v) x (stringVal v) (byteArrayVal v) (intArrayVal v) (longArrayVal v)
    (listVal v) (compoundVal v).

Definition set_stringVal {Tag} (x : string) (v : NBTValue Tag) : NBTValue Tag :=
  mkNBTValue (value_type v) (byteVal v) (shortVal v) (intVal v) (longVal v)
    (floatVal v) (doubleVal v) x (byteArrayVal v) (intArrayVal v) (longArrayVal v)
    (listVal v) (compoundVal v).

Definition set_listVal {Tag} (x : list Tag) (v : NBTValue Tag) : NBTValue Tag :=
  mkNBTValue (value_type v) (byteVal v) (shortVal v) (intVal v) (longVal v)
    (floatVal v) (doubleVal v) (stringVal v) (byteArrayVal v) (intArrayVal v)
    (longArrayVal v) x (compoundVal v).

Definition set_compoundVal {Tag} (x : StdMap.t Tag) (v : NBTValue Tag) : NBTValue Tag :=
  mkNBTValue (value_type v) (byteVal v) (shortVal v) (intVal v) (longVal v)
    (floatVal v) (doubleVal v) (stringVal v) (byteArrayVal v) (intArrayVal v)
    (longArrayVal v) (listVal v) x.

(** [tag->value.m = x] for a member [m] of the value. *)
Definition on_value (f : NBTValue NBTTag -> NBTValue NBTTag) (tag : NBTTag) : NBTTag :=
  set_value (f (value tag)) tag.

(** [tag->value.compoundVal[k] = child]. *)
Definition compound_assign (k : string) (child : NBTTag) (tag : NBTTag) : NBTTag :=
  on_value (fun v => set_compoundVal (StdMap.assign k child (compoundVal v)) v) tag.

(** [tag->value.listVal.push_back(child)]. *)
Definition list_push_back (child : NBTTag) (tag : NBTTag) : NBTTag :=
  on_value (fun v => set_listVal (listVal v ++ [child]) v) tag.

(** *** Pointers into the tree

    Every tag is created by one [std::make_shared] and stored in exactly one
    container ([load] and [addTag] are the only places that build tags), so
    the tags reachable from the root form a tree.  A [std::shared_ptr<NBTTag>]
    that points into it is represented by the way down from the root: the
    key of a compound member or the position of a list item at each step.
    The root pointer is the empty path; two pointers are equal exactly when
    their paths are.  Writing through a pointer rewrites the tag at the end
    of the path, which is how the tree, [flatTagList] and [selectedTag] see
    the same object.  A path that leads nowhere would stand for a tag that
    has left the tree; [run] never holds one ([running_selection_designates]
    below). *)

Inductive step : Type :=
  | Member (key : string)
  | Item (index : nat).

Definition tag_ptr : Type := list step.

Definition step_eqb (a b : step) : bool :=
  match a, b with
  | Member k, Member k' => String.eqb k k'
  | Item i, Item i' => Nat.eqb i i'
  | _, _ => false
  end.

Fixpoint ptr_eqb (p q : tag_ptr) : bool :=
  match p, q with
  | [], [] => true
  | a :: p', b :: q' => step_eqb a b && ptr_eqb p' q'
  | _, _ => false
  end.

Fixpoint list_alter {A : Type} (f : A -> A) (i : nat) (l : list A) : list A :=
  match l, i with
  | [], _ => []
  | x :: l', O => f x :: l'
  | x :: l', S i' => x :: list_alter f i' l'
  end.

(** The tag a pointer designates; [None] when the path leads nowhere. *)
Fixpoint deref (p : tag_ptr) (root : NBTTag) : option NBTTag :=
  match p with
  | [] => Some root
  | Member k :: p' =>
      match StdMap.find k (compoundVal (value root)) with
      | Some child => deref p' child
      | None => None
      end
  | Item i :: p' =>
      match nth_error (listVal (value root)) i with
      | Some child => deref p' child
      | None => None
      end
  end.

(** The tree after the tag designated by [p] has been changed by [f]. *)
Fixpoint write (p : tag_ptr) (f : NBTTag -> NBTTag) (root : NBTTag) : NBTTag :=
  match p with
  | [] => f root
  | Member k :: p' =>
      on_value (fun v => set_compoundVal (StdMap.alter (write p' f) k (compoundVal v)) v) root
  | Item i :: p' =>
      on_value (fun v => set_listVal (list_alter (write p' f) i (listVal v)) v) root
  end.

(** [tag->value.compoundVal[k]->...]: a member of a compound changed in place. *)
Definition at_member (k : string) (f : NBTTag -> NBTTag) (tag : NBTTag) : NBTTag :=
  write [Member k] f tag.

(** [tag->value.listVal[i]->...]: an item of a list changed in place. *)
Definition at_item (i : nat) (f : NBTTag -> NBTTag) (tag : NBTTag) : NBTTag :=
  write [Item i] f tag.

(** ** [NBTFile] *)

Record NBTFile : Type := mkNBTFile {
  filename : string;
  rootTag : option NBTTag;
  compressed : bool
}.

(** [NBTFile(const std::string& fname, bool isCompressed = true)]. *)
Definition new_NBTFile (fname : string) : NBTFile := mkNBTFile fname None true.

Definition getRoot (f : NBTFile) : option NBTTag := rootTag f.

Definition setRoot (root : option NBTTag) (f : NBTFile) : NBTFile :=
  mkNBTFile (filename f) root (compressed f).

(** Bit patterns of the floating-point literals of [load]. *)
Definition float_20_0 : Z := 0x41A00000.
Definition double_100_5 : Z := 0x4059200000000000.
Definition double_64_0 : Z := 0x4050000000000000.
Definition double_minus_200_75 : Z := 0xC069180000000000.

(** The tree [load] installs, statement by statement. *)
Definition load_rootTag : NBTTag :=
  let rootTag := new_NBTTag COMPOUND "root" in

  let nameTag := new_NBTTag STRING "name" in
  let nameTag := on_value (set_stringVal "Test Player") nameTag in
  let rootTag := compound_assign "name" nameTag rootTag in

  let healthTag := new_NBTTag FLOAT "health" in
  let healthTag := on_value (set_floatVal float_20_0) healthTag in
  let rootTag := compound_assign "health" healthTag rootTag in

  let posTag := new_NBTTag LIST "position" in
  let posTag := list_push_back (new_NBTTag DOUBLE "") posTag in
  let posTag := list_push_back (new_NBTTag DOUBLE "") posTag in
  let posTag := list_push_back (new_NBTTag DOUBLE "") posTag in
  let posTag := at_item 0 (on_value (set_doubleVal double_100_5)) posTag in
  let posTag := at_item 1 (on_value (set_doubleVal double_64_0)) posTag in
  let posTag := at_item 2 (on_value (set_doubleVal double_minus_200_75)) posTag in
  let rootTag := compound_assign "position" posTag rootTag in

  let inventoryTag := new_NBTTag COMPOUND "inventory" in
  let itemsTag := new_NBTTag LIST "items" in

  let item1 := new_NBTTag COMPOUND "" in
  let item1 := compound_assign "id" (new_NBTTag SHORT "id") item1 in
  let item1 := at_member "id" (on_value (set_shortVal 276)) item1 in
  let item1 := compound_assign "count" (new_NBTTag BYTE "count") item1 in
  let item1 := at_member "count" (on_value (set_byteVal 1)) item1 in
  let itemsTag := list_push_back item1 itemsTag in

  let item2 := new_NBTTag COMPOUND "" in
  let item2 := compound_assign "id" (new_NBTTag SHORT "id") item2 in
  let item2 := at_member "id" (on_value (set_shortVal 264)) item2 in
  let item2 := compound_assign "count" (new_NBTTag BYTE "count") item2 in
  let item2 := at_member "count" (on_value (set_byteVal 5)) item2 in
  let itemsTag := list_push_back item2 itemsTag in

  let inventoryTag := compound_assign "items" itemsTag inventoryTag in
  let rootTag := compound_assign "inventory" inventoryTag rootTag in
  rootTag.

(** [NBTFile::load].  The function opens no stream: the bytes stored under
    [filename], passed here as [stored], are never looked at. *)
Definition load (stored : ifstream) (f : NBTFile) : bool * NBTFile :=
  (true, setRoot (Some load_rootTag) f).

(** [NBTFile::save]: the result and the bytes written.  The function opens
    no stream and writes nothing. *)
Definition save (f : NBTFile) : bool * ofstream :=
  (true, []).

(** The codec the two functions stand for: the tree obtained by loading a
    document, and the bytes produced by saving a tree. *)
Definition decode (fname : string) (b : list Z) : option NBTTag :=
  let '(ok, f) := load b (new_NBTFile fname) in
  if ok then getRoot f else None.

Definition encode (fname : string) (t : NBTTag) : list Z :=
  snd (save (setRoot (Some t) (new_NBTFile fname))).

(** ** The flattened view *)

(** [NBTEditor::flattenTags], with the member [flatTagList] it appends to
    passed in and out.  [self] is the pointer held by the argument [tag].
    A [std::map] is traversed in the order of its keys. *)
Fixpoint flattenTags (tag : NBTTag) (self : tag_ptr) (depth : Z)
    (flatTagList : list tag_ptr) {struct tag} : list tag_ptr :=
  let flatTagList := flatTagList ++ [self] in
  match tag with
  | mkNBTTag COMPOUND _ v =>
      (fix members (m : StdMap.t NBTTag) (flatTagList : list tag_ptr) : list tag_ptr :=
         match m with
         | [] => flatTagList
         | (key, child) :: m' =>
             members m' (flattenTags child (self ++ [Member key]) (depth + 1) flatTagList)
         end) (compoundVal v) flatTagList
  | mkNBTTag LIST _ v =>
      (fix items (l : list NBTTag) (i : nat) (flatTagList : list tag_ptr) : list tag_ptr :=
         match l with
         | [] => flatTagList
         | item :: l' =>
             items l' (S i) (flattenTags item (self ++ [Item i]) (depth + 1) flatTagList)
         end) (listVal v) O flatTagList
  | _ => flatTagList
  end.

(** The projection as the specification words it: the node itself first,
    then the projection of each child in turn, the children of a compound
    taken in the order in which the collection stores them and those of a
    list in list order. *)
Fixpoint project (tag : NBTTag) (self : tag_ptr) {struct tag} : list tag_ptr :=
  self ::
  match tag with
  | mkNBTTag COMPOUND _ v =>
      (fix members (m : StdMap.t NBTTag) : list tag_ptr :=
         match m with
         | [] => []
         | (key, child) :: m' => project child (self ++ [Member key]) ++ members m'
         end) (compoundVal v)
  | mkNBTTag LIST _ v =>
      (fix items (l : list NBTTag) (i : nat) : list tag_ptr :=
         match l with
         | [] => []
         | item :: l' => project item (self ++ [Item i]) ++ items l' (S i)
         end) (listVal v) O
  | _ => []
  end.

(** The two loops of [flattenTags] and the two clauses of [project] on
    their own, to state how the functions unfold. *)
Fixpoint flatten_members (self : tag_ptr) (depth : Z) (m : StdMap.t NBTTag)
    (flatTagList : list tag_ptr) : list tag_ptr :=
  match m with
  | [] => flatTagList
  | (key, child) :: m' =>
      flatten_members self depth m'
        (flattenTags child (self ++ [Member key]) (depth + 1) flatTagList)
  end.

Fixpoint flatten_items (self : tag_ptr) (depth : Z) (l : list NBTTag) (i : nat)
    (flatTagList : list tag_ptr) : list tag_ptr :=
  match l with
  | [] => flatTagList
  | item :: l' =>
      flatten_items self depth l' (S i)
        (flattenTags item (self ++ [Item i]) (depth + 1) flatTagList)
  end.

Fixpoint project_members (self : tag_ptr) (m : StdMap.t NBTTag) : list tag_ptr :=
  match m with
  | [] => []
  | (key, child) :: m' => project child (self ++ [Member key]) ++ project_members self m'
  end.

Fixpoint project_items (self : tag_ptr) (l : list NBTTag) (i : nat) : list tag_ptr :=
  match l with
  | [] => []
  | item :: l' => project item (self ++ [Item i]) ++ project_items self l' (S i)
  end.

(** [Q key child] holds of every entry of every [compoundVal] of the tree
    under [tag]. *)
#[warnings="-register-all"]
Inductive members_all (Q : string -> NBTTag -> Prop) : NBTTag -> Prop :=
  | members_all_intro (tag : NBTTag) :
      Forall (members_all Q) (listVal (value tag)) ->
      Forall (fun kv => Q (fst kv) (snd kv) /\ members_all Q (snd kv))
             (compoundVal (value tag)) ->
      members_all Q tag.

(** [P] holds of every tag of the tree under [tag], [tag] included. *)
#[warnings="-register-all"]
Inductive tags_all (P : NBTTag -> Prop) : NBTTag -> Prop :=
  | tags_all_intro (tag : NBTTag) :
      P tag ->
      Forall (tags_all P) (listVal (value tag)) ->
      Forall (fun kv => tags_all P (snd kv)) (compoundVal (value tag)) ->
      tags_all P tag.

(** The [compoundVal] of a tag satisfies the invariant of [std::map]. *)
Definition members_ordered (tag : NBTTag) : Prop :=
  StdMap.ordered (compoundVal (value tag)).

(** A compound built the way the code builds one: created empty, then
    [compoundVal[key] = child] for each entry, in the order given. *)
Definition compound_of (n : string) (entries : list (string * NBTTag)) : NBTTag :=
  fold_left (fun tag kv => compound_assign (fst kv) (snd kv) tag) entries
    (new_NBTTag COMPOUND n).

(** The names under which the members of a compound appear in the
    flattened view, in order of appearance. *)
Definition member_steps (p : tag_ptr) : option string :=
  match p with
  | [Member k] => Some k
  | _ => None
  end.

Fixpoint visited_members (flat : list tag_ptr) : list string :=
  match flat with
  | [] => []
  | p :: flat' =>
      match member_steps p with
      | Some k => k :: visited_members flat'
      | None => visited_members flat'
      end
  end.

(** ** Text and numbers *)

(** The exceptions of the standard library that the editor can meet, both
    derived from [std::exception]. *)
Inductive exception : Type :=
  | invalid_argument
  | out_of_range.

(** How a call ends: by returning, or by an exception leaving it. *)
Inductive completion : Type :=
  | Returned
  | Threw (e : exception).

Definition dquote : string := String "034"%char EmptyString.

(** [isspace] in the "C" locale. *)
Definition isspace (c : ascii) : bool :=
  let n := nat_of_ascii c in
  Nat.eqb n 32 || (Nat.leb 9 n && Nat.leb n 13).

Definition digit_value (c : ascii) : option Z :=
  let n := Z.of_nat (nat_of_ascii c) in
  if (48 <=? n) && (n <=? 57) then Some (n - 48) else None.

Fixpoint skip_spaces (s : string) : string :=
  match s with
  | String c s' => if isspace c then skip_spaces s' else s
  | EmptyString => s
  end.

(** The value of the longest prefix of decimal digits, given the digits read
    so far; [None] when no digit has been read at all. *)
Fixpoint read_digits (s : string) (acc : option Z) : option Z :=
  match s with
  | String c s' =>
      match digit_value c with
      | Some d =>
          read_digits s' (Some (10 * match acc with Some a => a | None => 0 end + d))
      | None => acc
      end
  | EmptyString => acc
  end.

(** The conversion [strtol]/[strtoll] perform in base 10, before any range
    check: leading white space, an optional sign, then digits; what follows
    the digits is ignored.  [None] when there is no digit to convert. *)
Definition parse_decimal (str : string) : option Z :=
  match skip_spaces str with
  | String "-"%char s' => option_map Z.opp (read_digits s' None)
  | String "+"%char s' => read_digits s' None
  | s => read_digits s None
  end.

(** [std::stoi(str)]. *)
Definition stoi (str : string) : exception + Z :=
  match parse_decimal str with
  | None => inl invalid_argument
  | Some v => if (- 2 ^ 31 <=? v) && (v <? 2 ^ 31) then inr v else inl out_of_range
  end.

(** [std::stoll(str)]. *)
Definition stoll (str : string) : exception + Z :=
  match parse_decimal str with
  | None => inl invalid_argument
  | Some v => if (- 2 ^ 63 <=? v) && (v <? 2 ^ 63) then inr v else inl out_of_range
  end.

(** [std::to_string] of an integer. *)
Definition to_string (z : Z) : string := NilZero.string_of_int (Z.to_int z).

(** The characters of a [char] buffer up to its terminating zero:
    [std::string newValue(input)]. *)
Fixpoint c_string (buffer : string) : string :=
  match buffer with
  | String c s' => if Ascii.eqb c zero then EmptyString else String c (c_string s')
  | EmptyString => EmptyString
  end.

(** [s.back()], for a non-empty [s]. *)
Fixpoint back (s : string) : option ascii :=
  match s with
  | EmptyString => None
  | String c EmptyString => Some c
  | String _ s' => back s'
  end.

(** [s.pop_back()]. *)
Fixpoint pop_back (s : string) : string :=
  match s with
  | EmptyString => EmptyString
  | String _ EmptyString => EmptyString
  | String c s' => String c (pop_back s')
  end.

(** ** The editor *)

(** Key codes of [<ncurses.h>] and of the letters the editor reacts to. *)
Definition KEY_DOWN : Z := 258.
Definition KEY_UP : Z := 259.
Definition OK : Z := 0.
Definition ERR : Z := -1.

Definition key (c : ascii) : Z := Z.of_nat (nat_of_ascii c).

Record NBTEditor : Type := mkNBTEditor {
  nbtFile : NBTFile;
  currentRow : Z;
  scrollOffset : Z;
  maxVisibleRows : Z;
  editing : bool;
  editBuffer : string;
  selectedTag : option tag_ptr;
  flatTagList : list tag_ptr;
  modified : bool
}.

(** [NBTEditor(const std::string& filename)]. *)
Definition new_NBTEditor (fname : string) : NBTEditor :=
  mkNBTEditor (new_NBTFile fname) 0 0 0 false EmptyString None [] false.

Definition set_nbtFile (x : NBTFile) (ed : NBTEditor) : NBTEditor :=
  mkNBTEditor x (currentRow ed) (scrollOffset ed) (maxVisibleRows ed) (editing ed)
    (editBuffer ed) (selectedTag ed) (flatTagList ed) (modified ed).

Definition set_currentRow (x : Z) (ed : NBTEditor) : NBTEditor :=
  mkNBTEditor (nbtFile ed) x (scrollOffset ed) (maxVisibleRows ed) (editing ed)
    (editBuffer ed) (selectedTag ed) (flatTagList ed) (modified ed).

Definition set_scrollOffset (x : Z) (ed : NBTEditor) : NBTEditor :=
  mkNBTEditor (nbtFile ed) (currentRow ed) x (maxVisibleRows ed) (editing ed)
    (editBuffer ed) (selectedTag ed) (flatTagList ed) (modified ed).

Definition set_maxVisibleRows (x : Z) (ed : NBTEditor) : NBTEditor :=
  mkNBTEditor (nbtFile ed) (currentRow ed) (scrollOffset ed) x (editing ed)
    (editBuffer ed) (selectedTag ed) (flatTagList ed) (modified ed).

Definition set_editBuffer (x : string) (ed : NBTEditor) : NBTEditor :=
  mkNBTEditor (nbtFile ed) (currentRow ed) (scrollOffset ed) (maxVisibleRows ed)
    (editing ed) x (selectedTag ed) (flatTagList ed) (modified ed).

Definition set_selectedTag (x : option tag_ptr) (ed : NBTEditor) : NBTEditor :=
  mkNBTEditor (nbtFile ed) (currentRow ed) (scrollOffset ed) (maxVisibleRows ed)
    (editing ed) (editBuffer ed) x (flatTagList ed) (modified ed).

Definition set_flatTagList (x : list tag_ptr) (ed : NBTEditor) : NBTEditor :=
  mkNBTEditor (nbtFile ed) (currentRow ed) (scrollOffset ed) (maxVisibleRows ed)
    (editing ed) (editBuffer ed) (selectedTag ed) x (modified ed).

Definition set_modified (x : bool) (ed : NBTEditor) : NBTEditor :=
  mkNBTEditor (nbtFile ed) (currentRow ed) (scrollOffset ed) (maxVisibleRows ed)
    (editing ed) (editBuffer ed) (selectedTag ed) (flatTagList ed) x.

(** The tree of the editor after a write through a pointer into it. *)
Definition write_root (p : tag_ptr) (f : NBTTag -> NBTTag) (ed : NBTEditor) : NBTEditor :=
  set_nbtFile (setRoot (option_map (write p f) (getRoot (nbtFile ed))) (nbtFile ed)) ed.

(** The tag behind a pointer held by the editor. *)
Definition target (p : tag_ptr) (ed : NBTEditor) : option NBTTag :=
  match getRoot (nbtFile ed) with
  | Some root => deref p root
  | None => None
  end.

(** [NBTEditor::refreshTagList]. *)
Definition refreshTagList (ed : NBTEditor) : NBTEditor :=
  let ed := set_flatTagList [] ed in
  match getRoot (nbtFile ed) with
  | Some root => set_flatTagList (flattenTags root [] 0 (flatTagList ed)) ed
  | None => ed
  end.

(** The rows [lo], [lo + 1], ..., [hi - 1] of a [for] loop. *)
Definition rows (lo hi : Z) : list Z :=
  map (fun k => lo + Z.of_nat k) (seq 0 (Z.to_nat (hi - lo))).

(** The body of the loop of [drawEditor] for row [i]: the row under the
    cursor becomes the selection. *)
Definition draw_row (ed : NBTEditor) (i : Z) : NBTEditor :=
  if i =? currentRow ed
  then match nth_error (flatTagList ed) (Z.to_nat i) with
       | Some tag => set_selectedTag (Some tag) ed
       | None => ed
       end
  else ed.

(** [NBTEditor::drawEditor], for a terminal of [maxY] lines: the state the
    function leaves behind.  What it prints is not part of the model. *)
Definition drawEditor (maxY : Z) (ed : NBTEditor) : NBTEditor :=
  let ed := set_maxVisibleRows (maxY - 2) ed in
  let startIdx := scrollOffset ed in
  let endIdx := Z.min (startIdx + maxVisibleRows ed) (Z.of_nat (List.length (flatTagList ed))) in
  let ed :=
    if currentRow ed <? startIdx then set_scrollOffset (currentRow ed) ed
    else if currentRow ed >=? startIdx + maxVisibleRows ed
         then set_scrollOffset (currentRow ed - maxVisibleRows ed + 1) ed
         else ed in
  let startIdx := scrollOffset ed in
  fold_left draw_row (rows startIdx endIdx) ed.

(** [NBTEditor::saveChanges]. *)
Definition saveChanges (ed : NBTEditor) : NBTEditor :=
  if fst (save (nbtFile ed)) then set_modified false ed else ed.

(** [NBTEditor::addTag]. *)
Definition addTag (ed : NBTEditor) : completion * NBTEditor :=
  match selectedTag ed with
  | Some sel =>
      match target sel ed with
      | Some tag =>
          if TagType_eqb (type tag) COMPOUND then
            let newTag := new_NBTTag STRING "new_tag" in
            let newTag := on_value (set_stringVal "value") newTag in
            let ed := write_root sel (compound_assign "new_tag" newTag) ed in
            let ed := refreshTagList ed in
            (Returned, set_modified true ed)
          else (Returned, ed)
      | None => (Returned, ed)
      end
  | None => (Returned, ed)
  end.

(** [NBTEditor::deleteTag]. *)
Definition deleteTag (ed : NBTEditor) : completion * NBTEditor :=
  match selectedTag ed with
  | Some sel =>
      if negb (ptr_eqb sel [])
      then
        let ed := write_root sel (fun tag => set_name ("[DELETED] " ++ name tag) tag) ed in
        (Returned, set_modified true ed)
      else (Returned, ed)
  | None => (Returned, ed)
  end.

Definition throws (A : Type) : Type := (exception + A)%type.

Definition bind_throws {A B : Type} (m : throws A) (k : A -> throws B) : throws B :=
  match m with
  | inr a => k a
  | inl e => inl e
  end.

Notation "x <- m ;; k" := (bind_throws m (fun x => k))
  (at level 61, m at next level, right associativity).

(** The kinds [editValue] lets through. *)
Definition editable (t : TagType) : bool :=
  match t with
  | BYTE | SHORT | INT | LONG | FLOAT | DOUBLE | STRING => true
  | _ => false
  end.

Definition integer_kind (t : TagType) : bool :=
  match t with
  | BYTE | SHORT | INT | LONG => true
  | _ => false
  end.

(** What the terminal hands to one turn of the main loop: its height, the
    key read by [getch], the key read at the "Save changes?" prompt, and,
    for an edit, the result of [mvgetnstr] with the line it leaves in the
    buffer. *)
Record event : Type := mkEvent {
  maxY : Z;
  ch : Z;
  confirm : Z;
  getnstr_result : Z;
  getnstr_line : string
}.

(** Conversions between text and floating-point numbers, on IEEE-754 bit
    patterns: [std::stof], [std::stod] and [std::to_string] of a [float] and
    of a [double].  The model does not fix them: the editor is stated over
    any implementation of this interface. *)
Class FloatText : Type := {
  stof : string -> throws Z;
  stod : string -> throws Z;
  to_string_float : Z -> string;
  to_string_double : Z -> string
}.

(** An instance that is no model of the library: it rejects every text and
    prints nothing.  It only serves to run sessions in which no Float or
    Double is edited; on every other kind [editValue] does not depend on
    the instance (as shown among the properties below), and what
    [drawEditor], [addTag], [deleteTag] and the arrow keys leave in the
    editor depends on no conversion. *)
Definition no_float_text : FloatText := {|
  stof := fun _ => inl invalid_argument;
  stod := fun _ => inl invalid_argument;
  to_string_float := fun _ => EmptyString;
  to_string_double := fun _ => EmptyString
|}.

Section Editor.

Context {float_text : FloatText}.

(** [NBTValue::toString]. *)
Definition NBTValue_toString (v : NBTValue NBTTag) : string :=
  match value_type v with
  | BYTE => to_string (byteVal v)
  | SHORT => to_string (shortVal v)
  | INT => to_string (intVal v)
  | LONG => to_string (longVal v) ++ "L"
  | FLOAT => to_string_float (floatVal v) ++ "f"
  | DOUBLE => to_string_double (doubleVal v)
  | STRING => dquote ++ stringVal v ++ dquote
  | BYTE_ARRAY => "[" ++ to_string (Z.of_nat (List.length (byteArrayVal v))) ++ " bytes]"
  | INT_ARRAY => "[" ++ to_string (Z.of_nat (List.length (intArrayVal v))) ++ " ints]"
  | LONG_ARRAY => "[" ++ to_string (Z.of_nat (List.length (longArrayVal v))) ++ " longs]"
  | LIST => "[" ++ to_string (Z.of_nat (List.length (listVal v))) ++ " items]"
  | COMPOUND => "{" ++ to_string (Z.of_nat (StdMap.size (compoundVal v))) ++ " entries}"
  | END => ""
  end.

(** [NBTTag::setValueFromString].  The conversion is evaluated before the
    assignment, so a conversion that throws leaves the tag as it was. *)
Definition setValueFromString (str : string) (tag : NBTTag) : throws NBTTag :=
  match type tag with
  | BYTE => n <- stoi str ;; inr (on_value (set_byteVal (to_i8 n)) tag)
  | SHORT => n <- stoi str ;; inr (on_value (set_shortVal (to_i16 n)) tag)
  | INT => n <- stoi str ;; inr (on_value (set_intVal n) tag)
  | LONG => n <- stoll str ;; inr (on_value (set_longVal n) tag)
  | FLOAT => x <- stof str ;; inr (on_value (set_floatVal x) tag)
  | DOUBLE => x <- stod str ;; inr (on_value (set_doubleVal x) tag)
  | STRING => inr (on_value (set_stringVal str) tag)
  | _ => inr tag
  end.

(** [NBTEditor::editValue].  [result] and [line] are what [mvgetnstr]
    returns and leaves in [input]; it stores at most 255 characters. *)
Definition editValue (result : Z) (line : string) (ed : NBTEditor)
    : completion * NBTEditor :=
  match selectedTag ed with
  | None => (Returned, ed)
  | Some sel =>
      match target sel ed with
      | None => (Returned, ed)
      | Some tag =>
          if negb (editable (type tag)) then (Returned, ed)
          else
            let editBuffer := NBTValue_toString (value tag) in
            let editBuffer :=
              if TagType_eqb (type tag) STRING
              then substring 1 (String.length editBuffer - 2) editBuffer
              else editBuffer in
            let editBuffer :=
              if TagType_eqb (type tag) FLOAT
                 && match back editBuffer with Some c => Ascii.eqb c "f" | None => false end
              then pop_back editBuffer
              else if TagType_eqb (type tag) LONG
                      && match back editBuffer with Some c => Ascii.eqb c "L" | None => false end
                   then pop_back editBuffer
                   else editBuffer in
            let ed := set_editBuffer editBuffer ed in
            let input := substring 0 255 line in
            if result =? OK
            then
              let newValue := c_string input in
              match setValueFromString newValue tag with
              | inr tag' =>
                  let ed := write_root sel (fun _ => tag') ed in
                  (Returned, set_modified true ed)
              | inl _ =>
                  (* catch (const std::exception& e) { } *)
                  (Returned, ed)
              end
            else (Returned, ed)
      end
  end.

(** The text [editValue] leaves in [editBuffer] for the tag it edits. *)
Definition edit_seed (tag : NBTTag) : string :=
  let editBuffer := NBTValue_toString (value tag) in
  let editBuffer :=
    if TagType_eqb (type tag) STRING
    then substring 1 (String.length editBuffer - 2) editBuffer
    else editBuffer in
  if TagType_eqb (type tag) FLOAT
     && match back editBuffer with Some c => Ascii.eqb c "f" | None => false end
  then pop_back editBuffer
  else if TagType_eqb (type tag) LONG
          && match back editBuffer with Some c => Ascii.eqb c "L" | None => false end
       then pop_back editBuffer
       else editBuffer.

(** [NBTEditor::handleInput]. *)
Definition handleInput (ev : event) (ed : NBTEditor) : completion * NBTEditor :=
  let ch := ch ev in
  if ch =? KEY_UP then
    (Returned, if currentRow ed >? 0 then set_currentRow (currentRow ed - 1) ed else ed)
  else if ch =? KEY_DOWN then
    (Returned,
     if currentRow ed <? Z.of_nat (List.length (flatTagList ed)) - 1
     then set_currentRow (currentRow ed + 1) ed else ed)
  else if (ch =? key "e") || (ch =? key "E") then
    editValue (getnstr_result ev) (getnstr_line ev) ed
  else if (ch =? key "a") || (ch =? key "A") then addTag ed
  else if (ch =? key "d") || (ch =? key "D") then deleteTag ed
  else if (ch =? key "s") || (ch =? key "S") then (Returned, saveChanges ed)
  else (Returned, ed).

(** [NBTEditor::run] up to the loop: the tree is loaded from the bytes
    [stored] under the file name and flattened. *)
Definition run_start (fname : string) (stored : ifstream) : NBTEditor :=
  let ed := new_NBTEditor fname in
  let '(ok, f) := load stored (nbtFile ed) in
  let ed := set_nbtFile f ed in
  if ok then refreshTagList ed else ed.

(** One turn of the loop of [NBTEditor::run]: the editor after the turn
    and the value of [running]. *)
Definition run_turn (ev : event) (ed : NBTEditor) : NBTEditor * bool :=
  let ed := drawEditor (maxY ev) ed in
  let ch := ch ev in
  if (ch =? key "q") || (ch =? key "Q") then
    if negb (modified ed) || ((confirm ev =? key "n") || (confirm ev =? key "N"))
    then (ed, false)
    else if (confirm ev =? key "y") || (confirm ev =? key "Y")
         then (saveChanges ed, false)
         else (ed, true)
  else (snd (handleInput ev ed), true).

(** The states the loop of [run] passes through. *)
Inductive running : NBTEditor -> Prop :=
  | running_start (fname : string) (stored : ifstream) :
      running (run_start fname stored)
  | running_turn (ev : event) (ed : NBTEditor) :
      running ed -> snd (run_turn ev ed) = true -> running (fst (run_turn ev ed)).

(** A session: the editor after the loop has taken the turns [evs]. *)
Definition play (evs : list event) (ed : NBTEditor) : NBTEditor :=
  fold_left (fun ed ev => fst (run_turn ev ed)) evs ed.

End Editor.

(** A key pressed in a terminal of 24 lines; [line] is what the user types
    if the key opens an edit. *)
Definition press (c : Z) (line : string) : event := mkEvent 24 c 0 OK line.

(** The integer a tag of an integer kind holds, the width of its type, and
    the conversion [setValueFromString] applies to the text for it. *)
Definition integer_of (tag : NBTTag) : Z :=
  match type tag with
  | BYTE => byteVal (value tag)
  | SHORT => shortVal (value tag)
  | INT => intVal (value tag)
  | LONG => longVal (value tag)
  | _ => 0
  end.

Definition bit_width (t : TagType) : Z :=
  match t with
  | BYTE => 8
  | SHORT => 16
  | INT => 32
  | LONG => 64
  | _ => 0
  end.

Definition parse_integer (t : TagType) (str : string) : throws Z :=
  match t with
  | LONG => stoll str
  | _ => stoi str
  end.

(** The width of the type the conversion returns: [long long] for
    [std::stoll], [int] for [std::stoi]. *)
Definition conversion_width (t : TagType) : Z :=
  match t with
  | LONG => 64
  | _ => 32
  end.

(** The flattened view of a tree: [refreshTagList] in an editor that holds
    it. *)
Definition view (root : NBTTag) : list tag_ptr :=
  flatTagList
    (refreshTagList
       (set_nbtFile (setRoot (Some root) (new_NBTFile EmptyString))
          (new_NBTEditor EmptyString))).

(** Sessions on the tree of [load]: the editor when the loop starts, and
    the editor drawn with the cursor moved down to row [n]. *)
Definition started : NBTEditor := run_start "level.dat" [].

Definition at_row (n : nat) : NBTEditor :=
  drawEditor 24 (play (float_text := no_float_text) (repeat (press KEY_DOWN "") n) started).

(** A session that adds a member to the root, types "kept" into it, and
    comes back to the root. *)
Definition kept_session : list event :=
  [press (key "a") ""] ++ repeat (press KEY_DOWN "") 11 ++ [press (key "e") "kept"]
  ++ repeat (press KEY_UP "") 11.

(** The smallest document of the format: a compound with an empty name and
    no member (kind byte 10, a name of length 0, the End byte). *)
Definition empty_document : list Z := [10; 0; 0; 0].
Definition empty_compound : NBTTag := new_NBTTag COMPOUND "".

(** ** Invariants of the running editor *)

(** [key] behind [n] marks of deletion. *)
Fixpoint deleted_n (n : nat) (key : string) : string :=
  match n with
  | O => key
  | S n' => "[DELETED] " ++ deleted_n n' key
  end.

(** The name of a member is the key it is stored under, behind the marks
    [deleteTag] has put in front of it. *)
Definition name_tracks_key (key : string) (child : NBTTag) : Prop :=
  exists n, name child = deleted_n n key.

(** The member stored under the key [addTag] writes to is a string. *)
Definition placeholder_is_string (key : string) (child : NBTTag) : Prop :=
  key = "new_tag"%string -> type child = STRING.

(** What holds of the tree: every map is ordered, names track keys, and the
    placeholder member is a string. *)
Definition tree_inv (root : NBTTag) : Prop :=
  tags_all members_ordered root /\
  members_all name_tracks_key root /\
  members_all placeholder_is_string root.

(** What holds of the editor each time the loop of [run] comes round: the
    flattened view is the projection of the tree, the cursor is a row of
    it, the selection designates a tag of the tree, and [editing] is never
    set. *)
Record editor_inv (ed : NBTEditor) : Prop := mk_editor_inv {
  inv_root :
    exists root,
      getRoot (nbtFile ed) = Some root /\
      flatTagList ed = project root [] /\
      tree_inv root;
  inv_row : 0 <= currentRow ed < Z.of_nat (List.length (flatTagList ed));
  inv_scroll : 0 <= scrollOffset ed;
  inv_selected :
    forall sel, selectedTag ed = Some sel -> exists tag, target sel ed = Some tag;
  inv_editing : editing ed = false
}.

(** ** Strings on a stream *)

(** A [char] of a [std::string] as the byte it is stored as, and back. *)
Definition byte_of_char (c : ascii) : Z := Z.of_nat (nat_of_ascii c).
Definition char_of_byte (b : Z) : ascii := ascii_of_nat (Z.to_nat b).

Fixpoint bytes_of_string (s : string) : list Z :=
  match s with
  | EmptyString => []
  | String c s' => byte_of_char c :: bytes_of_string s'
  end.

Fixpoint string_of_bytes (bs : list Z) : string :=
  match bs with
  | [] => EmptyString
  | b :: bs' => String (char_of_byte b) (string_of_bytes bs')
  end.

(** How [readString] ends: with the string and the rest of the stream; by
    the [std::length_error] that [std::string value(length, '\0')] throws
    for a negative [length], which converts to a size no string can have;
    or with nothing that can be said, when the stream ends inside the
    length and [length] is indeterminate. *)
Inductive string_read : Type :=
  | StringRead (value : string) (rest : ifstream)
  | StringLengthError
  | StringLengthMissing.

Section StringStreams.

Variable host_big_endian : bool.

(** [NBTFile::readString].  [file.read(&value[0], length)] stores the bytes
    the stream still has; past its end the characters of [value] stay
    ['\0']. *)
Definition readString (file : ifstream) : string_read :=
  match readShort host_big_endian file with
  | None => StringLengthMissing
  | Some (length, rest) =>
      if length <? 0 then StringLengthError
      else
        let n := Z.to_nat length in
        let got := firstn n rest in
        StringRead (string_of_bytes (got ++ repeat 0 (n - List.length got))) (skipn n rest)
  end.

(** [NBTFile::writeString]. *)
Definition writeString (file : ofstream) (value : string) : ofstream :=
  let file := writeShort host_big_endian file (to_i16 (Z.of_nat (String.length value))) in
  stream_write file (bytes_of_string value).

End StringStreams.

(** ** What the editor prints *)

(** [std::string(n, ' ')]. *)
Fixpoint spaces (n : nat) : string :=
  match n with
  | O => EmptyString
  | S n' => String " "%char (spaces n')
  end.

(** [s.substr(pos, count)] for a [pos] inside [s]: [count] is a [size_t],
    cut down to what [s] has left after [pos]. *)
Definition substr (pos count : Z) (s : string) : string :=
  substring (Z.to_nat pos)
    (Z.to_nat (Z.min (to_u64 count) (Z.of_nat (String.length s) - pos))) s.

Section Display.

Context {float_text : FloatText}.

(** [NBTTag::toString]. *)
Definition NBTTag_toString (indent : Z) (tag : NBTTag) : string :=
  let indentStr := spaces (Z.to_nat (to_u64 (indent * 2))) in
  let result := (indentStr ++ tagTypeToString (type tag))%string in
  let result :=
    if negb (String.eqb (name tag) EmptyString)
    then (result ++ ("(" ++ dquote ++ name tag ++ dquote ++ ")"))%string
    else result in
  (result ++ (": " ++ NBTValue_toString (value tag)))%string.

(** The line [drawEditor] prints for a tag in a terminal of [maxX] columns:
    both [maxX - 1] and [maxX - 4] are converted to [size_t]. *)
Definition drawn_line (maxX : Z) (tag : NBTTag) : string :=
  let line := NBTTag_toString 0 tag in
  if Z.of_nat (String.length line) >? to_u64 (maxX - 1)
  then substr 0 (maxX - 4) line ++ "..."
  else line.

End Display.

(** Two trees of the same shape: the same pointers designate tags in both,
    in the same order of the flattened view, and tags of the same kind. *)
Definition same_shape (a b : NBTTag) : Prop :=
  project a [] = project b [] /\
  forall q, option_map type (deref q a) = option_map type (deref q b).

(** * Properties *)

(** ** Conversions between integer types *)

Section StreamFacts.
Variable host_big_endian : bool.

Lemma pow2_double w : 0 < w -> 2 ^ w = 2 * 2 ^ (w - 1) /\ 0 < 2 ^ (w - 1).
Proof.
  intros Hw. split.
  - rewrite <- Z.pow_succ_r by lia. f_equal. lia.
  - apply Z.pow_pos_nonneg; lia.
Qed.

Lemma mod_two_halves v p :
  - p <= v < p -> v mod (2 * p) = if v <? 0 then v + 2 * p else v.
Proof.
  intros H. destruct (Z.ltb_spec v 0).
  - rewrite <- (Z_mod_plus_full v 1 (2 * p)), Z.mul_1_l. apply Z.mod_small. lia.
  - apply Z.mod_small. lia.
Qed.

Lemma to_signed_range w z : 0 < w -> in_signed w (to_signed w z).
Proof.
  intros Hw. unfold in_signed, to_signed.
  destruct (pow2_double w Hw) as [E P]. rewrite E.
  pose proof (Z.mod_pos_bound z (2 * 2 ^ (w - 1)) ltac:(lia)).
  cbv zeta. destruct (Z.ltb_spec (z mod (2 * 2 ^ (w - 1))) (2 ^ (w - 1))); lia.
Qed.

Lemma to_signed_eq w z v :
  0 < w -> in_signed w v -> to_unsigned w z = to_unsigned w v -> to_signed w z = v.
Proof.
  intros Hw Hv Ez. unfold in_signed, to_signed, to_unsigned in *.
  destruct (pow2_double w Hw) as [E P]. rewrite E in *. rewrite Ez.
  cbv zeta. rewrite (mod_two_halves v _ Hv).
  destruct (Z.ltb_spec v 0), (Z.ltb_spec (v + 2 * 2 ^ (w - 1)) (2 ^ (w - 1))),
    (Z.ltb_spec v (2 ^ (w - 1))); lia.
Qed.

Lemma to_signed_id w v : 0 < w -> in_signed w v -> to_signed w v = v.
Proof. intros. apply to_signed_eq; auto. Qed.

Lemma to_unsigned_to_signed w z : 0 < w -> to_unsigned w (to_signed w z) = to_unsigned w z.
Proof.
  intros Hw. unfold to_unsigned, to_signed. cbv zeta.
  assert (2 ^ w <> 0) by (apply Z.pow_nonzero; lia).
  destruct (z mod 2 ^ w <? 2 ^ (w - 1)).
  - now apply Z.mod_mod.
  - rewrite Zminus_mod, Z_mod_same_full, Z.sub_0_r, !Z.mod_mod; auto.
Qed.

Lemma lor_to_unsigned w a b : 0 <= w ->
  to_unsigned w (Z.lor a b) = Z.lor (to_unsigned w a) (to_unsigned w b).
Proof. intros. unfold to_unsigned. Z.bitblast. Qed.

(** A mask selecting one byte: [v & (0xFF << n)]. *)
Lemma land_byte_mask n v : 0 <= n ->
  Z.land v (Z.shiftl 255 n) = (v / 2 ^ n) mod 256 * 2 ^ n.
Proof.
  intros Hn. change 256 with (2 ^ 8).
  rewrite <- Z.land_ones, <- Z.shiftr_div_pow2, <- Z.shiftl_mul_pow2 by lia.
  change 255 with (Z.ones 8). Z.bitblast.
Qed.

(** [|] on operands with no common bit is an addition. *)
Lemma lor_add n a b : 0 <= n -> a mod 2 ^ n = 0 -> 0 <= b < 2 ^ n -> Z.lor a b = a + b.
Proof.
  intros Hn Ha Hb.
  assert (Ea : a = Z.shiftl (Z.shiftr a n) n).
  { rewrite Z.shiftl_mul_pow2, Z.shiftr_div_pow2 by lia.
    pose proof (Z.div_mod a (2 ^ n) ltac:(lia)). lia. }
  assert (Eb : b = Z.land b (Z.ones n)).
  { rewrite Z.land_ones by lia. symmetry. apply Z.mod_small. lia. }
  apply Z.or_to_plus. rewrite Ea, Eb. Z.bitblast.
Qed.


Ltac pow2_numerals :=
  change (2 ^ 0) with 1 in *; change (2 ^ 8) with 256 in *;
  change (2 ^ 16) with 65536 in *; change (2 ^ 24) with 16777216 in *;
  change (2 ^ 32) with 4294967296 in *; change (2 ^ 40) with 1099511627776 in *;
  change (2 ^ 48) with 281474976710656 in *;
  change (2 ^ 56) with 72057594037927936 in *;
  change (2 ^ 64) with 18446744073709551616 in *.

Ltac by_div_mod := Z.div_mod_to_equations; lia.

Lemma swap_int_bytes v :
  to_unsigned 32 (swap_int v) =
  v mod 256 * 2 ^ 24 + (v / 2 ^ 8) mod 256 * 2 ^ 16
  + (v / 2 ^ 16) mod 256 * 2 ^ 8 + (v / 2 ^ 24) mod 256.
Proof.
  unfold swap_int, to_i32, to_u32. rewrite to_unsigned_to_signed by lia.
  rewrite !lor_to_unsigned by lia. rewrite !to_unsigned_to_signed by lia.
  change 0xFF with (Z.shiftl 255 0).
  change 0xFF00 with (Z.shiftl 255 8).
  change 0xFF0000 with (Z.shiftl 255 16).
  change 0xFF000000 with (Z.shiftl 255 24).
  rewrite !land_byte_mask by lia.
  rewrite !Z.shiftl_mul_pow2, !Z.shiftr_div_pow2 by lia.
  unfold to_unsigned. pow2_numerals.
  match goal with
  | |- Z.lor (Z.lor (Z.lor ?t0 ?t1) ?t2) ?t3 = _ =>
      replace t0 with (v mod 256 * 16777216) by by_div_mod;
      replace t1 with ((v / 256) mod 256 * 65536) by by_div_mod;
      replace t2 with ((v / 65536) mod 256 * 256) by by_div_mod;
      replace t3 with ((v / 16777216) mod 256) by by_div_mod
  end.
  rewrite (lor_add 24 (v mod 256 * 16777216)) by (pow2_numerals; first [lia | by_div_mod]).
  rewrite (lor_add 16 (v mod 256 * 16777216 + _)) by (pow2_numerals; first [lia | by_div_mod]).
  rewrite (lor_add 8) by (pow2_numerals; first [lia | by_div_mod]).
  reflexivity.
Qed.


Lemma le_value_le_bytes n v : le_value (le_bytes n v) = v mod 256 ^ Z.of_nat n.
Proof.
  revert v. induction n as [|n IH]; intros v.
  - simpl. now rewrite Z.mod_1_r.
  - cbn [le_bytes le_value]. rewrite IH, Nat2Z.inj_succ, Z.pow_succ_r by lia.
    rewrite Z.rem_mul_r; [reflexivity | lia |]. apply Z.pow_pos_nonneg; lia.
Qed.

Lemma le_bytes_range n v : Forall is_byte (le_bytes n v).
Proof.
  revert v. induction n as [|n IH]; intros v; cbn [le_bytes]; constructor; auto.
  apply Z.mod_pos_bound. lia.
Qed.

Lemma le_bytes_length n v : List.length (le_bytes n v) = n.
Proof. revert v. induction n; intros; simpl; auto. Qed.

Lemma le_bytes_le_value bs :
  Forall is_byte bs -> le_bytes (List.length bs) (le_value bs) = bs.
Proof.
  induction 1 as [|b bs Hb _ IH]; [reflexivity|].
  cbn [List.length le_value le_bytes]. unfold is_byte in Hb. f_equal.
  - by_div_mod.
  - replace ((b + 256 * le_value bs) / 256) with (le_value bs) by by_div_mod.
    exact IH.
Qed.

Lemma le_bytes_mod n v : le_bytes n (v mod 256 ^ Z.of_nat n) = le_bytes n v.
Proof.
  rewrite <- le_value_le_bytes. rewrite <- (le_bytes_length n v) at 1.
  apply le_bytes_le_value, le_bytes_range.
Qed.

Lemma byte_reverse_involutive n u :
  byte_reverse n (byte_reverse n u) = u mod 256 ^ Z.of_nat n.
Proof.
  unfold byte_reverse.
  assert (E : le_bytes n (le_value (rev (le_bytes n u))) = rev (le_bytes n u)).
  { rewrite <- (le_bytes_length n u) at 1. rewrite <- length_rev.
    apply le_bytes_le_value. apply Forall_rev, le_bytes_range. }
  rewrite E, rev_involutive. apply le_value_le_bytes.
Qed.

Lemma byte_reverse_mod n v : byte_reverse n (v mod 256 ^ Z.of_nat n) = byte_reverse n v.
Proof. unfold byte_reverse. now rewrite le_bytes_mod. Qed.

Lemma object_value_bytes n v :
  object_value host_big_endian (object_bytes host_big_endian n v) = v mod 256 ^ Z.of_nat n.
Proof.
  unfold object_value, object_bytes. destruct host_big_endian.
  - rewrite rev_involutive. apply le_value_le_bytes.
  - apply le_value_le_bytes.
Qed.

Lemma byte_reverse_u32 x : byte_reverse 4 (to_unsigned 32 x) = byte_reverse 4 x.
Proof. exact (byte_reverse_mod 4 x). Qed.

Lemma byte_reverse_u64 x : byte_reverse 8 (to_unsigned 64 x) = byte_reverse 8 x.
Proof. exact (byte_reverse_mod 8 x). Qed.

Lemma object_value_bytes4 x :
  object_value host_big_endian (object_bytes host_big_endian 4 x) = to_unsigned 32 x.
Proof. exact (object_value_bytes 4 x). Qed.

Lemma object_value_bytes8 x :
  object_value host_big_endian (object_bytes host_big_endian 8 x) = to_unsigned 64 x.
Proof. exact (object_value_bytes 8 x). Qed.

Lemma swap_int_spec v : to_unsigned 32 (swap_int v) = byte_reverse 4 v.
Proof.
  rewrite swap_int_bytes. unfold byte_reverse. cbn [le_bytes rev app le_value].
  pow2_numerals. 
  replace (v / 256 / 256) with (v / 65536) by by_div_mod.
  replace (v / 65536 / 256) with (v / 16777216) by by_div_mod. lia.
Qed.

Lemma swap_int_involutive v : is_int32 v -> swap_int (swap_int v) = v.
Proof.
  intros Hv. apply to_signed_eq with (w := 32) (z := swap_int (swap_int v)) in Hv.
  - rewrite <- Hv at 2. symmetry. apply to_signed_id; [lia|]. apply to_signed_range. lia.
  - lia.
  - rewrite swap_int_spec, <- byte_reverse_u32, swap_int_spec.
    apply (byte_reverse_involutive 4).
Qed.

Lemma swap_long_bytes v :
  to_unsigned 64 (swap_long v) =
  v mod 256 * 2 ^ 56 + (v / 2 ^ 8) mod 256 * 2 ^ 48
  + (v / 2 ^ 16) mod 256 * 2 ^ 40 + (v / 2 ^ 24) mod 256 * 2 ^ 32
  + (v / 2 ^ 32) mod 256 * 2 ^ 24 + (v / 2 ^ 40) mod 256 * 2 ^ 16
  + (v / 2 ^ 48) mod 256 * 2 ^ 8 + (v / 2 ^ 56) mod 256.
Proof.
  unfold swap_long, to_i64, to_u64. rewrite to_unsigned_to_signed by lia.
  rewrite !lor_to_unsigned by lia. rewrite !to_unsigned_to_signed by lia.
  change 0xFF with (Z.shiftl 255 0).
  change 0xFF00 with (Z.shiftl 255 8).
  change 0xFF0000 with (Z.shiftl 255 16).
  change 0xFF000000 with (Z.shiftl 255 24).
  change 0xFF00000000 with (Z.shiftl 255 32).
  change 0xFF0000000000 with (Z.shiftl 255 40).
  change 0xFF000000000000 with (Z.shiftl 255 48).
  change 0xFF00000000000000 with (Z.shiftl 255 56).
  rewrite !land_byte_mask by lia.
  rewrite !Z.shiftl_mul_pow2, !Z.shiftr_div_pow2 by lia.
  unfold to_unsigned. pow2_numerals.
  match goal with
  | |- Z.lor (Z.lor (Z.lor (Z.lor (Z.lor (Z.lor (Z.lor ?t0 ?t1) ?t2) ?t3) ?t4) ?t5) ?t6) ?t7
       = _ =>
      replace t0 with (v mod 256 * 72057594037927936) by by_div_mod;
      replace t1 with ((v / 256) mod 256 * 281474976710656) by by_div_mod;
      replace t2 with ((v / 65536) mod 256 * 1099511627776) by by_div_mod;
      replace t3 with ((v / 16777216) mod 256 * 4294967296) by by_div_mod;
      replace t4 with ((v / 4294967296) mod 256 * 16777216) by by_div_mod;
      replace t5 with ((v / 1099511627776) mod 256 * 65536) by by_div_mod;
      replace t6 with ((v / 281474976710656) mod 256 * 256) by by_div_mod;
      replace t7 with ((v / 72057594037927936) mod 256) by by_div_mod
  end.
  rewrite (lor_add 56 (v mod 256 * 72057594037927936))
    by (pow2_numerals; first [lia | by_div_mod]).
  rewrite (lor_add 48 (v mod 256 * 72057594037927936 + _))
    by (pow2_numerals; first [lia | by_div_mod]).
  rewrite (lor_add 40 (v mod 256 * 72057594037927936 + _ + _))
    by (pow2_numerals; first [lia | by_div_mod]).
  rewrite (lor_add 32 (v mod 256 * 72057594037927936 + _ + _ + _))
    by (pow2_numerals; first [lia | by_div_mod]).
  rewrite (lor_add 24 (v mod 256 * 72057594037927936 + _ + _ + _ + _))
    by (pow2_numerals; first [lia | by_div_mod]).
  rewrite (lor_add 16 (v mod 256 * 72057594037927936 + _ + _ + _ + _ + _))
    by (pow2_numerals; first [lia | by_div_mod]).
  rewrite (lor_add 8) by (pow2_numerals; first [lia | by_div_mod]).
  reflexivity.
Qed.

Lemma swap_long_spec v : to_unsigned 64 (swap_long v) = byte_reverse 8 v.
Proof.
  rewrite swap_long_bytes. unfold byte_reverse. cbn [le_bytes rev app le_value].
  pow2_numerals.
  replace (v / 256 / 256) with (v / 65536) by by_div_mod.
  replace (v / 65536 / 256) with (v / 16777216) by by_div_mod.
  replace (v / 16777216 / 256) with (v / 4294967296) by by_div_mod.
  replace (v / 4294967296 / 256) with (v / 1099511627776) by by_div_mod.
  replace (v / 1099511627776 / 256) with (v / 281474976710656) by by_div_mod.
  replace (v / 281474976710656 / 256) with (v / 72057594037927936) by by_div_mod.
  lia.
Qed.

Lemma swap_long_involutive v : is_int64 v -> swap_long (swap_long v) = v.
Proof.
  intros Hv. apply to_signed_eq with (w := 64) (z := swap_long (swap_long v)) in Hv.
  - rewrite <- Hv at 2. symmetry. apply to_signed_id; [lia|]. apply to_signed_range. lia.
  - lia.
  - rewrite swap_long_spec, <- byte_reverse_u64, swap_long_spec.
    apply (byte_reverse_involutive 8).
Qed.

Lemma object_bytes_length n v : List.length (object_bytes host_big_endian n v) = n.
Proof.
  unfold object_bytes. destruct host_big_endian; rewrite ?length_rev; apply le_bytes_length.
Qed.

Lemma stream_read_app n bs rest :
  List.length bs = n -> stream_read n (bs ++ rest) = Some (bs, rest).
Proof.
  intros <-. unfold stream_read. rewrite length_app.
  replace (List.length bs <=? List.length bs + List.length rest)%nat with true
    by (symmetry; apply Nat.leb_le; lia).
  rewrite firstn_app, skipn_app, Nat.sub_diag, firstn_all, skipn_all.
  cbn [firstn skipn]. now rewrite app_nil_r.
Qed.

Lemma swap_int_range v : is_int32 (swap_int v).
Proof. apply to_signed_range. lia. Qed.

Lemma swap_long_range v : is_int64 (swap_long v).
Proof. apply to_signed_range. lia. Qed.


(** C9. Byte-order round trip: for every 32-bit signed [v32], the bytes
    [writeInt] appends, read back by [readInt], give [v32] again and
    leave the rest of the stream; likewise for every 64-bit signed [v64]
    with [writeLong] and [readLong].  Negative values are included, and
    the byte order of the host does not matter. *)
Theorem int_long_write_read_roundtrip (v32 v64 : Z) (file : ofstream) (rest : ifstream)
    (H32 : is_int32 v32) (H64 : is_int64 v64) :
  (exists bs, writeInt host_big_endian file v32 = file ++ bs /\
              readInt host_big_endian (bs ++ rest) = Some (v32, rest)) /\
  (exists bs, writeLong host_big_endian file v64 = file ++ bs /\
              readLong host_big_endian (bs ++ rest) = Some (v64, rest)).
Proof.
  unfold readInt, readLong, writeInt, writeLong, stream_write.
  split; eexists; (split; [reflexivity|]).
  - rewrite stream_read_app by apply object_bytes_length.
    rewrite object_value_bytes4. do 2 f_equal.
    unfold to_i32. rewrite (to_signed_eq 32 _ (swap_int v32)); try lia.
    + now apply swap_int_involutive.
    + apply swap_int_range.
    + unfold to_unsigned. apply Z.mod_mod. lia.
  - rewrite stream_read_app by apply object_bytes_length.
    rewrite object_value_bytes8. do 2 f_equal.
    unfold to_i64. rewrite (to_signed_eq 64 _ (swap_long v64)); try lia.
    + now apply swap_long_involutive.
    + apply swap_long_range.
    + unfold to_unsigned. apply Z.mod_mod. lia.
Qed.

End StreamFacts.

Lemma int_long_write_read_roundtrip_witness :
  is_int32 (-16777216) /\ is_int64 (-72057594037927936) /\
  ((exists bs, writeInt false [0] (-16777216) = [0] ++ bs /\
               readInt false (bs ++ [7]) = Some (-16777216, [7])) /\
   (exists bs, writeLong false [0] (-72057594037927936) = [0] ++ bs /\
               readLong false (bs ++ [7]) = Some (-72057594037927936, [7]))).
Proof.
  assert (H32 : is_int32 (-16777216)) by (unfold is_int32, in_signed; simpl; lia).
  assert (H64 : is_int64 (-72057594037927936)) by (unfold is_int64, in_signed; simpl; lia).
  split; [exact H32 | split; [exact H64 |]].
  exact (int_long_write_read_roundtrip false (-16777216) (-72057594037927936) [0] [7] H32 H64).
Defined.

(** ** The ordered map *)

Module StdMapFacts.
Import StdMap.

Lemma key_lt_trans a b c : key_lt a b -> key_lt b c -> key_lt a c.
Proof.
  unfold key_lt. intros H1 H2.
  apply String_as_OT.cmp_lt. apply String_as_OT.cmp_lt in H1, H2.
  eapply String_as_OT.lt_trans; eauto.
Qed.

Lemma compare_refl a : String.compare a a = Eq.
Proof.
  destruct (String.compare a a) eqn:E; auto.
  - pose proof (String.compare_antisym a a) as A. rewrite E in A. discriminate.
  - pose proof (String.compare_antisym a a) as A. rewrite E in A. discriminate.
Qed.

Lemma key_lt_irrefl a : ~ key_lt a a.
Proof. unfold key_lt. rewrite compare_refl. discriminate. Qed.

Lemma compare_Gt_lt a b : String.compare a b = Gt -> key_lt b a.
Proof.
  unfold key_lt. intros H. rewrite String.compare_antisym, H. reflexivity.
Qed.

Section Values.
Context {V : Type}.
Implicit Types (m : t V) (k : string) (v : V).

Lemma keys_assign_In k v m k' :
  In k' (keys (assign k v m)) <-> k' = k \/ In k' (keys m).
Proof.
  induction m as [|[k0 v0] m IH]; cbn [assign keys map fst In].
  - intuition.
  - destruct (String.compare k k0) eqn:E; cbn [keys map fst In].
    + apply String.compare_eq_iff in E. subst. fold (keys m). intuition.
    + fold (keys m). intuition.
    + fold (keys (assign k v m)). fold (keys m). rewrite IH. intuition.
Qed.

Lemma assign_ordered k v m : ordered m -> ordered (assign k v m).
Proof.
  unfold ordered. induction m as [|[k0 v0] m IH]; cbn [assign keys map fst]; intros Hm.
  - repeat constructor.
  - fold (keys m) in *. inversion Hm as [|? ? Hs Hall]; subst.
    destruct (String.compare k k0) eqn:E; cbn [keys map fst]; fold (keys m).
    + apply String.compare_eq_iff in E. subst. now constructor.
    + constructor; [exact Hm|]. constructor; [exact E|].
      eapply Forall_impl; [|exact Hall]. intros a Ha. eapply key_lt_trans; eauto.
    + fold (keys (assign k v m)). constructor; [now apply IH|].
      apply Forall_forall. intros a Ha. apply keys_assign_In in Ha.
      destruct Ha as [->|Ha].
      * now apply compare_Gt_lt.
      * rewrite Forall_forall in Hall. now apply Hall.
Qed.

Lemma find_assign_same k v m : find k (assign k v m) = Some v.
Proof.
  induction m as [|[k0 v0] m IH]; cbn [assign find].
  - now rewrite String.eqb_refl.
  - destruct (String.compare k k0) eqn:E; cbn [find].
    + now rewrite String.eqb_refl.
    + now rewrite String.eqb_refl.
    + destruct (String.eqb_spec k k0) as [->|_]; [|exact IH].
      rewrite compare_refl in E. discriminate.
Qed.

Lemma find_In k v m : find k m = Some v -> In (k, v) m.
Proof.
  induction m as [|[k0 v0] m IH]; cbn [find]; [discriminate|].
  destruct (String.eqb_spec k k0) as [->|_].
  - intros [= ->]. now left.
  - intros H. right. auto.
Qed.

Lemma In_find k v m : ordered m -> In (k, v) m -> find k m = Some v.
Proof.
unfold ordered. induction m as [|[k0 v0] m IH]; cbn [keys map fst In find]; [tauto|].
fold (keys m). intros Ho [[= -> ->]|Hin].
- now rewrite String.eqb_refl.
- inversion Ho as [|? ? Hs Hall]; subst.
  destruct (String.eqb_spec k k0) as [->|_]; [|now apply IH].
  exfalso. rewrite Forall_forall in Hall.
  apply (key_lt_irrefl k0). apply Hall. change k0 with (fst (k0, v)). now apply in_map.
Qed.

Lemma In_assign k v m k' v' :
  In (k', v') (assign k v m) -> (k' = k /\ v' = v) \/ In (k', v') m.
Proof.
  induction m as [|[k0 v0] m IH]; cbn [assign In].
  - intros [[= <- <-]|[]]. now left.
  - destruct (String.compare k k0) eqn:E; cbn [In].
    + intros [[= <- <-]|H]; auto.
    + intros [[= <- <-]|[H|H]]; auto.
    + intros [H|H]; auto. apply IH in H. tauto.
Qed.

Lemma keys_alter f k m : keys (alter f k m) = keys m.
Proof.
  induction m as [|[k0 v0] m IH]; cbn [alter keys map]; auto.
  destruct (String.eqb k k0); cbn [keys map fst]; auto.
  fold (keys (alter f k m)). fold (keys m). now rewrite IH.
Qed.

Lemma alter_absent f k m : find k m = None -> alter f k m = m.
Proof.
  induction m as [|[k0 v0] m IH]; cbn [alter find]; auto.
  destruct (String.eqb k k0); [discriminate|]. intros H. now rewrite IH.
Qed.

Lemma find_alter_same f k m v : find k m = Some v -> find k (alter f k m) = Some (f v).
Proof.
  induction m as [|[k0 v0] m IH]; cbn [alter find]; [discriminate|].
  destruct (String.eqb k k0) eqn:E; cbn [find]; rewrite E; auto.
  now intros [= ->].
Qed.

Lemma find_alter_other f k k' m : k' <> k -> find k' (alter f k m) = find k' m.
Proof.
  intros Hne. induction m as [|[k0 v0] m IH]; cbn [alter find]; auto.
  destruct (String.eqb_spec k k0) as [->|Hk]; cbn [find].
  - destruct (String.eqb_spec k' k0); [contradiction | reflexivity].
  - destruct (String.eqb k' k0); auto.
Qed.

End Values.

End StdMapFacts.

(** ** The tag tree *)

Section NBTTag_nested_induction.
Variable P : NBTTag -> Prop.
Hypothesis node :
  forall ty nm v,
    Forall P (listVal v) -> Forall (fun kv => P (snd kv)) (compoundVal v) ->
    P (mkNBTTag ty nm v).

Fixpoint NBTTag_nested_ind (tag : NBTTag) : P tag :=
  match tag with
  | mkNBTTag ty nm v =>
      node ty nm v
        ((fix items (l : list NBTTag) : Forall P l :=
            match l with
            | [] => Forall_nil P
            | x :: l' => Forall_cons x (NBTTag_nested_ind x) (items l')
            end) (listVal v))
        ((fix members (m : StdMap.t NBTTag) : Forall (fun kv => P (snd kv)) m :=
            match m with
            | [] => Forall_nil _
            | kv :: m' =>
                Forall_cons kv (NBTTag_nested_ind (snd kv)) (members m')
            end) (compoundVal v))
  end.
End NBTTag_nested_induction.

Lemma flattenTags_unfold tag self depth acc :
  flattenTags tag self depth acc =
  match type tag with
  | COMPOUND => flatten_members self depth (compoundVal (value tag)) (acc ++ [self])
  | LIST => flatten_items self depth (listVal (value tag)) O (acc ++ [self])
  | _ => acc ++ [self]
  end.
Proof.
  destruct tag as [ty nm v]. destruct ty; try reflexivity; cbn [flattenTags type value].
  - generalize (acc ++ [self]). generalize O.
    induction (listVal v) as [|x l IH]; intros i a; cbn [flatten_items]; auto.
  - generalize (acc ++ [self]).
    induction (compoundVal v) as [|[k c] m IH]; intros a; cbn [flatten_members]; auto.
Qed.

Lemma project_unfold tag self :
  project tag self =
  self :: match type tag with
          | COMPOUND => project_members self (compoundVal (value tag))
          | LIST => project_items self (listVal (value tag)) O
          | _ => []
          end.
Proof.
  destruct tag as [ty nm v]. destruct ty; try reflexivity; cbn [project type value]; f_equal.
  - generalize O. induction (listVal v) as [|x l IH]; intros i; cbn [project_items]; auto.
    now rewrite IH.
  - induction (compoundVal v) as [|[k c] m IH]; cbn [project_members]; auto.
    now rewrite IH.
Qed.

(** The traversal pushes exactly the pre-order projection. *)
Lemma flattenTags_project tag :
  forall self depth acc, flattenTags tag self depth acc = acc ++ project tag self.
Proof.
  induction tag as [ty nm v IHl IHm] using NBTTag_nested_ind. intros self depth acc.
  rewrite flattenTags_unfold, project_unfold. cbn [type value].
  assert (Hm : forall a, flatten_members self depth (compoundVal v) a
                         = a ++ project_members self (compoundVal v)).
  { induction IHm as [|[k c] m Hc _ IH]; intros a; cbn [flatten_members project_members].
    - now rewrite app_nil_r.
    - cbn [snd] in Hc. now rewrite IH, Hc, app_assoc. }
  assert (Hl : forall i a, flatten_items self depth (listVal v) i a
                           = a ++ project_items self (listVal v) i).
  { induction IHl as [|x l Hx _ IH]; intros i a; cbn [flatten_items project_items].
    - now rewrite app_nil_r.
    - now rewrite IH, Hx, app_assoc. }
  destruct ty; rewrite ?Hm, ?Hl, <- ?app_assoc; reflexivity.
Qed.

Lemma project_ext a b self :
  type a = type b -> listVal (value a) = listVal (value b) ->
  compoundVal (value a) = compoundVal (value b) ->
  project a self = project b self.
Proof. intros Ht Hl Hm. now rewrite !project_unfold, Ht, Hl, Hm. Qed.

(** Record extensionality for the two structures. *)
Lemma NBTValue_eta {Tag} (v : NBTValue Tag) :
  mkNBTValue (value_type v) (byteVal v) (shortVal v) (intVal v) (longVal v)
    (floatVal v) (doubleVal v) (stringVal v) (byteArrayVal v) (intArrayVal v)
    (longArrayVal v) (listVal v) (compoundVal v) = v.
Proof. now destruct v. Qed.

Lemma NBTTag_eta tag : mkNBTTag (type tag) (name tag) (value tag) = tag.
Proof. now destruct tag. Qed.

Lemma list_alter_absent {A} (f : A -> A) i l : nth_error l i = None -> list_alter f i l = l.
Proof.
  revert i. induction l as [|x l IH]; intros [|i]; cbn; auto; try discriminate.
  intros H. now rewrite IH.
Qed.

Lemma nth_error_list_alter_same {A} (f : A -> A) i l x :
  nth_error l i = Some x -> nth_error (list_alter f i l) i = Some (f x).
Proof.
  revert i. induction l as [|y l IH]; intros [|i]; cbn; try discriminate; auto.
  now intros [= ->].
Qed.

Lemma length_list_alter {A} (f : A -> A) i l : List.length (list_alter f i l) = List.length l.
Proof. revert i. induction l as [|y l IH]; intros [|i]; cbn; auto. Qed.

(** A write through a pointer that leads nowhere changes nothing. *)
Lemma write_absent f p : forall root, deref p root = None -> write p f root = root.
Proof.
  induction p as [|[k|i] p IH]; intros root; cbn [deref write]; [discriminate| |].
  - destruct (StdMap.find k (compoundVal (value root))) as [child|] eqn:E; intros H.
    + unfold on_value, set_value, set_compoundVal. cbn.
      replace (StdMap.alter (write p f) k (compoundVal (value root)))
        with (compoundVal (value root)).
      * now rewrite NBTValue_eta, NBTTag_eta.
      * clear -E H IH. induction (compoundVal (value root)) as [|[k0 c0] m IHm]; auto.
        cbn [StdMap.find StdMap.alter] in *. destruct (String.eqb k k0).
        -- injection E as ->. now rewrite IH.
        -- now rewrite <- IHm.
    + unfold on_value, set_value, set_compoundVal. cbn.
      rewrite StdMapFacts.alter_absent by exact E.
      now rewrite NBTValue_eta, NBTTag_eta.
  - destruct (nth_error (listVal (value root)) i) as [child|] eqn:E; intros H.
    + unfold on_value, set_value, set_listVal. cbn.
      replace (list_alter (write p f) i (listVal (value root))) with (listVal (value root)).
      * now rewrite NBTValue_eta, NBTTag_eta.
      * clear -E H IH. revert i E. induction (listVal (value root)) as [|c0 l IHl];
          intros [|i] E; cbn in *; try discriminate; auto.
        -- injection E as ->. now rewrite IH.
        -- now rewrite <- IHl.
    + unfold on_value, set_value, set_listVal. cbn.
      rewrite list_alter_absent by exact E.
      now rewrite NBTValue_eta, NBTTag_eta.
Qed.

(** After a write through [p], the pointer designates the changed tag. *)
Lemma deref_write_same f p :
  forall root tag, deref p root = Some tag -> deref p (write p f root) = Some (f tag).
Proof.
  induction p as [|[k|i] p IH]; intros root tag; cbn [deref write].
  - now intros [= ->].
  - destruct (StdMap.find k (compoundVal (value root))) as [child|] eqn:E; [|discriminate].
    intros H. cbn. rewrite (StdMapFacts.find_alter_same _ _ _ _ E). now apply IH.
  - destruct (nth_error (listVal (value root)) i) as [child|] eqn:E; [|discriminate].
    intros H. cbn. rewrite (nth_error_list_alter_same _ _ _ _ E). now apply IH.
Qed.

(** A write below the root leaves the kind and the name of the root. *)
Lemma write_below_type f s p root : type (write (s :: p) f root) = type root.
Proof. destruct s; reflexivity. Qed.

Lemma write_below_name f s p root : name (write (s :: p) f root) = name root.
Proof. destruct s; reflexivity. Qed.

(** How the projection of a tree moves when one tag is rewritten, for any
    relation on projections that is compatible with consing and
    concatenation: equality, or "at most as long as". *)
Section ProjectWrite.
Variable R : list tag_ptr -> list tag_ptr -> Prop.
Hypothesis R_refl : forall a, R a a.
Hypothesis R_cons : forall x a b, R a b -> R (x :: a) (x :: b).
Hypothesis R_app : forall a b c d, R a b -> R c d -> R (a ++ c) (b ++ d).

Variable f : NBTTag -> NBTTag.

Lemma project_members_alter g k m child self :
  StdMap.find k m = Some child ->
  R (project child (self ++ [Member k])) (project (g child) (self ++ [Member k])) ->
  R (project_members self m) (project_members self (StdMap.alter g k m)).
Proof.
  induction m as [|[k0 c0] m IH]; cbn [StdMap.find StdMap.alter project_members];
    [discriminate|].
  destruct (String.eqb_spec k k0) as [->|Hne]; cbn [project_members].
  - intros [= ->] H. apply R_app; auto.
  - intros E H. apply R_app; auto.
Qed.

Lemma project_items_alter g i l child self :
  nth_error l i = Some child ->
  forall j,
    R (project child (self ++ [Item (j + i)])) (project (g child) (self ++ [Item (j + i)])) ->
    R (project_items self l j) (project_items self (list_alter g i l) j).
Proof.
  revert i. induction l as [|x l IH]; intros [|i]; cbn [nth_error list_alter project_items];
    try discriminate.
  - intros [= ->] j H. rewrite Nat.add_0_r in H. apply R_app; auto.
  - intros E j H. apply R_app; auto. apply IH; auto.
    now rewrite Nat.add_succ_comm.
Qed.

Lemma project_write p :
  forall root tag,
    deref p root = Some tag ->
    (forall self, R (project tag self) (project (f tag) self)) ->
    forall self, R (project root self) (project (write p f root) self).
Proof.
  induction p as [|[k|i] p IH]; intros root tag; cbn [deref write].
  - intros [= ->] H self. apply H.
  - destruct (StdMap.find k (compoundVal (value root))) as [child|] eqn:E; [|discriminate].
    intros D H self. rewrite !project_unfold. cbn. apply R_cons.
    destruct (type root); auto.
    eapply project_members_alter; eauto.
  - destruct (nth_error (listVal (value root)) i) as [child|] eqn:E; [|discriminate].
    intros D H self. rewrite !project_unfold. cbn. apply R_cons.
    destruct (type root); auto.
    eapply project_items_alter; eauto.
Qed.
End ProjectWrite.

(** A write that keeps the kind and the two containers of its target keeps
    the projection of the whole tree. *)
Lemma project_write_leaf f p root tag self :
  deref p root = Some tag ->
  type (f tag) = type tag ->
  listVal (value (f tag)) = listVal (value tag) ->
  compoundVal (value (f tag)) = compoundVal (value tag) ->
  project (write p f root) self = project root self.
Proof.
  intros D Ht Hl Hm. symmetry.
  apply (project_write eq) with (tag := tag); auto.
  - intros; now f_equal.
  - intros; now f_equal.
  - intros q. symmetry. now apply project_ext.
Qed.

(** A write that does not shorten the projection of its target does not
    shorten the projection of the tree. *)
Lemma project_write_length f p root tag self :
  deref p root = Some tag ->
  (forall q, (List.length (project tag q) <= List.length (project (f tag) q))%nat) ->
  (List.length (project root self) <= List.length (project (write p f root) self))%nat.
Proof.
  intros D H.
  apply (project_write (fun a b => (List.length a <= List.length b)%nat)) with (tag := tag);
    auto.
  - intros; cbn; lia.
  - intros; rewrite !length_app; lia.
Qed.

(** *** Invariants on the entries of compounds *)

Section MembersAll.
Variable Q : string -> NBTTag -> Prop.
(** [Q] looks at the kind and the name of the member only. *)
Hypothesis Q_shallow :
  forall k a b, type a = type b -> name a = name b -> Q k a -> Q k b.

Variable f : NBTTag -> NBTTag.

Lemma Q_write k p :
  forall child tag,
    deref p child = Some tag -> (Q k tag -> Q k (f tag)) ->
    Q k child -> Q k (write p f child).
Proof.
  destruct p as [|s p]; intros child tag.
  - cbn. intros [= ->]. auto.
  - intros _ _. apply Q_shallow.
    + symmetry. apply write_below_type.
    + symmetry. apply write_below_name.
Qed.

Lemma members_all_write p :
  forall root tag,
    deref p root = Some tag ->
    (members_all Q tag -> members_all Q (f tag)) ->
    (forall k, Q k tag -> Q k (f tag)) ->
    members_all Q root -> members_all Q (write p f root).
Proof.
  induction p as [|[k|i] p IH]; intros root tag; cbn [deref write].
  - intros [= ->]. auto.
  - destruct (StdMap.find k (compoundVal (value root))) as [child|] eqn:E; [|discriminate].
    intros D Hf HQ Hroot. inversion Hroot as [? Hl Hm]; subst.
    constructor; cbn; [exact Hl|].
    clear Hroot Hl. induction (compoundVal (value root)) as [|[k0 c0] m IHm];
      cbn [StdMap.find StdMap.alter] in *; [discriminate|].
    inversion Hm as [|? ? [Hq Hc] Hm']; subst. cbn [fst snd] in *.
    destruct (String.eqb k k0).
    + injection E as ->. constructor; auto. cbn [fst snd]. split.
      * eapply Q_write; eauto.
      * eapply IH; eauto.
    + constructor; auto.
  - destruct (nth_error (listVal (value root)) i) as [child|] eqn:E; [|discriminate].
    intros D Hf HQ Hroot. inversion Hroot as [? Hl Hm]; subst.
    constructor; cbn; [|exact Hm].
    clear Hroot Hm. revert i E. induction (listVal (value root)) as [|c0 l IHl];
      intros [|i] E; cbn [nth_error list_alter] in *; try discriminate.
    + injection E as ->. inversion Hl; subst. constructor; auto. eapply IH; eauto.
    + inversion Hl; subst. constructor; auto.
Qed.

Lemma members_all_deref p :
  forall root tag, members_all Q root -> deref p root = Some tag -> members_all Q tag.
Proof.
  induction p as [|[k|i] p IH]; intros root tag Hroot; cbn [deref].
  - now intros [= <-].
  - destruct (StdMap.find k (compoundVal (value root))) as [child|] eqn:E; [|discriminate].
    apply IH. inversion Hroot as [? _ Hm]; subst.
    rewrite Forall_forall in Hm. apply StdMapFacts.find_In in E.
    now destruct (Hm _ E).
  - destruct (nth_error (listVal (value root)) i) as [child|] eqn:E; [|discriminate].
    apply IH. inversion Hroot as [? Hl _]; subst.
    rewrite Forall_forall in Hl. apply Hl. eapply nth_error_In; eauto.
Qed.

Lemma members_all_entry tag k child :
  members_all Q tag -> In (k, child) (compoundVal (value tag)) -> Q k child.
Proof.
  intros H Hin. inversion H as [? _ Hm]; subst.
  rewrite Forall_forall in Hm. now destruct (Hm _ Hin).
Qed.
End MembersAll.

(** *** Invariants on the tags *)

Section TagsAll.
Variable P : NBTTag -> Prop.
Variable f : NBTTag -> NBTTag.
(** [P] survives a write further down. *)
Hypothesis P_below : forall s p tag, P tag -> P (write (s :: p) f tag).

Lemma tags_all_write p :
  forall root tag,
    deref p root = Some tag ->
    (tags_all P tag -> tags_all P (f tag)) ->
    tags_all P root -> tags_all P (write p f root).
Proof.
  induction p as [|[k|i] p IH]; intros root tag.
  - cbn [deref write]. intros [= ->]. auto.
  - intros D Hf Hroot. inversion Hroot as [? Hp Hl Hm]; subst.
    constructor; [now apply P_below | exact Hl |].
    cbn [deref] in D. cbn.
    destruct (StdMap.find k (compoundVal (value root))) as [child|] eqn:E; [|discriminate].
    clear Hroot Hl Hp. induction (compoundVal (value root)) as [|[k0 c0] m IHm];
      cbn [StdMap.find StdMap.alter] in *; [discriminate|].
    inversion Hm as [|? ? Hc Hm']; subst. cbn [snd] in *.
    destruct (String.eqb k k0).
    + injection E as ->. constructor; auto. cbn [snd]. eapply IH; eauto.
    + constructor; auto.
  - intros D Hf Hroot. inversion Hroot as [? Hp Hl Hm]; subst.
    constructor; [now apply P_below | | exact Hm].
    cbn [deref] in D. cbn.
    destruct (nth_error (listVal (value root)) i) as [child|] eqn:E; [|discriminate].
    clear Hroot Hm Hp. revert i E. induction (listVal (value root)) as [|c0 l IHl];
      intros [|i] E; cbn [nth_error list_alter] in *; try discriminate.
    + injection E as ->. inversion Hl; subst. constructor; auto. eapply IH; eauto.
    + inversion Hl; subst. constructor; auto.
Qed.
End TagsAll.

Lemma members_ordered_below f s p tag :
  members_ordered tag -> members_ordered (write (s :: p) f tag).
Proof.
  unfold members_ordered, StdMap.ordered.
  destruct s as [k|i];
    cbn [write on_value set_value value set_compoundVal set_listVal compoundVal]; auto.
  now rewrite StdMapFacts.keys_alter.
Qed.

Lemma tags_all_same_children (P : NBTTag -> Prop) a b :
  P b ->
  listVal (value b) = listVal (value a) ->
  compoundVal (value b) = compoundVal (value a) ->
  tags_all P a -> tags_all P b.
Proof.
  intros Hp Hl Hm H. inversion H; subst. constructor; [exact Hp | now rewrite Hl | now rewrite Hm].
Qed.

(** *** Every pointer of the projection designates a tag *)

Lemma project_members_In self (m : StdMap.t NBTTag) p :
  In p (project_members self m) ->
  exists k c, In (k, c) m /\ In p (project c (self ++ [Member k])).
Proof.
  induction m as [|[k c] m IH]; cbn [project_members In]; [tauto|].
  intros H. apply in_app_or in H. destruct H as [H|H].
  - exists k, c. auto.
  - destruct (IH H) as (k' & c' & Hin & Hp). exists k', c'. auto.
Qed.

Lemma project_items_In self (l : list NBTTag) p :
  forall i,
    In p (project_items self l i) ->
    exists j x, nth_error l j = Some x /\ In p (project x (self ++ [Item (i + j)])).
Proof.
  induction l as [|x l IH]; intros i; cbn [project_items In]; [tauto|].
  intros H. apply in_app_or in H. destruct H as [H|H].
  - exists O, x. rewrite Nat.add_0_r. auto.
  - destruct (IH _ H) as (j & y & Hn & Hp). exists (S j), y.
    rewrite <- Nat.add_succ_comm. auto.
Qed.

Lemma project_deref tag :
  forall self p,
    tags_all members_ordered tag -> In p (project tag self) ->
    exists q t, p = self ++ q /\ deref q tag = Some t.
Proof.
  induction tag as [ty nm v IHl IHm] using NBTTag_nested_ind. intros self p Hall.
  inversion Hall as [? Ho Hl Hm]; subst. cbn [value] in *.
  rewrite project_unfold. cbn [type value In]. intros [<-|Hin].
  { exists [], (mkNBTTag ty nm v). now rewrite app_nil_r. }
  destruct ty; try contradiction.
  - apply project_items_In in Hin. destruct Hin as (j & x & Hn & Hp).
    rewrite Forall_forall in IHl, Hl. pose proof (nth_error_In _ _ Hn) as Hx.
    destruct (IHl x Hx _ _ (Hl x Hx) Hp) as (q & t & -> & D).
    exists (Item j :: q), t. split; [now rewrite <- app_assoc|].
    cbn [deref value]. now rewrite Hn.
  - apply project_members_In in Hin. destruct Hin as (k & c & Hc & Hp).
    rewrite Forall_forall in IHm, Hm.
    destruct (IHm (k, c) Hc _ _ (Hm (k, c) Hc) Hp) as (q & t & -> & D).
    exists (Member k :: q), t. split; [now rewrite <- app_assoc|].
    unfold members_ordered in Ho. cbn [value] in Ho.
    cbn [deref value]. now rewrite (StdMapFacts.In_find k c (compoundVal v) Ho Hc).
Qed.

(** ** The editor *)

(** The conversions on a few texts: a number, a number followed by other
    characters, no number, a number too large for [int]; and a narrowing. *)
Example stoi_examples :
  stoi "7" = inr 7 /\ stoi "  -12abc" = inr (-12) /\
  stoi "not-a-number" = inl invalid_argument /\
  stoi "99999999999" = inl out_of_range /\
  stoll "99999999999" = inr 99999999999 /\
  to_i8 300 = 44.
Proof. repeat split. Qed.

Lemma name_tracks_key_shallow k a b :
  type a = type b -> name a = name b -> name_tracks_key k a -> name_tracks_key k b.
Proof. intros _ Hn [n H]. exists n. congruence. Qed.

Lemma placeholder_is_string_shallow k a b :
  type a = type b -> name a = name b -> placeholder_is_string k a -> placeholder_is_string k b.
Proof. intros Ht _ H E. rewrite <- Ht. auto. Qed.

(** A change that leaves the two containers of a tag leaves every invariant
    on the entries below it. *)
Lemma members_all_same_children Q a b :
  listVal (value b) = listVal (value a) ->
  compoundVal (value b) = compoundVal (value a) ->
  members_all Q a -> members_all Q b.
Proof.
  intros Hl Hm H. inversion H; subst. constructor; [now rewrite Hl | now rewrite Hm].
Qed.

Lemma Forall_assign {V} (P : string * V -> Prop) k v (m : StdMap.t V) :
  P (k, v) -> Forall P m -> Forall P (StdMap.assign k v m).
Proof.
  intros Hk Hm. apply Forall_forall. intros [k' v'] Hin.
  apply StdMapFacts.In_assign in Hin. destruct Hin as [[-> ->]|Hin]; auto.
  rewrite Forall_forall in Hm. auto.
Qed.

(** [m[k] = leaf] does not shorten the projection when whatever [k] held
    before projects to a single row. *)
Lemma project_members_assign self k leaf (m : StdMap.t NBTTag) :
  (forall q, List.length (project leaf q) = 1%nat) ->
  (forall c, In (k, c) m -> forall q, List.length (project c q) = 1%nat) ->
  (List.length (project_members self m)
   <= List.length (project_members self (StdMap.assign k leaf m)))%nat.
Proof.
  intros Hleaf. induction m as [|[k0 c0] m IH]; intros Hold;
    cbn [StdMap.assign project_members].
  - cbn. lia.
  - destruct (String.compare k k0) eqn:E; cbn [project_members]; rewrite !length_app.
    + apply String.compare_eq_iff in E. subst k0.
      rewrite Hleaf, (Hold c0) by now left. lia.
    + lia.
    + assert (H := IH (fun c Hin => Hold c (or_intror Hin))). lia.
Qed.

(** *** The invariant of the tree under the three kinds of write *)

Lemma tree_inv_deref p root tag :
  tree_inv root -> deref p root = Some tag -> members_all placeholder_is_string tag.
Proof. intros (_ & _ & H) D. exact (members_all_deref _ p root tag H D). Qed.

(** A write that keeps the kind and the containers of its target, and a name
    that still tracks the key. *)
Lemma tree_inv_write_leaf f p root tag :
  deref p root = Some tag ->
  type (f tag) = type tag ->
  listVal (value (f tag)) = listVal (value tag) ->
  compoundVal (value (f tag)) = compoundVal (value tag) ->
  (forall k, name_tracks_key k tag -> name_tracks_key k (f tag)) ->
  tree_inv root -> tree_inv (write p f root).
Proof.
  intros D Ht Hl Hm Hk (Hord & Hname & Hnew). split; [|split].
  - apply (tags_all_write _ f (members_ordered_below f) p root tag D); [|exact Hord].
    intros H. apply (tags_all_same_children _ tag); auto.
    inversion H; subst. unfold members_ordered in *. now rewrite Hm.
  - apply (members_all_write _ name_tracks_key_shallow f p root tag D);
      [ now apply members_all_same_children | exact Hk | exact Hname ].
  - apply (members_all_write _ placeholder_is_string_shallow f p root tag D);
      [ now apply members_all_same_children
      | intros k Hp E; rewrite Ht; auto
      | exact Hnew ].
Qed.

(** The write of [addTag]. *)
Lemma tree_inv_write_new_tag p root tag :
  let newTag := on_value (set_stringVal "value") (new_NBTTag STRING "new_tag") in
  deref p root = Some tag ->
  tree_inv root -> tree_inv (write p (compound_assign "new_tag" newTag) root).
Proof.
  intros newTag D (Hord & Hname & Hnew).
  set (f := compound_assign "new_tag" newTag).
  assert (Hf : forall Q, Q "new_tag"%string newTag ->
                         members_all Q tag -> members_all Q (f tag)).
  { intros Q Hq Ht. inversion Ht as [? Hl Hm]; subst. constructor; cbn; auto.
    apply Forall_assign; auto. split; [exact Hq|]. repeat constructor. }
  split; [|split].
  - apply (tags_all_write _ f (members_ordered_below f) p root tag D); [|exact Hord].
    intros Ht. inversion Ht as [? Ho Hl Hm]; subst. constructor; cbn; auto.
    + now apply StdMapFacts.assign_ordered.
    + apply Forall_assign; auto. repeat constructor.
  - apply (members_all_write _ name_tracks_key_shallow f p root tag D);
      [ intros Ht; apply Hf; [now exists O | exact Ht]
      | intros k; now apply name_tracks_key_shallow
      | exact Hname ].
  - apply (members_all_write _ placeholder_is_string_shallow f p root tag D);
      [ intros Ht; apply Hf; [now intros _ | exact Ht]
      | intros k; now apply placeholder_is_string_shallow
      | exact Hnew ].
Qed.

(** [addTag] does not shorten the projection: a member it replaces is a
    string, one row like the member that takes its place. *)
Lemma project_write_new_tag p root tag :
  let newTag := on_value (set_stringVal "value") (new_NBTTag STRING "new_tag") in
  deref p root = Some tag -> type tag = COMPOUND -> tree_inv root ->
  (List.length (project root [])
   <= List.length (project (write p (compound_assign "new_tag" newTag) root) []))%nat.
Proof.
  intros newTag D Ty Hinv. eapply project_write_length; eauto. intros q.
  rewrite !project_unfold.
  cbn [compound_assign on_value set_value type value set_compoundVal compoundVal List.length].
  rewrite Ty. apply le_n_S. apply project_members_assign.
  - intros q'. reflexivity.
  - intros c Hin q'.
    assert (Hq : placeholder_is_string "new_tag" c).
    { apply (members_all_entry _ tag); [|exact Hin]. eapply tree_inv_deref; eauto. }
    rewrite project_unfold, (Hq eq_refl). reflexivity.
Qed.

(** *** The invariant of the editor *)

Lemma editor_inv_same ed ed' :
  nbtFile ed' = nbtFile ed -> flatTagList ed' = flatTagList ed ->
  currentRow ed' = currentRow ed -> scrollOffset ed' = scrollOffset ed ->
  selectedTag ed' = selectedTag ed -> editing ed' = editing ed ->
  editor_inv ed -> editor_inv ed'.
Proof.
  intros Hf Hl Hr Hs Hsel He [Hroot Hrow Hscroll Hselected Hedit].
  constructor; unfold target in *; rewrite ?Hf, ?Hl, ?Hr, ?Hs, ?Hsel, ?He; auto.
Qed.

(** The editor after a write through the selection that neither shortens
    the projection nor breaks the invariant of the tree, the view being
    either kept (when the projection is the same) or refreshed. *)
Lemma editor_inv_written ed ed' sel f root tag :
  editor_inv ed ->
  getRoot (nbtFile ed) = Some root -> selectedTag ed = Some sel ->
  deref sel root = Some tag ->
  getRoot (nbtFile ed') = Some (write sel f root) ->
  flatTagList ed' = project (write sel f root) [] ->
  tree_inv (write sel f root) ->
  (List.length (project root []) <= List.length (project (write sel f root) []))%nat ->
  currentRow ed' = currentRow ed -> scrollOffset ed' = scrollOffset ed ->
  selectedTag ed' = selectedTag ed -> editing ed' = editing ed ->
  editor_inv ed'.
Proof.
  intros [(root0 & R0 & Hflat & _) Hrow Hscroll _ Hedit] Hroot Hsel D Hroot' Hflat' Hinv Hlen
    Hr Hs Hsel' He.
  rewrite Hroot in R0. injection R0 as <-.
  constructor; unfold target; rewrite ?Hr, ?Hs, ?Hsel', ?He, ?Hroot', ?Hflat'; auto.
  - exists (write sel f root). auto.
  - rewrite Hflat in Hrow. lia.
  - rewrite Hsel. intros sel0 [= <-]. exists (f tag). now apply deref_write_same.
Qed.

Lemma draw_loop_fields l :
  forall ed,
    let ed' := fold_left draw_row l ed in
    nbtFile ed' = nbtFile ed /\ currentRow ed' = currentRow ed /\
    scrollOffset ed' = scrollOffset ed /\ maxVisibleRows ed' = maxVisibleRows ed /\
    flatTagList ed' = flatTagList ed /\ modified ed' = modified ed /\
    editing ed' = editing ed /\ editBuffer ed' = editBuffer ed /\
    (selectedTag ed' = selectedTag ed \/
     exists p, In p (flatTagList ed) /\ selectedTag ed' = Some p).
Proof.
  induction l as [|i l IH]; intros ed; cbn [fold_left]; [repeat split; auto|].
  specialize (IH (draw_row ed i)). cbv zeta in IH.
  assert (E : draw_row ed i = ed \/
              exists p, In p (flatTagList ed) /\ draw_row ed i = set_selectedTag (Some p) ed).
  { unfold draw_row. destruct (i =? currentRow ed); auto.
    destruct (nth_error _ _) as [p|] eqn:N; auto.
    right. exists p. split; [eapply nth_error_In; eauto | reflexivity]. }
  destruct E as [E|(p & Hp & E)]; rewrite E in *; [exact IH|].
  cbn [set_selectedTag nbtFile currentRow scrollOffset maxVisibleRows flatTagList modified
       editing editBuffer selectedTag] in IH.
  destruct IH as (H1 & H2 & H3 & H4 & H5 & H6 & H7 & H8 & H9).
  repeat (split; [assumption|]). right.
  destruct H9 as [H9|(p' & Hp' & H9)]; eauto.
Qed.

Lemma drawEditor_fields y ed :
  nbtFile (drawEditor y ed) = nbtFile ed /\
  currentRow (drawEditor y ed) = currentRow ed /\
  flatTagList (drawEditor y ed) = flatTagList ed /\
  modified (drawEditor y ed) = modified ed /\
  editing (drawEditor y ed) = editing ed /\
  editBuffer (drawEditor y ed) = editBuffer ed /\
  (selectedTag (drawEditor y ed) = selectedTag ed \/
   exists p, In p (flatTagList ed) /\ selectedTag (drawEditor y ed) = Some p).
Proof.
  unfold drawEditor. cbv zeta.
  match goal with
  | |- context [fold_left draw_row ?l ?e] =>
      pose proof (draw_loop_fields l e) as F; cbv zeta in F;
      set (scrolled := e) in *; revert F; generalize (fold_left draw_row l scrolled)
  end.
  intros drawn (H1 & H2 & _ & _ & H5 & H6 & H7 & H8 & H9).
  assert (E : nbtFile scrolled = nbtFile ed /\ currentRow scrolled = currentRow ed /\
              flatTagList scrolled = flatTagList ed /\ modified scrolled = modified ed /\
              editing scrolled = editing ed /\ editBuffer scrolled = editBuffer ed /\
              selectedTag scrolled = selectedTag ed).
  { subst scrolled. destruct (_ <? _); [|destruct (_ >=? _)]; cbn; auto 10. }
  destruct E as (E1 & E2 & E3 & E4 & E5 & E6 & E7).
  rewrite H1, H2, H5, H6, H7, H8, E1, E2, E4, E5, E6. rewrite E3, E7 in H9. rewrite E3.
  auto 10.
Qed.

Lemma drawEditor_scroll y ed :
  0 <= scrollOffset ed -> 0 <= currentRow ed -> 0 <= scrollOffset (drawEditor y ed).
Proof.
  intros Hs Hr. unfold drawEditor.
  match goal with
  | |- context [fold_left draw_row ?l ?e] =>
      destruct (draw_loop_fields l e) as (_ & _ & H3 & _)
  end.
  rewrite H3. cbn.
  destruct (Z.ltb_spec (currentRow ed) (scrollOffset ed)); cbn; [lia|].
  destruct (Z.geb_spec (currentRow ed) (scrollOffset ed + (y - 2))); cbn; lia.
Qed.

Lemma drawEditor_inv y ed : editor_inv ed -> editor_inv (drawEditor y ed).
Proof.
  intros H. destruct (drawEditor_fields y ed) as (H1 & H2 & H3 & _ & H5 & _ & H7).
  destruct H as [Hroot Hrow Hscroll Hsel Hedit].
  constructor; unfold target in *; rewrite ?H1, ?H2, ?H3, ?H5; auto.
  - apply drawEditor_scroll; lia.
  - intros sel Hs. destruct H7 as [H7|(p & Hp & H7)].
    + apply Hsel. congruence.
    + rewrite H7 in Hs. injection Hs as <-.
      destruct Hroot as (root & Hroot & Hflat & (Hord & _)). rewrite Hroot.
      rewrite Hflat in Hp. destruct (project_deref root [] p Hord Hp) as (q & t & -> & D).
      exists t. exact D.
Qed.

Lemma saveChanges_inv ed : editor_inv ed -> editor_inv (saveChanges ed).
Proof. apply editor_inv_same; reflexivity. Qed.

Lemma deleteTag_returns ed : fst (deleteTag ed) = Returned.
Proof. unfold deleteTag. destruct (selectedTag ed); [destruct (negb _)|]; reflexivity. Qed.

Lemma deleteTag_inv ed : editor_inv ed -> editor_inv (snd (deleteTag ed)).
Proof.
  intros H. unfold deleteTag. destruct (selectedTag ed) as [sel|] eqn:Hsel; [|exact H].
  destruct (negb (ptr_eqb sel [])); [|exact H]. cbn [snd].
  destruct (inv_root _ H) as (root & Hroot & Hflat & Hinv).
  destruct (inv_selected _ H sel Hsel) as (tag & T). unfold target in T. rewrite Hroot in T.
  set (f := fun tag => set_name ("[DELETED] " ++ name tag) tag).
  assert (Hp : project (write sel f root) [] = project root [])
    by (apply (project_write_leaf f sel root tag []); [exact T | reflexivity..]).
  apply (editor_inv_written ed _ sel f root tag H Hroot Hsel T); try reflexivity.
  - unfold write_root. now rewrite Hroot.
  - cbn. now rewrite Hp.
  - apply (tree_inv_write_leaf f sel root tag T); try reflexivity; [|exact Hinv].
    intros k [n Hn]. exists (S n). cbn. now rewrite Hn.
  - now rewrite Hp.
Qed.

Lemma addTag_returns ed : fst (addTag ed) = Returned.
Proof.
  unfold addTag. destruct (selectedTag ed); [|reflexivity].
  destruct (target _ _); [|reflexivity]. destruct (TagType_eqb _ _); reflexivity.
Qed.

Lemma TagType_eqb_eq a b : TagType_eqb a b = true <-> a = b.
Proof. destruct a, b; cbn; split; intros; congruence. Qed.

Lemma refresh_write_root ed sel f root :
  getRoot (nbtFile ed) = Some root ->
  getRoot (nbtFile (refreshTagList (write_root sel f ed))) = Some (write sel f root) /\
  flatTagList (refreshTagList (write_root sel f ed)) = project (write sel f root) [] /\
  currentRow (refreshTagList (write_root sel f ed)) = currentRow ed /\
  scrollOffset (refreshTagList (write_root sel f ed)) = scrollOffset ed /\
  selectedTag (refreshTagList (write_root sel f ed)) = selectedTag ed /\
  editing (refreshTagList (write_root sel f ed)) = editing ed.
Proof.
  intros H. unfold refreshTagList, write_root. rewrite H.
  cbn [set_flatTagList set_nbtFile nbtFile getRoot setRoot rootTag flatTagList option_map
       currentRow scrollOffset selectedTag editing].
  rewrite flattenTags_project. auto 10.
Qed.

Lemma addTag_inv ed : editor_inv ed -> editor_inv (snd (addTag ed)).
Proof.
  intros H. unfold addTag. destruct (selectedTag ed) as [sel|] eqn:Hsel; [|exact H].
  destruct (target sel ed) as [tag|] eqn:T; [|exact H].
  destruct (TagType_eqb (type tag) COMPOUND) eqn:Ty; [|exact H]. cbn [snd].
  apply TagType_eqb_eq in Ty.
  destruct (inv_root _ H) as (root & Hroot & Hflat & Hinv).
  unfold target in T. rewrite Hroot in T.
  set (f := compound_assign "new_tag"
              (on_value (set_stringVal "value") (new_NBTTag STRING "new_tag"))).
  destruct (refresh_write_root ed sel f root Hroot) as (R1 & R2 & R3 & R4 & R5 & R6).
  apply (editor_inv_written ed _ sel f root tag H Hroot Hsel T); auto.
  - now apply (tree_inv_write_new_tag sel root tag).
  - now apply (project_write_new_tag sel root tag).
Qed.

Section EditorFacts.

Context {float_text : FloatText}.

(** An edit changes one scalar field of the value and nothing else. *)
Lemma setValueFromString_keeps str tag tag' :
  setValueFromString str tag = inr tag' ->
  type tag' = type tag /\ name tag' = name tag /\
  listVal (value tag') = listVal (value tag) /\
  compoundVal (value tag') = compoundVal (value tag).
Proof.
  unfold setValueFromString, bind_throws.
  destruct (type tag) eqn:Ty;
    try (intros [= <-]; auto);
    try (destruct (stoi str); [discriminate|]; intros [= <-]; cbn; auto);
    try (destruct (stoll str); [discriminate|]; intros [= <-]; cbn; auto);
    try (destruct (stof str); [discriminate|]; intros [= <-]; cbn; auto);
    try (destruct (stod str); [discriminate|]; intros [= <-]; cbn; auto).
Qed.

Lemma editValue_returns result line ed : fst (editValue result line ed) = Returned.
Proof.
  unfold editValue. destruct (selectedTag ed); [|reflexivity].
  destruct (target _ _); [|reflexivity]. destruct (negb _); [reflexivity|].
  cbv zeta. destruct (result =? OK); [|reflexivity].
  destruct (setValueFromString _ _); reflexivity.
Qed.

(** The conversion throws: the exception is swallowed and only
    [editBuffer] has changed. *)
Lemma editValue_throw ed sel tag line e :
  selectedTag ed = Some sel -> target sel ed = Some tag ->
  editable (type tag) = true ->
  setValueFromString (c_string (substring 0 255 line)) tag = inl e ->
  editValue OK line ed = (Returned, set_editBuffer (edit_seed tag) ed).
Proof.
  intros Hs Ht He Hv. unfold editValue. rewrite Hs, Ht, He. cbn [negb].
  cbv zeta. change (OK =? OK) with true. cbv iota.
  unfold target in *. cbn [set_editBuffer nbtFile]. rewrite Hv. reflexivity.
Qed.

(** The conversion succeeds: the tag is replaced and [modified] is set. *)
Lemma editValue_commit ed sel tag line tag' :
  selectedTag ed = Some sel -> target sel ed = Some tag ->
  editable (type tag) = true ->
  setValueFromString (c_string (substring 0 255 line)) tag = inr tag' ->
  editValue OK line ed
  = (Returned,
     set_modified true (write_root sel (fun _ => tag') (set_editBuffer (edit_seed tag) ed))).
Proof.
  intros Hs Ht He Hv. unfold editValue. rewrite Hs, Ht, He. cbn [negb].
  cbv zeta. change (OK =? OK) with true. cbv iota.
  unfold target in *. cbn [set_editBuffer nbtFile]. rewrite Hv. reflexivity.
Qed.

Lemma editValue_inv result line ed :
  editor_inv ed -> editor_inv (snd (editValue result line ed)).
Proof.
  intros H. unfold editValue. destruct (selectedTag ed) as [sel|] eqn:Hsel; [|exact H].
  destruct (target sel ed) as [tag|] eqn:T; [|exact H].
  destruct (negb _); [exact H|]. cbv zeta.
  assert (Hb : forall b, editor_inv (set_editBuffer b ed))
    by (intros b; revert H; apply editor_inv_same; reflexivity).
  destruct (result =? OK); [|apply Hb].
  destruct (setValueFromString _ _) as [e|tag'] eqn:V; [apply Hb|]. cbn [snd].
  apply setValueFromString_keeps in V. destruct V as (V1 & V2 & V3 & V4).
  destruct (inv_root _ H) as (root & Hroot & Hflat & Hinv).
  unfold target in T. rewrite Hroot in T.
  set (f := fun _ : NBTTag => tag').
  assert (Hp : project (write sel f root) [] = project root [])
    by (apply (project_write_leaf f sel root tag []); auto).
  apply (editor_inv_written ed _ sel f root tag H Hroot Hsel T); try reflexivity.
  - unfold write_root. cbn [set_editBuffer set_modified set_nbtFile nbtFile]. now rewrite Hroot.
  - cbn. now rewrite Hp.
  - apply (tree_inv_write_leaf f sel root tag T); auto.
    intros k. apply name_tracks_key_shallow; auto.
  - now rewrite Hp.
Qed.

Lemma handleInput_returns ev ed : fst (handleInput ev ed) = Returned.
Proof.
  unfold handleInput. cbv zeta.
  repeat match goal with |- context [if ?c then _ else _] => destruct c end;
    auto using editValue_returns, addTag_returns, deleteTag_returns.
Qed.

Lemma handleInput_inv ev ed : editor_inv ed -> editor_inv (snd (handleInput ev ed)).
Proof.
  intros H. unfold handleInput. cbv zeta.
  destruct (ch ev =? KEY_UP).
  { cbn [snd]. destruct (Z.gtb_spec (currentRow ed) 0); [|exact H].
    destruct H as [Hroot Hrow Hscroll]. constructor; cbn; auto. lia. }
  destruct (ch ev =? KEY_DOWN).
  { cbn [snd].
    destruct (Z.ltb_spec (currentRow ed) (Z.of_nat (List.length (flatTagList ed)) - 1));
      [|exact H].
    destruct H as [Hroot Hrow Hscroll]. constructor; cbn; auto. lia. }
  destruct (_ || _); [now apply editValue_inv|].
  destruct (_ || _); [now apply addTag_inv|].
  destruct (_ || _); [now apply deleteTag_inv|].
  destruct (_ || _); [now apply saveChanges_inv|]. exact H.
Qed.

Lemma run_turn_inv ev ed : editor_inv ed -> editor_inv (fst (run_turn ev ed)).
Proof.
  intros H. unfold run_turn. cbv zeta.
  pose proof (drawEditor_inv (maxY ev) ed H) as Hd.
  destruct (_ || _).
  - destruct (_ || _); [exact Hd|]. destruct (_ || _); [|exact Hd].
    now apply saveChanges_inv.
  - cbn [fst]. now apply handleInput_inv.
Qed.

Lemma load_rootTag_named : members_all name_tracks_key load_rootTag.
Proof.
  repeat (constructor; cbn [fst snd]); try (exists O; reflexivity).
Qed.

Lemma load_rootTag_placeholder : members_all placeholder_is_string load_rootTag.
Proof.
  repeat (constructor; cbn [fst snd]); try (intros [=]).
Qed.

Lemma load_rootTag_ordered : tags_all members_ordered load_rootTag.
Proof.
  repeat (constructor; cbn [fst snd]);
    repeat (constructor; try reflexivity).
Qed.

Lemma run_start_inv fname stored : editor_inv (run_start fname stored).
Proof.
  constructor.
  - exists load_rootTag. split; [reflexivity|split; [reflexivity|split; [|split]]].
    + apply load_rootTag_ordered.
    + apply load_rootTag_named.
    + apply load_rootTag_placeholder.
  - cbn. lia.
  - cbn. lia.
  - intros sel [=].
  - reflexivity.
Qed.

Lemma running_inv ed : running ed -> editor_inv ed.
Proof.
  induction 1 as [fname stored | ev ed _ IH _].
  - apply run_start_inv.
  - now apply run_turn_inv.
Qed.


(** The selection always designates a tag of the tree: the branches of the
    model for a pointer that leads nowhere are never taken by [run]. *)
Lemma running_selection_designates ed sel :
  running ed -> selectedTag ed = Some sel -> exists tag, target sel ed = Some tag.
Proof. intros H. exact (inv_selected _ (running_inv ed H) sel). Qed.

(** [editing] is never set: the editor is always in its browsing mode
    between two keys. *)
Lemma running_not_editing ed : running ed -> editing ed = false.
Proof. intros H. exact (inv_editing _ (running_inv ed H)). Qed.

Lemma deref_app p q :
  forall root,
    deref (p ++ q) root =
    match deref p root with
    | Some tag => deref q tag
    | None => None
    end.
Proof.
  induction p as [|[k|i] p IH]; intros root; cbn [app deref]; auto.
  - destruct (StdMap.find k _); auto.
  - destruct (nth_error _ i); auto.
Qed.

Lemma alter_ext {V} (g h : V -> V) k (m : StdMap.t V) :
  (forall v, g v = h v) -> StdMap.alter g k m = StdMap.alter h k m.
Proof.
  intros E. induction m as [|[k0 v0] m IH]; cbn [StdMap.alter]; auto.
  destruct (String.eqb k k0); [now rewrite E | now rewrite IH].
Qed.

Lemma list_alter_ext {A} (g h : A -> A) i (l : list A) :
  (forall v, g v = h v) -> list_alter g i l = list_alter h i l.
Proof.
  intros E. revert i. induction l as [|x l IH]; intros [|i]; cbn [list_alter]; auto.
  - now rewrite E.
  - now rewrite IH.
Qed.

Lemma write_app f p q : forall root, write (p ++ q) f root = write p (write q f) root.
Proof.
  induction p as [|[k|i] p IH]; intros root; cbn [app write]; auto.
  - unfold on_value. now rewrite (alter_ext _ _ k _ IH).
  - unfold on_value. now rewrite (list_alter_ext _ _ i _ IH).
Qed.

Lemma ptr_eqb_snoc p s : ptr_eqb (p ++ [s]) [] = false.
Proof. destruct p; reflexivity. Qed.

Lemma stoi_range str n : stoi str = inr n -> is_int32 n.
Proof.
  unfold stoi. destruct (parse_decimal str) as [v|]; [|discriminate].
  destruct (Z.leb_spec (- 2 ^ 31) v); destruct (Z.ltb_spec v (2 ^ 31)); cbn [andb];
    try discriminate.
  intros [= <-]. unfold is_int32, in_signed. change (32 - 1) with 31. lia.
Qed.

Lemma stoll_range str n : stoll str = inr n -> is_int64 n.
Proof.
  unfold stoll. destruct (parse_decimal str) as [v|]; [|discriminate].
  destruct (Z.leb_spec (- 2 ^ 63) v); destruct (Z.ltb_spec v (2 ^ 63)); cbn [andb];
    try discriminate.
  intros [= <-]. unfold is_int64, in_signed. change (64 - 1) with 63. lia.
Qed.

(** C3 (as the code has it). [deleteTag] on a selected member of a
    compound marks the member's name with "[DELETED] " and sets
    [modified]; it removes nothing: the parent keeps the same keys in the
    same order, the member is still stored under its key, and the
    flattened view of the tree is the same. *)
Theorem deleteTag_marks_member_in_place
    (ed : NBTEditor) (root parent child : NBTTag) (par : tag_ptr) (k : string)
    (Hroot : getRoot (nbtFile ed) = Some root)
    (Hsel : selectedTag ed = Some (par ++ [Member k]))
    (Hpar : deref par root = Some parent)
    (Hkind : type parent = COMPOUND)
    (Hchild : StdMap.find k (compoundVal (value parent)) = Some child) :
  exists root' parent',
    deleteTag ed
    = (Returned, set_modified true (set_nbtFile (setRoot (Some root') (nbtFile ed)) ed)) /\
    deref par root' = Some parent' /\
    type parent' = COMPOUND /\
    StdMap.keys (compoundVal (value parent')) = StdMap.keys (compoundVal (value parent)) /\
    StdMap.find k (compoundVal (value parent'))
    = Some (set_name ("[DELETED] " ++ name child) child) /\
    project root' [] = project root [].
Proof.
  set (f := fun tag => set_name ("[DELETED] " ++ name tag) tag).
  exists (write (par ++ [Member k]) f root), (write [Member k] f parent).
  assert (D : deref (par ++ [Member k]) root = Some child).
  { rewrite deref_app, Hpar. cbn [deref]. now rewrite Hchild. }
  split; [|split; [|split; [|split; [|split]]]].
  - unfold deleteTag. rewrite Hsel, ptr_eqb_snoc.
    unfold write_root. rewrite Hroot. reflexivity.
  - rewrite write_app. now apply deref_write_same.
  - exact Hkind.
  - exact (StdMapFacts.keys_alter (write [] f) k (compoundVal (value parent))).
  - exact (StdMapFacts.find_alter_same (write [] f) k _ child Hchild).
  - apply (project_write_leaf f _ root child []); [exact D | reflexivity..].
Qed.

(** C4 (as the code has it). When the conversion of the typed text throws
    for the selected scalar tag, [editValue] swallows the exception: it
    returns normally and reports nothing; the tree (the tag's value
    included), [modified], [editing] and the selection are unchanged; the
    typed text is dropped, [editBuffer] holding the old value as text. *)
Theorem editValue_swallows_failed_conversion
    (ed : NBTEditor) (sel : tag_ptr) (tag : NBTTag) (line : string) (e : exception)
    (Hsel : selectedTag ed = Some sel)
    (Htag : target sel ed = Some tag)
    (Hkind : editable (type tag) = true)
    (Hbad : setValueFromString (c_string (substring 0 255 line)) tag = inl e) :
  let ed' := snd (editValue OK line ed) in
  fst (editValue OK line ed) = Returned /\
  nbtFile ed' = nbtFile ed /\
  target sel ed' = Some tag /\
  modified ed' = modified ed /\
  editing ed' = editing ed /\
  selectedTag ed' = selectedTag ed /\
  editBuffer ed' = edit_seed tag.
Proof.
  rewrite (editValue_throw ed sel tag line e Hsel Htag Hkind Hbad). cbn.
  repeat split. exact Htag.
Qed.

(** When the conversion of the text returns [n], [n] is narrowed to the
    width of the kind and stored, and [modified] is set. *)
Lemma editValue_commits_parsed
    (ed : NBTEditor) (sel : tag_ptr) (tag : NBTTag) (line : string) (n : Z)
    (Hsel : selectedTag ed = Some sel)
    (Htag : target sel ed = Some tag)
    (Hkind : integer_kind (type tag) = true)
    (Hparse : parse_integer (type tag) (c_string (substring 0 255 line)) = inr n) :
  let ed' := snd (editValue OK line ed) in
  fst (editValue OK line ed) = Returned /\
  modified ed' = true /\
  exists tag',
    target sel ed' = Some tag' /\
    type tag' = type tag /\ name tag' = name tag /\
    integer_of tag' = to_signed (bit_width (type tag)) n.
Proof.
  assert (He : editable (type tag) = true) by (destruct (type tag); auto; discriminate).
  assert (V : exists tag',
             setValueFromString (c_string (substring 0 255 line)) tag = inr tag' /\
             type tag' = type tag /\ name tag' = name tag /\
             integer_of tag' = to_signed (bit_width (type tag)) n).
  { unfold setValueFromString, parse_integer, integer_of, bit_width in *.
    destruct (type tag) eqn:Ty; try discriminate; rewrite Hparse; cbn [bind_throws];
      eexists; (split; [reflexivity|]); cbn; rewrite Ty; repeat split.
    - symmetry. apply to_signed_id; [lia|]. now apply stoi_range in Hparse.
    - symmetry. apply to_signed_id; [lia|]. now apply stoll_range in Hparse. }
  destruct V as (tag' & V & V1 & V2 & V3).
  rewrite (editValue_commit ed sel tag line tag' Hsel Htag He V). cbn [fst snd].
  split; [reflexivity|]. split; [reflexivity|].
  exists tag'. repeat split; auto.
  unfold target in *. cbn. destruct (getRoot (nbtFile ed)) as [root|]; [|discriminate].
  cbn. now rewrite (deref_write_same (fun _ => tag') sel root tag Htag).
Qed.

(** C7. In every state the main loop passes through, and after every
    further turn of it, the cursor row is an index of the flattened view;
    the up key at row 0 and the down key at the last row leave it where
    it is. *)
Theorem selection_stays_in_bounds (ed : NBTEditor) (ev : event) (Hrun : running ed) :
  let last (e : NBTEditor) := Z.of_nat (List.length (flatTagList e)) - 1 in
  0 <= currentRow ed <= last ed /\
  0 <= currentRow (fst (run_turn ev ed)) <= last (fst (run_turn ev ed)) /\
  (ch ev = KEY_UP -> currentRow ed = 0 -> currentRow (snd (handleInput ev ed)) = 0) /\
  (ch ev = KEY_DOWN -> currentRow ed = last ed ->
   currentRow (snd (handleInput ev ed)) = currentRow ed).
Proof.
  cbv zeta. pose proof (running_inv ed Hrun) as H.
  pose proof (inv_row _ (run_turn_inv ev ed H)) as H'.
  pose proof (inv_row _ H) as Hr.
  split; [lia|]. split; [lia|]. split.
  - intros Hk H0. unfold handleInput. cbv zeta. rewrite Hk.
    change (KEY_UP =? KEY_UP) with true. cbv iota. cbn [snd].
    destruct (Z.gtb_spec (currentRow ed) 0); [lia | exact H0].
  - intros Hk Hl. unfold handleInput. cbv zeta. rewrite Hk.
    change (KEY_DOWN =? KEY_UP) with false. change (KEY_DOWN =? KEY_DOWN) with true.
    cbv iota. cbn [snd].
    destruct (Z.ltb_spec (currentRow ed) (Z.of_nat (List.length (flatTagList ed)) - 1));
      [lia | reflexivity].
Qed.

(** C10 (as the code has it). In every tree the main loop reaches, the
    name of each member of a compound is the key it is stored under,
    behind one "[DELETED] " for each time [deleteTag] was applied to it. *)
Theorem member_name_tracks_key
    (ed : NBTEditor) (root tag child : NBTTag) (p : tag_ptr) (k : string)
    (Hrun : running ed)
    (Hroot : getRoot (nbtFile ed) = Some root)
    (Htag : deref p root = Some tag)
    (Hchild : In (k, child) (compoundVal (value tag))) :
  exists n, name child = deleted_n n k.
Proof.
  destruct (inv_root _ (running_inv ed Hrun)) as (root0 & R0 & _ & _ & Hname & _).
  rewrite Hroot in R0. injection R0 as <-.
  apply (members_all_entry name_tracks_key tag k child); [|exact Hchild].
  exact (members_all_deref _ p root tag Hname Htag).
Qed.

End EditorFacts.

(** C8 (as the code has it). [deleteTag] with the root selected does
    nothing and reports nothing: it returns normally and the editor, its
    tree, [modified] and the selection are what they were. *)
Theorem deleteTag_root_is_silent_noop (ed : NBTEditor)
    (Hsel : selectedTag ed = Some []) :
  deleteTag ed = (Returned, ed).
Proof. unfold deleteTag. now rewrite Hsel. Qed.

(** ** The flattened view, in full *)

Lemma project_shift tag : forall a b, project tag (a ++ b) = map (app a) (project tag b).
Proof.
  induction tag as [ty nm v IHl IHm] using NBTTag_nested_ind. intros a b.
  rewrite !project_unfold. cbn [type value map]. f_equal.
  assert (Hm : project_members (a ++ b) (compoundVal v)
               = map (app a) (project_members b (compoundVal v))).
  { induction IHm as [|[k c] m Hc _ IH]; cbn [project_members map]; auto.
    cbn [snd] in Hc. rewrite map_app, IH, <- app_assoc, Hc. reflexivity. }
  assert (Hl : forall i, project_items (a ++ b) (listVal v) i
                         = map (app a) (project_items b (listVal v) i)).
  { induction IHl as [|x l Hx _ IH]; intros i; cbn [project_items map]; auto.
    rewrite map_app, IH, <- app_assoc, Hx. reflexivity. }
  destruct ty; auto.
Qed.

(** Below the root of a projection every pointer has at least one step. *)
Lemma project_root_first tag :
  exists below, project tag [] = [] :: below /\ Forall (fun q => q <> []) below.
Proof.
  rewrite project_unfold. eexists. split; [reflexivity|].
  assert (Hm : forall m, Forall (fun q : tag_ptr => q <> []) (project_members [] m)).
  { induction m as [|[k c] m IH]; cbn [project_members]; [constructor|].
    apply Forall_app. split; [|exact IH].
    change ([] ++ [Member k]) with ([Member k] ++ @nil step).
    rewrite (project_shift c [Member k] []). apply Forall_forall.
    intros q Hq. apply in_map_iff in Hq. destruct Hq as (q' & <- & _). discriminate. }
  assert (Hl : forall l i, Forall (fun q : tag_ptr => q <> []) (project_items [] l i)).
  { induction l as [|x l IH]; intros i; cbn [project_items]; [constructor|].
    apply Forall_app. split; [|apply IH].
    change ([] ++ [Item i]) with ([Item i] ++ @nil step).
    rewrite (project_shift x [Item i] []). apply Forall_forall.
    intros q Hq. apply in_map_iff in Hq. destruct Hq as (q' & <- & _). discriminate. }
  destruct (type tag); auto.
Qed.

Lemma visited_members_app a b :
  visited_members (a ++ b) = visited_members a ++ visited_members b.
Proof.
  induction a as [|p a IH]; cbn [app visited_members]; auto.
  destruct (member_steps p); cbn [app]; now rewrite IH.
Qed.

Lemma visited_members_deep k below :
  Forall (fun q : tag_ptr => q <> []) below ->
  visited_members (map (app [Member k]) below) = [].
Proof.
  induction 1 as [|q below Hq _ IH]; cbn [map visited_members]; auto.
  destruct q as [|s q]; [contradiction|]. cbn. exact IH.
Qed.

Lemma visited_members_project_members (m : StdMap.t NBTTag) :
  visited_members (project_members [] m) = StdMap.keys m.
Proof.
  induction m as [|[k c] m IH]; cbn [project_members StdMap.keys map fst]; auto.
  rewrite visited_members_app, IH. fold (StdMap.keys m).
  change ([] ++ [Member k]) with ([Member k] ++ @nil step).
  rewrite (project_shift c [Member k] []).
  destruct (project_root_first c) as (below & -> & Hb).
  cbn [map]. change ([Member k] ++ []) with [Member k].
  cbn [visited_members member_steps app].
  change (fun m0 : list step => Member k :: m0) with (app [Member k]).
  now rewrite (visited_members_deep k below Hb).
Qed.

Lemma view_project root : view root = project root [].
Proof. unfold view, refreshTagList. cbn. now rewrite flattenTags_project. Qed.

Lemma compound_fold entries :
  forall tag,
    StdMap.ordered (compoundVal (value tag)) ->
    let c := fold_left (fun tag kv => compound_assign (fst kv) (snd kv) tag) entries tag in
    type c = type tag /\
    StdMap.ordered (compoundVal (value c)) /\
    (forall k, In k (StdMap.keys (compoundVal (value c)))
               <-> In k (StdMap.keys (compoundVal (value tag))) \/ In k (map fst entries)).
Proof.
  induction entries as [|[k v] entries IH]; intros tag Ho; cbn [fold_left map fst snd].
  - cbv zeta. split; [reflexivity|]. split; [exact Ho|]. intros k. cbn [In]. tauto.
  - specialize (IH (compound_assign k v tag)). cbv zeta in *.
    destruct IH as (I1 & I2 & I3).
    { cbn. now apply StdMapFacts.assign_ordered. }
    split; [exact I1|]. split; [exact I2|].
    intros k'. rewrite I3. cbn [compound_assign on_value set_value value set_compoundVal
      compoundVal In]. rewrite StdMapFacts.keys_assign_In. intuition.
Qed.

(** C2 (as the code has it). The flattened view is the pre-order,
    depth-first projection of the tree, root first, list items in list
    order, and the members of a compound in the order of the [std::map]
    that holds them: ascending order of the keys, whatever the order in
    which the members were inserted. *)
Theorem flatten_is_preorder_in_key_order
    (root : NBTTag) (n : string) (entries : list (string * NBTTag)) :
  view root = project root [] /\
  hd_error (view root) = Some [] /\
  let c := compound_of n entries in
  visited_members (view c) = StdMap.keys (compoundVal (value c)) /\
  StdMap.ordered (compoundVal (value c)) /\
  (forall k, In k (StdMap.keys (compoundVal (value c))) <-> In k (map fst entries)).
Proof.
  split; [apply view_project|]. split.
  { rewrite view_project, project_unfold. reflexivity. }
  cbv zeta. unfold compound_of.
  destruct (compound_fold entries (new_NBTTag COMPOUND n)) as (H1 & H2 & H3).
  { constructor. }
  cbv zeta in *. split; [|split; [exact H2|]].
  - rewrite view_project, project_unfold, H1. cbn [new_NBTTag type visited_members member_steps].
    apply visited_members_project_members.
  - intros k. rewrite H3. cbn. tauto.
Qed.

(** C2, counterexample: "b" inserted before "a" is visited after it. *)
Lemma flatten_insertion_order_counterexample :
  let entries := [("b"%string, new_NBTTag INT "b"); ("a"%string, new_NBTTag INT "a")] in
  visited_members (view (compound_of "root" entries)) = ["a"%string; "b"%string] /\
  visited_members (view (compound_of "root" entries)) <> map fst entries.
Proof. split; [reflexivity | discriminate]. Qed.

(** ** [load] and [save] *)

(** C1 (as the code has it). [load] succeeds and installs the same fixed
    tree whatever bytes are stored; [save] succeeds and writes no byte.  So
    decoding an encoding gives back the tree only when it is that fixed
    tree, and encoding a decoding gives back the document only when it is
    empty. *)
Theorem load_save_are_constant (fname : string) (b : list Z) (t : NBTTag) (f : NBTFile) :
  load b f = (true, setRoot (Some load_rootTag) f) /\
  save f = (true, []) /\
  decode fname b = Some load_rootTag /\
  encode fname t = [] /\
  (decode fname (encode fname t) = Some t <-> t = load_rootTag) /\
  (option_map (encode fname) (decode fname b) = Some b <-> b = []).
Proof.
  repeat split; try reflexivity.
  - now intros [= <-].
  - now intros ->.
  - now intros [= <-].
  - now intros ->.
Qed.

(** C1, counterexample: the empty compound does not survive a save and a
    load, and the smallest document does not survive a load and a save. *)
Lemma roundtrip_counterexample :
  decode "level.dat" (encode "level.dat" empty_compound) <> Some empty_compound /\
  option_map (encode "level.dat") (decode "level.dat" empty_document) <> Some empty_document.
Proof. split; discriminate. Qed.

(** ** Sessions *)

Ltac by_eval := vm_compute; first [reflexivity | discriminate].

(** C3, counterexample: with "health" selected under the root, [deleteTag]
    leaves the root with its four members, "health" among them. *)
Lemma deleteTag_removal_counterexample :
  let ed := at_row 1 in
  let keys_of e := option_map (fun r => StdMap.keys (compoundVal (value r))) (getRoot (nbtFile e)) in
  selectedTag ed = Some [Member "health"] /\
  keys_of ed = Some ["health"; "inventory"; "name"; "position"]%string /\
  keys_of (snd (deleteTag ed)) = Some ["health"; "inventory"; "name"; "position"]%string /\
  keys_of (snd (deleteTag ed)) <> Some ["inventory"; "name"; "position"]%string.
Proof. cbv zeta. repeat apply conj; by_eval. Qed.

(** C4, counterexample: on the Byte tag that holds 5, the text
    "not-a-number" makes the conversion throw, and [editValue] returns
    normally: no error leaves it. *)
Lemma editValue_error_counterexample :
  let ed := at_row 8 in
  let sel := [Member "inventory"; Member "items"; Item 1; Member "count"] in
  selectedTag ed = Some sel /\
  option_map (fun t => (type t, byteVal (value t))) (target sel ed) = Some (BYTE, 5) /\
  option_map (setValueFromString (float_text := no_float_text) "not-a-number") (target sel ed)
  = Some (inl invalid_argument) /\
  fst (editValue (float_text := no_float_text) OK "not-a-number" ed) = Returned /\
  ~ (exists e, fst (editValue (float_text := no_float_text) OK "not-a-number" ed) = Threw e).
Proof.
  cbv zeta. repeat apply conj; try by_eval. intros [e H]. vm_compute in H. discriminate.
Qed.

(** C6, at the failing input: the root already has a member "new_tag",
    edited to hold "kept"; [addTag] on the root replaces it by a fresh tag
    holding "value", the number of members staying at 5, and returns
    normally. *)
Theorem addTag_overwrites_existing_member :
  let before := drawEditor 24 (play (float_text := no_float_text) kept_session started) in
  let after := snd (addTag before) in
  let members e :=
    option_map (fun r => map (fun kv => (fst kv, stringVal (value (snd kv))))
                             (compoundVal (value r)))
               (getRoot (nbtFile e)) in
  selectedTag before = Some [] /\
  fst (addTag before) = Returned /\
  members before
  = Some [("health", ""); ("inventory", ""); ("name", "Test Player");
          ("new_tag", "kept"); ("position", "")]%string /\
  members after
  = Some [("health", ""); ("inventory", ""); ("name", "Test Player");
          ("new_tag", "value"); ("position", "")]%string.
Proof. cbv zeta. repeat apply conj; by_eval. Qed.

(** C8, counterexample: with the root selected, [deleteTag] returns
    normally; no error leaves it. *)
Lemma deleteTag_root_error_counterexample :
  selectedTag (at_row 0) = Some [] /\
  fst (deleteTag (at_row 0)) = Returned /\
  ~ (exists e, fst (deleteTag (at_row 0)) = Threw e).
Proof.
  cbv zeta. repeat apply conj; try by_eval. intros [e H]. vm_compute in H. discriminate.
Qed.

(** C10, counterexample: after the down key and the delete key, the member
    stored under "health" is named "[DELETED] health". *)
Lemma member_key_name_counterexample :
  let ed := play (float_text := no_float_text)
              [press KEY_DOWN ""; press (key "d") ""] started in
  running (float_text := no_float_text) ed /\
  option_map (fun r => option_map name (StdMap.find "health" (compoundVal (value r))))
             (getRoot (nbtFile ed))
  = Some (Some "[DELETED] health"%string) /\
  ~ (forall root k child,
       getRoot (nbtFile ed) = Some root ->
       StdMap.find k (compoundVal (value root)) = Some child -> name child = k).
Proof.
  cbv zeta. split; [|split].
  - apply (running_turn (float_text := no_float_text) (press (key "d") "")
             (fst (run_turn (float_text := no_float_text) (press KEY_DOWN "") started)));
      [apply (running_turn (float_text := no_float_text) (press KEY_DOWN "") started);
       [apply running_start|] |]; by_eval.
  - by_eval.
  - intros H.
    assert (E : exists root child,
               getRoot (nbtFile (play (float_text := no_float_text)
                                   [press KEY_DOWN ""; press (key "d") ""] started))
               = Some root /\
               StdMap.find "health" (compoundVal (value root)) = Some child /\
               name child <> "health"%string).
    { vm_compute. eexists. eexists. split; [reflexivity|]. split; by_eval. }
    destruct E as (root & child & R & F & N). exact (N (H root _ child R F)).
Qed.

(** ** The theorems at concrete inputs *)

Lemma deleteTag_marks_member_in_place_witness :
  let ed := at_row 1 in
  let child := on_value (set_floatVal float_20_0) (new_NBTTag FLOAT "health") in
  getRoot (nbtFile ed) = Some load_rootTag /\
  selectedTag ed = Some ([] ++ [Member "health"]) /\
  deref [] load_rootTag = Some load_rootTag /\
  type load_rootTag = COMPOUND /\
  StdMap.find "health" (compoundVal (value load_rootTag)) = Some child /\
  exists root' parent',
    deleteTag ed
    = (Returned, set_modified true (set_nbtFile (setRoot (Some root') (nbtFile ed)) ed)) /\
    deref [] root' = Some parent' /\
    type parent' = COMPOUND /\
    StdMap.keys (compoundVal (value parent')) = StdMap.keys (compoundVal (value load_rootTag)) /\
    StdMap.find "health" (compoundVal (value parent'))
    = Some (set_name ("[DELETED] " ++ name child) child) /\
    project root' [] = project load_rootTag [].
Proof.
  cbv zeta.
  assert (H1 : getRoot (nbtFile (at_row 1)) = Some load_rootTag) by (vm_compute; reflexivity).
  assert (H2 : selectedTag (at_row 1) = Some ([] ++ [Member "health"]))
    by (vm_compute; reflexivity).
  assert (H3 : deref [] load_rootTag = Some load_rootTag) by reflexivity.
  assert (H4 : type load_rootTag = COMPOUND) by (vm_compute; reflexivity).
  assert (H5 : StdMap.find "health" (compoundVal (value load_rootTag))
               = Some (on_value (set_floatVal float_20_0) (new_NBTTag FLOAT "health")))
    by (vm_compute; reflexivity).
  repeat (split; [assumption|]).
  exact (deleteTag_marks_member_in_place
           (at_row 1) load_rootTag load_rootTag _ [] "health" H1 H2 H3 H4 H5).
Defined.

Lemma editValue_swallows_failed_conversion_witness :
  let ed := at_row 8 in
  let sel := [Member "inventory"; Member "items"; Item 1; Member "count"] in
  let tag := on_value (set_byteVal 5) (new_NBTTag BYTE "count") in
  selectedTag ed = Some sel /\
  target sel ed = Some tag /\
  editable (type tag) = true /\
  setValueFromString (float_text := no_float_text)
    (c_string (substring 0 255 "not-a-number")) tag = inl invalid_argument /\
  let ed' := snd (editValue (float_text := no_float_text) OK "not-a-number" ed) in
  fst (editValue (float_text := no_float_text) OK "not-a-number" ed) = Returned /\
  nbtFile ed' = nbtFile ed /\
  target sel ed' = Some tag /\
  modified ed' = modified ed /\
  editing ed' = editing ed /\
  selectedTag ed' = selectedTag ed /\
  editBuffer ed' = edit_seed (float_text := no_float_text) tag.
Proof.
  cbv zeta.
  set (sel := [Member "inventory"; Member "items"; Item 1; Member "count"]).
  set (tag := on_value (set_byteVal 5) (new_NBTTag BYTE "count")).
  assert (H1 : selectedTag (at_row 8) = Some sel) by (vm_compute; reflexivity).
  assert (H2 : target sel (at_row 8) = Some tag) by (vm_compute; reflexivity).
  assert (H3 : editable (type tag) = true) by reflexivity.
  assert (H4 : setValueFromString (float_text := no_float_text)
                 (c_string (substring 0 255 "not-a-number")) tag = inl invalid_argument)
    by (vm_compute; reflexivity).
  repeat (split; [assumption|]).
  exact (editValue_swallows_failed_conversion (float_text := no_float_text)
           (at_row 8) sel tag "not-a-number" invalid_argument H1 H2 H3 H4).
Defined.

Lemma selection_stays_in_bounds_witness :
  let ed := started in
  let ev := press KEY_UP "" in
  let last (e : NBTEditor) := Z.of_nat (List.length (flatTagList e)) - 1 in
  running (float_text := no_float_text) ed /\
  0 <= currentRow ed <= last ed /\
  0 <= currentRow (fst (run_turn (float_text := no_float_text) ev ed))
    <= last (fst (run_turn (float_text := no_float_text) ev ed)) /\
  (ch ev = KEY_UP -> currentRow ed = 0 ->
   currentRow (snd (handleInput (float_text := no_float_text) ev ed)) = 0) /\
  (ch ev = KEY_DOWN -> currentRow ed = last ed ->
   currentRow (snd (handleInput (float_text := no_float_text) ev ed)) = currentRow ed).
Proof.
  cbv zeta.
  assert (H : running (float_text := no_float_text) started) by apply running_start.
  split; [exact H|].
  exact (selection_stays_in_bounds (float_text := no_float_text) started (press KEY_UP "") H).
Defined.

Lemma deleteTag_root_is_silent_noop_witness :
  selectedTag (at_row 0) = Some [] /\ deleteTag (at_row 0) = (Returned, at_row 0).
Proof.
  assert (H : selectedTag (at_row 0) = Some []) by (vm_compute; reflexivity).
  split; [exact H|]. exact (deleteTag_root_is_silent_noop (at_row 0) H).
Defined.

Lemma member_name_tracks_key_witness :
  let ed := fst (run_turn (float_text := no_float_text) (press (key "d") "")
                   (fst (run_turn (float_text := no_float_text) (press KEY_DOWN "") started))) in
  let child := set_name "[DELETED] health"
                 (on_value (set_floatVal float_20_0) (new_NBTTag FLOAT "health")) in
  exists root,
    running (float_text := no_float_text) ed /\
    getRoot (nbtFile ed) = Some root /\
    deref [] root = Some root /\
    In ("health"%string, child) (compoundVal (value root)) /\
    exists n, name child = deleted_n n "health".
Proof.
  cbv zeta.
  set (ed := fst (run_turn (float_text := no_float_text) (press (key "d") "")
                    (fst (run_turn (float_text := no_float_text) (press KEY_DOWN "") started)))).
  set (child := set_name "[DELETED] health"
                  (on_value (set_floatVal float_20_0) (new_NBTTag FLOAT "health"))).
  assert (H1 : running (float_text := no_float_text) ed).
  { apply (running_turn (float_text := no_float_text) (press (key "d") "")
             (fst (run_turn (float_text := no_float_text) (press KEY_DOWN "") started)));
      [apply (running_turn (float_text := no_float_text) (press KEY_DOWN "") started);
       [apply running_start|] |]; vm_compute; reflexivity. }
  assert (H2 : exists root, getRoot (nbtFile ed) = Some root /\
                            In ("health"%string, child) (compoundVal (value root))).
  { vm_compute. eexists. split; [reflexivity|]. left. reflexivity. }
  destruct H2 as (root & H2 & H3). exists root.
  assert (H4 : deref [] root = Some root) by reflexivity.
  repeat (split; [assumption|]).
  exact (member_name_tracks_key (float_text := no_float_text)
           ed root root child [] "health" H1 H2 H4 H3).
Defined.

(** * Further properties *)

(** ** The byte-order primitives, all widths *)

Ltac powers_of_two :=
  change (2 ^ 0) with 1 in *; change (2 ^ 8) with 256 in *;
  change (2 ^ 16) with 65536 in *; change (2 ^ 24) with 16777216 in *;
  change (2 ^ 32) with 4294967296 in *; change (2 ^ 64) with 18446744073709551616 in *.

Ltac div_mod_lia := Z.div_mod_to_equations; lia.

Section MoreStreamFacts.

Variable host_big_endian : bool.

Lemma swap_short_spec v : to_unsigned 16 (swap_short v) = byte_reverse 2 v.
Proof.
  unfold swap_short, to_i16. rewrite to_unsigned_to_signed by lia.
  rewrite lor_to_unsigned by lia.
  change 0xFF with (Z.shiftl 255 0). change 0xFF00 with (Z.shiftl 255 8).
  rewrite !land_byte_mask by lia.
  rewrite !Z.shiftl_mul_pow2, !Z.shiftr_div_pow2 by lia.
  unfold to_unsigned, byte_reverse. cbn [le_bytes rev app le_value]. powers_of_two.
  match goal with
  | |- Z.lor ?t0 ?t1 = _ =>
      replace t0 with (v mod 256 * 256) by div_mod_lia;
      replace t1 with ((v / 256) mod 256) by div_mod_lia
  end.
  rewrite (lor_add 8) by (powers_of_two; first [lia | div_mod_lia]). lia.
Qed.

Lemma byte_reverse_u16 x : byte_reverse 2 (to_unsigned 16 x) = byte_reverse 2 x.
Proof. exact (byte_reverse_mod 2 x). Qed.

Lemma swap_short_range v : is_int16 (swap_short v).
Proof. apply to_signed_range. lia. Qed.

Lemma swap_short_involutive v : is_int16 v -> swap_short (swap_short v) = v.
Proof.
  intros Hv. apply to_signed_eq with (w := 16) (z := swap_short (swap_short v)) in Hv.
  - rewrite <- Hv at 2. symmetry. apply to_signed_id; [lia|]. apply to_signed_range. lia.
  - lia.
  - rewrite swap_short_spec, <- byte_reverse_u16, swap_short_spec.
    apply (byte_reverse_involutive 2).
Qed.

Lemma object_value_bytes1 x :
  object_value host_big_endian (object_bytes host_big_endian 1 x) = to_unsigned 8 x.
Proof. exact (object_value_bytes host_big_endian 1 x). Qed.

Lemma object_value_bytes2 x :
  object_value host_big_endian (object_bytes host_big_endian 2 x) = to_unsigned 16 x.
Proof. exact (object_value_bytes host_big_endian 2 x). Qed.

Lemma to_signed_of_unsigned w x : 0 < w -> in_signed w x -> to_signed w (to_unsigned w x) = x.
Proof.
  intros Hw Hx. apply to_signed_eq; auto. unfold to_unsigned. apply Z.mod_mod.
  apply Z.pow_nonzero; lia.
Qed.

(** X1. A [writeByte] read back by [readByte], and a [writeShort] read back
    by [readShort], give the value written and leave the rest of the
    stream, for every value of the type, on either byte order of the host. *)
Theorem byte_short_write_read_roundtrip (v8 v16 : Z) (file : ofstream) (rest : ifstream)
    (H8 : is_int8 v8) (H16 : is_int16 v16) :
  (exists bs, writeByte host_big_endian file v8 = file ++ bs /\
              readByte host_big_endian (bs ++ rest) = Some (v8, rest)) /\
  (exists bs, writeShort host_big_endian file v16 = file ++ bs /\
              readShort host_big_endian (bs ++ rest) = Some (v16, rest)).
Proof.
  unfold readByte, readShort, writeByte, writeShort, stream_write.
  split; eexists; (split; [reflexivity|]).
  - rewrite stream_read_app by apply object_bytes_length.
    rewrite object_value_bytes1. do 2 f_equal.
    apply to_signed_of_unsigned; [lia | exact H8].
  - rewrite stream_read_app by apply object_bytes_length.
    rewrite object_value_bytes2. do 2 f_equal.
    unfold to_i16. rewrite (to_signed_of_unsigned 16) by (try lia; apply swap_short_range).
    now apply swap_short_involutive.
Qed.

Lemma readInt_written v rest :
  is_int32 v ->
  readInt host_big_endian (object_bytes host_big_endian 4 (swap_int v) ++ rest)
  = Some (v, rest).
Proof.
  intros Hv. unfold readInt. rewrite stream_read_app by apply object_bytes_length.
  rewrite object_value_bytes4. do 2 f_equal.
  unfold to_i32. rewrite (to_signed_of_unsigned 32) by (try lia; apply swap_int_range).
  now apply swap_int_involutive.
Qed.

Lemma readLong_written v rest :
  is_int64 v ->
  readLong host_big_endian (object_bytes host_big_endian 8 (swap_long v) ++ rest)
  = Some (v, rest).
Proof.
  intros Hv. unfold readLong. rewrite stream_read_app by apply object_bytes_length.
  rewrite object_value_bytes8. do 2 f_equal.
  unfold to_i64. rewrite (to_signed_of_unsigned 64) by (try lia; apply swap_long_range).
  now apply swap_long_involutive.
Qed.

(** X2. The bits of a [float] written by [writeFloat] come back from
    [readFloat], and those of a [double] written by [writeDouble] from
    [readDouble]: every 32-bit and every 64-bit pattern, NaN payloads and
    signed zeros included. *)
Theorem float_double_write_read_roundtrip (f d : Z) (file : ofstream) (rest : ifstream)
    (Hf : 0 <= f < 2 ^ 32) (Hd : 0 <= d < 2 ^ 64) :
  (exists bs, writeFloat host_big_endian file f = file ++ bs /\
              readFloat host_big_endian (bs ++ rest) = Some (f, rest)) /\
  (exists bs, writeDouble host_big_endian file d = file ++ bs /\
              readDouble host_big_endian (bs ++ rest) = Some (d, rest)).
Proof.
  unfold readFloat, readDouble, writeFloat, writeDouble, writeInt, writeLong, stream_write.
  assert (I32 : is_int32 (to_i32 f)) by (apply to_signed_range; lia).
  assert (I64 : is_int64 (to_i64 d)) by (apply to_signed_range; lia).
  split; eexists; (split; [reflexivity|]).
  - rewrite (readInt_written _ rest I32). do 2 f_equal.
    unfold to_u32, to_i32. rewrite to_unsigned_to_signed by lia.
    unfold to_unsigned. apply Z.mod_small. exact Hf.
  - rewrite (readLong_written _ rest I64). do 2 f_equal.
    unfold to_u64, to_i64. rewrite to_unsigned_to_signed by lia.
    unfold to_unsigned. apply Z.mod_small. exact Hd.
Qed.

(** The bytes of a pattern of [n] bytes, most significant first. *)
Lemma written_bytes n x :
  object_bytes host_big_endian n (le_value (rev (le_bytes n x)))
  = if host_big_endian then le_bytes n x else rev (le_bytes n x).
Proof.
  unfold object_bytes.
  assert (E : le_bytes n (le_value (rev (le_bytes n x))) = rev (le_bytes n x)).
  { rewrite <- (le_bytes_length n x) at 1. rewrite <- length_rev.
    apply le_bytes_le_value. apply Forall_rev, le_bytes_range. }
  rewrite E. destruct host_big_endian; [apply rev_involutive | reflexivity].
Qed.

Lemma object_bytes_unsigned n x :
  object_bytes host_big_endian n (x mod 256 ^ Z.of_nat n) = object_bytes host_big_endian n x.
Proof. unfold object_bytes. now rewrite le_bytes_mod. Qed.

Lemma object_bytes_u16 x :
  object_bytes host_big_endian 2 (to_unsigned 16 x) = object_bytes host_big_endian 2 x.
Proof. exact (object_bytes_unsigned 2 x). Qed.

Lemma object_bytes_u32 x :
  object_bytes host_big_endian 4 (to_unsigned 32 x) = object_bytes host_big_endian 4 x.
Proof. exact (object_bytes_unsigned 4 x). Qed.

Lemma object_bytes_u64 x :
  object_bytes host_big_endian 8 (to_unsigned 64 x) = object_bytes host_big_endian 8 x.
Proof. exact (object_bytes_unsigned 8 x). Qed.

(** X3. What reaches the file.  On a little-endian host [writeShort],
    [writeInt] and [writeLong] emit the bytes of the value most
    significant first (the big-endian order the format asks for); the swap
    is unconditional, so on a big-endian host they emit them least
    significant first. *)
Theorem written_byte_order (v : Z) (file : ofstream) :
  let order (bs : list Z) := if host_big_endian then bs else rev bs in
  writeShort host_big_endian file v = file ++ order (le_bytes 2 v) /\
  writeInt host_big_endian file v = file ++ order (le_bytes 4 v) /\
  writeLong host_big_endian file v = file ++ order (le_bytes 8 v).
Proof.
  cbv zeta. unfold writeShort, writeInt, writeLong, stream_write.
  split; [|split]; f_equal.
  - rewrite <- object_bytes_u16, swap_short_spec. apply written_bytes.
  - rewrite <- object_bytes_u32, swap_int_spec. apply written_bytes.
  - rewrite <- object_bytes_u64, swap_long_spec. apply written_bytes.
Qed.

Lemma object_bytes_value n bs :
  Forall is_byte bs -> List.length bs = n ->
  object_bytes host_big_endian n (object_value host_big_endian bs) = bs.
Proof.
  intros Hb <-. unfold object_bytes, object_value. destruct host_big_endian.
  - rewrite <- length_rev. rewrite le_bytes_le_value by now apply Forall_rev.
    apply rev_involutive.
  - now apply le_bytes_le_value.
Qed.

Lemma stream_read_Some n file bs rest :
  stream_read n file = Some (bs, rest) ->
  file = bs ++ rest /\ List.length bs = n /\ (n <= List.length file)%nat.
Proof.
  unfold stream_read. destruct (Nat.leb_spec n (List.length file)); [|discriminate].
  intros [= <- <-]. rewrite firstn_skipn, length_firstn. repeat split; lia.
Qed.

(** X4. Reading then writing is the identity on the bytes: when
    [readShort], [readInt] or [readLong] returns a value from a stream of
    bytes, writing that value gives back the bytes it was read from, in
    front of the rest of the stream. *)
Theorem read_write_roundtrip (file : ifstream) (Hbytes : Forall is_byte file) :
  (forall v rest, readShort host_big_endian file = Some (v, rest) ->
                  writeShort host_big_endian [] v ++ rest = file) /\
  (forall v rest, readInt host_big_endian file = Some (v, rest) ->
                  writeInt host_big_endian [] v ++ rest = file) /\
  (forall v rest, readLong host_big_endian file = Some (v, rest) ->
                  writeLong host_big_endian [] v ++ rest = file).
Proof.
  unfold readShort, readInt, readLong, writeShort, writeInt, writeLong, stream_write.
  cbn [app].
  split; [|split]; intros v rest H.
  - destruct (stream_read 2 file) as [[bs r]|] eqn:E; [|discriminate].
    injection H as <- <-. apply stream_read_Some in E. destruct E as (-> & L & _).
    apply Forall_app in Hbytes. destruct Hbytes as [Hb _]. f_equal.
    rewrite swap_short_involutive by (apply to_signed_range; lia).
    rewrite <- object_bytes_u16. unfold to_i16. rewrite to_unsigned_to_signed by lia.
    rewrite object_bytes_u16. now apply object_bytes_value.
  - destruct (stream_read 4 file) as [[bs r]|] eqn:E; [|discriminate].
    injection H as <- <-. apply stream_read_Some in E. destruct E as (-> & L & _).
    apply Forall_app in Hbytes. destruct Hbytes as [Hb _]. f_equal.
    rewrite swap_int_involutive by (apply to_signed_range; lia).
    rewrite <- object_bytes_u32. unfold to_i32. rewrite to_unsigned_to_signed by lia.
    rewrite object_bytes_u32. now apply object_bytes_value.
  - destruct (stream_read 8 file) as [[bs r]|] eqn:E; [|discriminate].
    injection H as <- <-. apply stream_read_Some in E. destruct E as (-> & L & _).
    apply Forall_app in Hbytes. destruct Hbytes as [Hb _]. f_equal.
    rewrite swap_long_involutive by (apply to_signed_range; lia).
    rewrite <- object_bytes_u64. unfold to_i64. rewrite to_unsigned_to_signed by lia.
    rewrite object_bytes_u64. now apply object_bytes_value.
Qed.

(** ** Strings on a stream *)

Lemma string_of_bytes_of_string s : string_of_bytes (bytes_of_string s) = s.
Proof.
  induction s as [|c s IH]; cbn [bytes_of_string string_of_bytes]; auto.
  unfold char_of_byte, byte_of_char. now rewrite Nat2Z.id, ascii_nat_embedding, IH.
Qed.

Lemma length_bytes_of_string s : List.length (bytes_of_string s) = String.length s.
Proof. induction s; cbn; auto. Qed.

Lemma readShort_written v rest :
  is_int16 v ->
  readShort host_big_endian (object_bytes host_big_endian 2 (swap_short v) ++ rest)
  = Some (v, rest).
Proof.
  intros Hv. unfold readShort. rewrite stream_read_app by apply object_bytes_length.
  rewrite object_value_bytes2. do 2 f_equal.
  unfold to_i16. rewrite (to_signed_of_unsigned 16) by (try lia; apply swap_short_range).
  now apply swap_short_involutive.
Qed.

Lemma readString_written s rest :
  readString host_big_endian (writeString host_big_endian [] s ++ rest)
  = let length := to_i16 (Z.of_nat (String.length s)) in
    if length <? 0 then StringLengthError
    else
      let n := Z.to_nat length in
      let got := firstn n (bytes_of_string s ++ rest) in
      StringRead (string_of_bytes (got ++ repeat 0 (n - List.length got)))
                 (skipn n (bytes_of_string s ++ rest)).
Proof.
  unfold readString, writeString, writeShort, stream_write. cbn [app].
  rewrite <- app_assoc.
  rewrite readShort_written by (apply to_signed_range; lia). reflexivity.
Qed.

(** X6. A string shorter than 32768 characters written by [writeString]
    comes back from [readString] as it was, with the rest of the stream
    after it. *)
Theorem string_write_read_roundtrip (s : string) (file : ofstream) (rest : ifstream)
    (Hlen : Z.of_nat (String.length s) < 32768) :
  exists bs, writeString host_big_endian file s = file ++ bs /\
             readString host_big_endian (bs ++ rest) = StringRead s rest.
Proof.
  exists (writeString host_big_endian [] s). split.
  - unfold writeString, writeShort, stream_write. cbn [app]. now rewrite app_assoc.
  - rewrite readString_written. cbv zeta.
    assert (E : to_i16 (Z.of_nat (String.length s)) = Z.of_nat (String.length s)).
    { apply to_signed_id; [lia|]. unfold in_signed. change (2 ^ (16 - 1)) with 32768. lia. }
    rewrite E. destruct (Z.ltb_spec (Z.of_nat (String.length s)) 0); [lia|].
    rewrite Nat2Z.id, <- length_bytes_of_string.
    rewrite firstn_app, skipn_app, Nat.sub_diag, firstn_all, skipn_all.
    cbn [firstn skipn app repeat]. rewrite !app_nil_r, Nat.sub_diag. cbn [repeat].
    now rewrite app_nil_r, string_of_bytes_of_string.
Qed.

(** X7. A string of 32768 to 65535 characters does not survive: the length
    [writeString] stores, narrowed to [int16_t], is negative, and
    [readString] ends with [std::length_error] instead of the string. *)
Theorem string_too_long_is_not_read_back (s : string) (file : ofstream) (rest : ifstream)
    (Hlen : 32768 <= Z.of_nat (String.length s) < 65536) :
  exists bs, writeString host_big_endian file s = file ++ bs /\
             readString host_big_endian (bs ++ rest) = StringLengthError.
Proof.
  exists (writeString host_big_endian [] s). split.
  - unfold writeString, writeShort, stream_write. cbn [app]. now rewrite app_assoc.
  - rewrite readString_written. cbv zeta.
    assert (E : to_i16 (Z.of_nat (String.length s)) = Z.of_nat (String.length s) - 65536).
    { apply to_signed_eq; [lia| |].
      - unfold in_signed. change (2 ^ (16 - 1)) with 32768. lia.
      - unfold to_unsigned. change (2 ^ 16) with (1 * 65536).
        rewrite <- (Z_mod_plus_full (Z.of_nat (String.length s) - 65536) 1 (1 * 65536)).
        f_equal. lia. }
    rewrite E. destruct (Z.ltb_spec (Z.of_nat (String.length s) - 65536) 0); [reflexivity|lia].
Qed.

End MoreStreamFacts.

(** ** The cursor and the window of [drawEditor] *)

Lemma In_rows lo hi i : In i (rows lo hi) <-> lo <= i < hi.
Proof.
  unfold rows. rewrite in_map_iff. split.
  - intros (k & <- & Hk). apply in_seq in Hk. lia.
  - intros H. exists (Z.to_nat (i - lo)). split; [lia|]. apply in_seq. lia.
Qed.

Lemma draw_row_other ed i : i <> currentRow ed -> draw_row ed i = ed.
Proof. intros H. unfold draw_row. now destruct (Z.eqb_spec i (currentRow ed)). Qed.

Lemma draw_loop_keeps l : forall ed, ~ In (currentRow ed) l -> fold_left draw_row l ed = ed.
Proof.
  induction l as [|i l IH]; intros ed H; cbn [fold_left]; [reflexivity|].
  rewrite draw_row_other by (intros ->; apply H; now left).
  apply IH. intros C. apply H. now right.
Qed.

Lemma draw_loop_selects l :
  forall ed p,
    In (currentRow ed) l ->
    nth_error (flatTagList ed) (Z.to_nat (currentRow ed)) = Some p ->
    fold_left draw_row l ed = set_selectedTag (Some p) ed.
Proof.
  induction l as [|i l IH]; intros ed p Hin N; [destruct Hin|]. cbn [fold_left].
  destruct (Z.eq_dec i (currentRow ed)) as [->|Hne].
  - assert (E : draw_row ed (currentRow ed) = set_selectedTag (Some p) ed)
      by (unfold draw_row; now rewrite Z.eqb_refl, N).
    rewrite E. destruct (in_dec Z.eq_dec (currentRow ed) l) as [Hl|Hl].
    + now rewrite (IH (set_selectedTag (Some p) ed) p Hl N).
    + now apply draw_loop_keeps.
  - rewrite (draw_row_other ed i Hne). apply IH; [|exact N].
    destruct Hin as [Hin|Hin]; [congruence|exact Hin].
Qed.

(** Where [drawEditor] leaves the window. *)
Lemma drawEditor_scrollOffset y ed :
  scrollOffset (drawEditor y ed) =
  if currentRow ed <? scrollOffset ed then currentRow ed
  else if currentRow ed >=? scrollOffset ed + (y - 2) then currentRow ed - (y - 2) + 1
       else scrollOffset ed.
Proof.
  unfold drawEditor.
  match goal with
  | |- context [fold_left draw_row ?l ?e] =>
      destruct (draw_loop_fields l e) as (_ & _ & H3 & _)
  end.
  rewrite H3. cbn.
  destruct (currentRow ed <? scrollOffset ed); [reflexivity|].
  destruct (currentRow ed >=? scrollOffset ed + (y - 2)); reflexivity.
Qed.

Lemma cursor_is_a_row ed p :
  0 <= currentRow ed ->
  nth_error (flatTagList ed) (Z.to_nat (currentRow ed)) = Some p ->
  currentRow ed < Z.of_nat (List.length (flatTagList ed)).
Proof.
  intros H0 N.
  assert (Z.to_nat (currentRow ed) < List.length (flatTagList ed))%nat
    by (apply nth_error_Some; congruence).
  lia.
Qed.

Lemma drawEditor_in_window y ed p :
  0 <= currentRow ed -> currentRow ed < scrollOffset ed + (y - 2) ->
  nth_error (flatTagList ed) (Z.to_nat (currentRow ed)) = Some p ->
  selectedTag (drawEditor y ed) = Some p.
Proof.
  intros H0 Hw N. pose proof (cursor_is_a_row ed p H0 N) as Hlen.
  unfold drawEditor. cbv zeta.
  cbn [set_maxVisibleRows maxVisibleRows scrollOffset currentRow flatTagList].
  destruct (Z.ltb_spec (currentRow ed) (scrollOffset ed)) as [L|L].
  - rewrite (draw_loop_selects _ _ p); [reflexivity| |exact N].
    apply In_rows. cbn. lia.
  - destruct (Z.geb_spec (currentRow ed) (scrollOffset ed + (y - 2))) as [G|G]; [lia|].
    rewrite (draw_loop_selects _ _ p); [reflexivity| |exact N].
    apply In_rows. cbn. lia.
Qed.

(** X8.  [drawEditor] makes the row under the cursor the selection whenever
    that row lies above the lower edge of the window, [scrollOffset +
    (maxY - 2)]: also when the cursor is above the window, which is then
    moved up to it. *)
Theorem drawEditor_selects_cursor_row (y : Z) (ed : NBTEditor) (p : tag_ptr)
    (Hrow : 0 <= currentRow ed)
    (Hwindow : currentRow ed < scrollOffset ed + (y - 2))
    (Hp : nth_error (flatTagList ed) (Z.to_nat (currentRow ed)) = Some p) :
  selectedTag (drawEditor y ed) = Some p /\
  scrollOffset (drawEditor y ed) = Z.min (currentRow ed) (scrollOffset ed).
Proof.
  split; [now apply drawEditor_in_window|].
  rewrite drawEditor_scrollOffset.
  destruct (Z.ltb_spec (currentRow ed) (scrollOffset ed)); [lia|].
  destruct (Z.geb_spec (currentRow ed) (scrollOffset ed + (y - 2))); lia.
Qed.

(** X9.  When the cursor has moved below the window, [drawEditor] scrolls
    the window down to it but its loop, whose upper bound was computed
    before the scroll, does not reach the row of the cursor: the selection
    is left as it was. *)
Theorem drawEditor_below_window_keeps_selection (y : Z) (ed : NBTEditor)
    (Hscroll : scrollOffset ed <= currentRow ed)
    (Hbelow : scrollOffset ed + (y - 2) <= currentRow ed) :
  selectedTag (drawEditor y ed) = selectedTag ed /\
  scrollOffset (drawEditor y ed) = currentRow ed - (y - 2) + 1.
Proof.
  split.
  - unfold drawEditor. cbv zeta.
    cbn [set_maxVisibleRows maxVisibleRows scrollOffset currentRow flatTagList].
    destruct (Z.ltb_spec (currentRow ed) (scrollOffset ed)) as [L|L]; [lia|].
    destruct (Z.geb_spec (currentRow ed) (scrollOffset ed + (y - 2))) as [G|G]; [|lia].
    rewrite draw_loop_keeps; [reflexivity|].
    rewrite In_rows. cbn. lia.
  - rewrite drawEditor_scrollOffset.
    destruct (Z.ltb_spec (currentRow ed) (scrollOffset ed)); [lia|].
    destruct (Z.geb_spec (currentRow ed) (scrollOffset ed + (y - 2))); lia.
Qed.

(** X10.  In a window of at least one row, drawing twice always selects the
    row under the cursor, wherever the window was. *)
Theorem drawEditor_twice_selects_cursor_row (y : Z) (ed : NBTEditor) (p : tag_ptr)
    (Hrows : 3 <= y)
    (Hrow : 0 <= currentRow ed)
    (Hp : nth_error (flatTagList ed) (Z.to_nat (currentRow ed)) = Some p) :
  selectedTag (drawEditor y (drawEditor y ed)) = Some p.
Proof.
  destruct (drawEditor_fields y ed) as (_ & Hc & Hf & _).
  apply drawEditor_in_window; rewrite ?Hc, ?Hf; auto.
  rewrite drawEditor_scrollOffset.
  destruct (Z.ltb_spec (currentRow ed) (scrollOffset ed)); [lia|].
  destruct (Z.geb_spec (currentRow ed) (scrollOffset ed + (y - 2))); lia.
Qed.

Section MoreEditorFacts.

Context {float_text : FloatText}.

(** ** The arrow keys *)






(** ** Edits that do nothing, edits that erase *)

Lemma target_root ed sel tag :
  target sel ed = Some tag ->
  exists root, getRoot (nbtFile ed) = Some root /\ deref sel root = Some tag.
Proof.
  unfold target. destruct (getRoot (nbtFile ed)) as [root|]; [|discriminate].
  intros H. now exists root.
Qed.

Lemma target_written ed sel f tag :
  target sel ed = Some tag -> target sel (write_root sel f ed) = Some (f tag).
Proof.
  intros H. destruct (target_root _ _ _ H) as (root & Hroot & D).
  unfold target, write_root. rewrite Hroot. cbn. now apply deref_write_same.
Qed.

(** X12.  Confirming an empty line erases a string and sets [modified]; on
    a tag of an integer kind the conversion of the empty text fails, and
    neither the tree nor [modified] changes. *)
Theorem editValue_empty_line (ed : NBTEditor) (sel : tag_ptr) (tag : NBTTag)
    (Hsel : selectedTag ed = Some sel)
    (Htag : target sel ed = Some tag) :
  let ed' := snd (editValue OK EmptyString ed) in
  (type tag = STRING ->
   target sel ed' = Some (on_value (set_stringVal EmptyString) tag) /\ modified ed' = true) /\
  (integer_kind (type tag) = true ->
   nbtFile ed' = nbtFile ed /\ modified ed' = modified ed).
Proof.
  cbv zeta. split.
  - intros Ty.
    rewrite (editValue_commit ed sel tag EmptyString (on_value (set_stringVal EmptyString) tag)
               Hsel Htag);
      [ | now rewrite Ty | unfold setValueFromString; now rewrite Ty ].
    cbn [snd]. split; [|reflexivity].
    change (target sel (write_root sel (fun _ => on_value (set_stringVal EmptyString) tag)
                          (set_editBuffer (edit_seed tag) ed))
            = Some ((fun _ => on_value (set_stringVal EmptyString) tag) tag)).
    now apply target_written.
  - intros Ty.
    assert (E : exists e, setValueFromString (c_string (substring 0 255 EmptyString)) tag = inl e).
    { unfold setValueFromString. destruct (type tag); try discriminate;
        exists invalid_argument; reflexivity. }
    destruct E as (e & E).
    rewrite (editValue_throw ed sel tag EmptyString e Hsel Htag); [now split| |exact E].
    destruct (type tag); try discriminate; reflexivity.
Qed.

(** ** The shape of the tree *)

Lemma nth_error_list_alter_other {A} (f : A -> A) i j l :
  i <> j -> nth_error (list_alter f i l) j = nth_error l j.
Proof.
  revert i j. induction l as [|x l IH]; intros [|i] [|j] H; cbn; auto; try congruence.
Qed.

Lemma deref_write_leaf f p :
  forall root tag q,
    deref p root = Some tag ->
    type (f tag) = type tag ->
    listVal (value (f tag)) = listVal (value tag) ->
    compoundVal (value (f tag)) = compoundVal (value tag) ->
    option_map type (deref q (write p f root)) = option_map type (deref q root).
Proof.
  induction p as [|[k|i] p IH]; intros root tag q; cbn [deref write].
  - intros [= ->] Ht Hl Hm. destruct q as [|[k|i] q]; cbn [deref option_map].
    + now rewrite Ht.
    + now rewrite Hm.
    + now rewrite Hl.
  - destruct (StdMap.find k (compoundVal (value root))) as [child|] eqn:E; [|discriminate].
    intros D Ht Hl Hm. destruct q as [|[k'|i'] q]; cbn; auto.
    destruct (String.eqb_spec k' k) as [->|Hne].
    + rewrite (StdMapFacts.find_alter_same _ _ _ _ E), E. now apply (IH child tag q).
    + now rewrite StdMapFacts.find_alter_other.
  - destruct (nth_error (listVal (value root)) i) as [child|] eqn:E; [|discriminate].
    intros D Ht Hl Hm. destruct q as [|[k'|i'] q]; cbn; auto.
    destruct (Nat.eq_dec i' i) as [->|Hne].
    + rewrite (nth_error_list_alter_same _ _ _ _ E), E. now apply (IH child tag q).
    + now rewrite nth_error_list_alter_other by congruence.
Qed.

Lemma same_shape_refl root : same_shape root root.
Proof. now split. Qed.

Lemma write_same_shape f sel root :
  (forall tag, deref sel root = Some tag ->
               type (f tag) = type tag /\
               listVal (value (f tag)) = listVal (value tag) /\
               compoundVal (value (f tag)) = compoundVal (value tag)) ->
  same_shape (write sel f root) root.
Proof.
  intros H. destruct (deref sel root) as [tag|] eqn:D.
  - destruct (H tag eq_refl) as (Ht & Hl & Hm). split.
    + now apply (project_write_leaf f sel root tag []).
    + intros q. now apply (deref_write_leaf f sel root tag q).
  - rewrite write_absent by exact D. apply same_shape_refl.
Qed.

Lemma editValue_shape result line ed root :
  getRoot (nbtFile ed) = Some root ->
  exists root',
    getRoot (nbtFile (snd (editValue result line ed))) = Some root' /\
    same_shape root' root /\
    flatTagList (snd (editValue result line ed)) = flatTagList ed.
Proof.
  intros Hroot. unfold editValue.
  destruct (selectedTag ed) as [sel|]; [|exists root; auto using same_shape_refl].
  unfold target. rewrite Hroot.
  destruct (deref sel root) as [tag|] eqn:D; [|exists root; auto using same_shape_refl].
  destruct (negb (editable (type tag))); [exists root; auto using same_shape_refl|].
  cbv zeta. destruct (result =? OK); [|exists root; auto using same_shape_refl].
  cbn [set_editBuffer nbtFile].
  destruct (setValueFromString _ tag) as [e|tag'] eqn:E;
    [exists root; auto using same_shape_refl|].
  destruct (setValueFromString_keeps _ _ _ E) as (Ht & _ & Hl & Hm).
  exists (write sel (fun _ => tag') root). split; [|split].
  - unfold write_root. cbn. now rewrite Hroot.
  - apply write_same_shape. intros tag0 D0. rewrite D in D0. injection D0 as <-. auto.
  - reflexivity.
Qed.

Lemma deleteTag_shape ed root :
  getRoot (nbtFile ed) = Some root ->
  exists root',
    getRoot (nbtFile (snd (deleteTag ed))) = Some root' /\
    same_shape root' root /\
    flatTagList (snd (deleteTag ed)) = flatTagList ed.
Proof.
  intros Hroot. unfold deleteTag.
  destruct (selectedTag ed) as [sel|]; [|exists root; auto using same_shape_refl].
  destruct (negb (ptr_eqb sel [])); [|exists root; auto using same_shape_refl].
  exists (write sel (fun tag => set_name ("[DELETED] " ++ name tag) tag) root).
  split; [|split].
  - unfold write_root. cbn. now rewrite Hroot.
  - apply write_same_shape. intros tag _. auto.
  - reflexivity.
Qed.

(** X14.  No key but [a] changes the shape of the tree: after any other
    key the same pointers designate tags of the same kinds, and the
    flattened view, which only [addTag] refreshes, is still current. *)
Theorem only_addTag_changes_shape (ev : event) (ed : NBTEditor) (root : NBTTag)
    (Hroot : getRoot (nbtFile ed) = Some root)
    (Hkey : ch ev <> key "a" /\ ch ev <> key "A") :
  exists root',
    getRoot (nbtFile (snd (handleInput ev ed))) = Some root' /\
    same_shape root' root /\
    flatTagList (snd (handleInput ev ed)) = flatTagList ed.
Proof.
  destruct Hkey as [Ha HA]. unfold handleInput. cbv zeta.
  destruct (ch ev =? KEY_UP).
  { exists root. cbn [snd]. destruct (_ >? _); auto using same_shape_refl. }
  destruct (ch ev =? KEY_DOWN).
  { exists root. cbn [snd]. destruct (_ <? _); auto using same_shape_refl. }
  destruct ((ch ev =? key "e") || (ch ev =? key "E")); [now apply editValue_shape|].
  destruct (Z.eqb_spec (ch ev) (key "a")) as [E|_]; [contradiction|].
  destruct (Z.eqb_spec (ch ev) (key "A")) as [E|_]; [contradiction|].
  cbn [orb].
  destruct ((ch ev =? key "d") || (ch ev =? key "D")); [now apply deleteTag_shape|].
  destruct ((ch ev =? key "s") || (ch ev =? key "S")); cbn [snd].
  - exists root. unfold saveChanges. destruct (fst (save (nbtFile ed)));
      auto using same_shape_refl.
  - exists root. auto using same_shape_refl.
Qed.

(** ** [modified] *)

Lemma editValue_modified result line ed :
  modified ed = true -> modified (snd (editValue result line ed)) = true.
Proof.
  intros H. unfold editValue. destruct (selectedTag ed); [|exact H].
  destruct (target _ _); [|exact H]. destruct (negb _); [exact H|].
  cbv zeta. destruct (result =? OK); [|exact H].
  destruct (setValueFromString _ _); [exact H|reflexivity].
Qed.

(** X15.  [modified] is cleared by [s] whatever was done before, and by
    no other key handled by [handleInput]: once set it stays set. *)
Theorem modified_cleared_only_by_save (ev : event) (ed : NBTEditor) :
  (ch ev = key "s" \/ ch ev = key "S" -> modified (snd (handleInput ev ed)) = false) /\
  (ch ev <> key "s" -> ch ev <> key "S" -> modified ed = true ->
   modified (snd (handleInput ev ed)) = true).
Proof.
  split.
  - intros [E|E]; unfold handleInput; rewrite E; reflexivity.
  - intros Hs HS Hm. unfold handleInput. cbv zeta.
    destruct (ch ev =? KEY_UP). { cbn [snd]. now destruct (_ >? _). }
    destruct (ch ev =? KEY_DOWN). { cbn [snd]. now destruct (_ <? _). }
    destruct (_ || _); [now apply editValue_modified|].
    destruct (_ || _).
    { unfold addTag. destruct (selectedTag ed); [|exact Hm].
      destruct (target _ _); [|exact Hm]. now destruct (TagType_eqb _ _). }
    destruct (_ || _).
    { unfold deleteTag. destruct (selectedTag ed); [|exact Hm]. now destruct (negb _). }
    destruct (Z.eqb_spec (ch ev) (key "s")) as [E|_]; [contradiction|].
    destruct (Z.eqb_spec (ch ev) (key "S")) as [E|_]; [contradiction|].
    exact Hm.
Qed.

(** ** [addTag] *)

Lemma find_assign_other {V} k k' (v : V) m :
  k' <> k -> StdMap.find k' (StdMap.assign k v m) = StdMap.find k' m.
Proof.
  intros Hne. induction m as [|[k0 v0] m IH]; cbn [StdMap.assign StdMap.find].
  - now destruct (String.eqb_spec k' k).
  - destruct (String.compare k k0) eqn:C; cbn [StdMap.find].
    + apply String.compare_eq_iff in C. subst k0. now destruct (String.eqb_spec k' k).
    + now destruct (String.eqb_spec k' k).
    + destruct (String.eqb k' k0); [reflexivity|exact IH].
Qed.

Lemma size_assign_absent {V} k (v : V) m :
  StdMap.find k m = None -> StdMap.size (StdMap.assign k v m) = S (StdMap.size m).
Proof.
  unfold StdMap.size. induction m as [|[k0 v0] m IH]; cbn [StdMap.assign StdMap.find];
    [reflexivity|].
  destruct (String.eqb_spec k k0) as [->|Hne]; [discriminate|]. intros H.
  destruct (String.compare k k0) eqn:C; cbn [List.length].
  - apply String.compare_eq_iff in C. contradiction.
  - reflexivity.
  - now rewrite IH.
Qed.

Lemma assign_assign {V} k (v v' : V) m :
  StdMap.assign k v (StdMap.assign k v' m) = StdMap.assign k v m.
Proof.
  induction m as [|[k0 v0] m IH]; cbn [StdMap.assign].
  - now rewrite StdMapFacts.compare_refl.
  - destruct (String.compare k k0) eqn:C; cbn [StdMap.assign];
      rewrite ?StdMapFacts.compare_refl, ?C; [reflexivity..|now rewrite IH].
Qed.

Lemma alter_alter {V} (g h : V -> V) k (m : StdMap.t V) :
  StdMap.alter g k (StdMap.alter h k m) = StdMap.alter (fun v => g (h v)) k m.
Proof.
  induction m as [|[k0 v0] m IH]; cbn [StdMap.alter]; [reflexivity|].
  destruct (String.eqb k k0) eqn:E; cbn [StdMap.alter]; rewrite E; [reflexivity|].
  now rewrite IH.
Qed.

Lemma list_alter_alter {A} (g h : A -> A) i (l : list A) :
  list_alter g i (list_alter h i l) = list_alter (fun v => g (h v)) i l.
Proof.
  revert i. induction l as [|x l IH]; intros [|i]; cbn [list_alter]; auto.
  now rewrite IH.
Qed.

Lemma write_ext g h p :
  (forall tag, g tag = h tag) -> forall root, write p g root = write p h root.
Proof.
  intros E. induction p as [|[k|i] p IH]; intros root; cbn [write]; auto.
  - unfold on_value. now rewrite (alter_ext _ _ k _ IH).
  - unfold on_value. now rewrite (list_alter_ext _ _ i _ IH).
Qed.

Lemma write_write g h p :
  forall root, write p g (write p h root) = write p (fun tag => g (h tag)) root.
Proof.
  induction p as [|[k|i] p IH]; intros root; cbn [write]; auto.
  - unfold on_value, set_value, set_compoundVal. cbn.
    now rewrite alter_alter, (alter_ext _ _ k _ IH).
  - unfold on_value, set_value, set_listVal. cbn.
    now rewrite list_alter_alter, (list_alter_ext _ _ i _ IH).
Qed.

Lemma compound_assign_twice k child tag :
  compound_assign k child (compound_assign k child tag) = compound_assign k child tag.
Proof.
  unfold compound_assign, on_value, set_value, set_compoundVal. cbn.
  now rewrite assign_assign.
Qed.

(** X16.  On a compound that has no member ["new_tag"], [addTag] creates
    one: the compound has one entry more, the new entry is the string
    ["value"], every other key holds what it held, the view is refreshed
    from the new tree and [modified] is set. *)
Theorem addTag_creates_member (ed : NBTEditor) (sel : tag_ptr) (tag : NBTTag)
    (Hsel : selectedTag ed = Some sel)
    (Htag : target sel ed = Some tag)
    (Hkind : type tag = COMPOUND)
    (Hfresh : StdMap.find "new_tag" (compoundVal (value tag)) = None) :
  let ed' := snd (addTag ed) in
  exists tag' root',
    target sel ed' = Some tag' /\
    getRoot (nbtFile ed') = Some root' /\
    flatTagList ed' = view root' /\
    modified ed' = true /\
    type tag' = COMPOUND /\
    name tag' = name tag /\
    StdMap.size (compoundVal (value tag')) = S (StdMap.size (compoundVal (value tag))) /\
    StdMap.find "new_tag" (compoundVal (value tag'))
    = Some (on_value (set_stringVal "value") (new_NBTTag STRING "new_tag")) /\
    forall k, k <> "new_tag"%string ->
              StdMap.find k (compoundVal (value tag'))
              = StdMap.find k (compoundVal (value tag)).
Proof.
  cbv zeta. destruct (target_root _ _ _ Htag) as (root & Hroot & D).
  unfold addTag. rewrite Hsel, Htag, Hkind.
  change (TagType_eqb COMPOUND COMPOUND) with true. cbv iota. cbn [snd].
  set (newTag := on_value (set_stringVal "value") (new_NBTTag STRING "new_tag")).
  set (f := compound_assign "new_tag" newTag).
  destruct (refresh_write_root ed sel f root Hroot) as (R1 & R2 & _).
  exists (f tag), (write sel f root). unfold target. cbn [set_modified nbtFile flatTagList modified].
  rewrite R1, R2, view_project.
  split; [now apply deref_write_same|].
  repeat (split; [reflexivity|]).
  split; [exact Hkind|]. split; [reflexivity|].
  cbn [f compound_assign on_value set_value value set_compoundVal compoundVal].
  split; [now apply size_assign_absent|].
  split; [apply StdMapFacts.find_assign_same|].
  intros k Hk. now apply find_assign_other.
Qed.

(** X17.  [addTag] is idempotent: pressing [a] a second time changes
    nothing, whatever the editor held. *)
Theorem addTag_twice_is_addTag_once (ed : NBTEditor) :
  snd (addTag (snd (addTag ed))) = snd (addTag ed).
Proof.
  unfold addTag at 2 3.
  destruct (selectedTag ed) as [sel|] eqn:Hsel;
    [|cbn [snd]; unfold addTag; now rewrite Hsel].
  destruct (target sel ed) as [tag|] eqn:Htag;
    [|cbn [snd]; unfold addTag; now rewrite Hsel, Htag].
  destruct (TagType_eqb (type tag) COMPOUND) eqn:Ty;
    [|cbn [snd]; unfold addTag; now rewrite Hsel, Htag, Ty].
  cbn [snd].
  set (f := compound_assign "new_tag"
              (on_value (set_stringVal "value") (new_NBTTag STRING "new_tag"))).
  destruct (target_root _ _ _ Htag) as (root & Hroot & D).
  pose proof (deref_write_same f sel root tag D) as D'.
  unfold addTag, target, refreshTagList, write_root. rewrite Hroot.
  cbn [set_modified set_flatTagList set_nbtFile nbtFile getRoot setRoot rootTag option_map
       selectedTag flatTagList currentRow scrollOffset maxVisibleRows editing editBuffer
       modified filename compressed].
  rewrite Hsel, D'. cbn [f compound_assign on_value set_value type].
  rewrite Ty. cbn [snd]. fold f.
  change (on_value (fun v => set_compoundVal
            (StdMap.assign "new_tag"
               (on_value (set_stringVal "value") (new_NBTTag STRING "new_tag"))
               (compoundVal v)) v)) with f.
  rewrite (write_write f f sel root), (write_ext _ f sel (compound_assign_twice _ _)).
  reflexivity.
Qed.

(** ** Saving and leaving *)

(** X18.  After [s] the editor leaves on [q] without asking: the turn of
    [s] keeps the loop running and clears [modified], the tree is the one
    held before, and the turn of [q] stops the loop whatever key would
    answer the prompt. *)
Theorem save_then_quit_without_prompt (ev_s ev_q : event) (ed : NBTEditor)
    (Hs : ch ev_s = key "s" \/ ch ev_s = key "S")
    (Hq : ch ev_q = key "q" \/ ch ev_q = key "Q") :
  let saved := fst (run_turn ev_s ed) in
  snd (run_turn ev_s ed) = true /\
  modified saved = false /\
  nbtFile saved = nbtFile ed /\
  flatTagList saved = flatTagList ed /\
  run_turn ev_q saved = (drawEditor (maxY ev_q) saved, false).
Proof.
  cbv zeta.
  assert (E : run_turn ev_s ed = (set_modified false (drawEditor (maxY ev_s) ed), true)).
  { unfold run_turn, handleInput. destruct Hs as [-> | ->]; reflexivity. }
  rewrite E. cbn [fst snd set_modified modified nbtFile flatTagList].
  destruct (drawEditor_fields (maxY ev_s) ed) as (H1 & _ & H3 & _).
  repeat (split; [auto|]).
  unfold run_turn.
  destruct (drawEditor_fields (maxY ev_q) (set_modified false (drawEditor (maxY ev_s) ed)))
    as (_ & _ & _ & H4 & _).
  rewrite H4. cbn [set_modified modified negb orb].
  destruct Hq as [-> | ->]; reflexivity.
Qed.

(** ** [deleteTag], again and again *)

(** X19.  [deleteTag] is not idempotent: each [d] on the same member puts
    one more mark in front of its name, and nothing else of the tag
    changes. *)
Theorem deleteTag_marks_accumulate (ed : NBTEditor) (sel : tag_ptr) (tag : NBTTag) (n : nat)
    (Hsel : selectedTag ed = Some sel)
    (Hmember : sel <> [])
    (Htag : target sel ed = Some tag) :
  let ed' := Nat.iter n (fun ed => snd (deleteTag ed)) ed in
  selectedTag ed' = Some sel /\
  target sel ed' = Some (set_name (deleted_n n (name tag)) tag).
Proof.
  cbv zeta. induction n as [|n [IHs IHt]].
  - cbn [Nat.iter nat_rect deleted_n]. split; [exact Hsel|].
    rewrite Htag. now destruct tag.
  - rewrite Nat.iter_succ. unfold deleteTag at 1 3. rewrite IHs.
    assert (N : ptr_eqb sel [] = false) by (destruct sel; [contradiction|reflexivity]).
    rewrite N. cbn [negb snd]. split; [exact IHs|].
    change (target sel (set_modified true ?e)) with (target sel e).
    rewrite (target_written _ sel _ _ IHt). reflexivity.
Qed.

End MoreEditorFacts.

(** ** [tagTypeToString] *)

(** X20.  [tagTypeToString] gives different kinds different names, and
    to no kind the text it keeps for an unknown one. *)
Theorem tagTypeToString_distinguishes (a b : TagType) :
  String.eqb (tagTypeToString a) (tagTypeToString b) = TagType_eqb a b /\
  String.eqb (tagTypeToString a) "UNKNOWN" = false.
Proof. split; [destruct a, b; reflexivity | destruct a; reflexivity]. Qed.

(** ** Every tag once *)

Lemma project_below tag self p :
  In p (project tag self) -> exists q, p = self ++ q.
Proof.
  rewrite <- (app_nil_r self) at 1. rewrite project_shift, in_map_iff.
  intros (q & <- & _). now exists q.
Qed.

Lemma ptr_not_below (self : tag_ptr) s q : self <> self ++ s :: q.
Proof.
  intros E. apply (f_equal (@List.length step)) in E.
  rewrite length_app in E. cbn in E. lia.
Qed.

Lemma ptr_step_inj (self : tag_ptr) s s' q q' :
  (self ++ [s]) ++ q = (self ++ [s']) ++ q' -> s = s'.
Proof.
  rewrite <- !app_assoc. intros E. apply app_inv_head in E. now injection E.
Qed.

Lemma project_members_NoDup self (m : StdMap.t NBTTag) :
  StdMap.ordered m ->
  Forall (fun kv => forall self, NoDup (project (snd kv) self)) m ->
  NoDup (project_members self m).
Proof.
  unfold StdMap.ordered. induction m as [|[k c] m IH]; cbn [project_members StdMap.keys map fst];
    intros Ho Hc; [constructor|].
  inversion Ho as [|? ? Ho' Hk]; subst. inversion Hc as [|? ? Hc1 Hc2]; subst.
  apply NoDup_app; [apply Hc1 | now apply IH | ].
  intros p Hp Hm.
  apply project_below in Hp. destruct Hp as (q & ->).
  apply project_members_In in Hm. destruct Hm as (k' & c' & Hin & Hp').
  apply project_below in Hp'. destruct Hp' as (q' & E).
  apply ptr_step_inj in E. injection E as <-.
  rewrite Forall_forall in Hk.
  apply (StdMapFacts.key_lt_irrefl k). apply Hk.
  change k with (fst (k, c')). now apply in_map.
Qed.

Lemma project_items_NoDup self (l : list NBTTag) :
  Forall (fun x => forall self, NoDup (project x self)) l ->
  forall i, NoDup (project_items self l i).
Proof.
  induction 1 as [|x l Hx _ IH]; intros i; cbn [project_items]; [constructor|].
  apply NoDup_app; [apply Hx | apply IH | ].
  intros p Hp Hl.
  apply project_below in Hp. destruct Hp as (q & ->).
  apply project_items_In in Hl. destruct Hl as (j & y & _ & Hp').
  apply project_below in Hp'. destruct Hp' as (q' & E).
  apply ptr_step_inj in E. injection E as E. lia.
Qed.

Lemma project_NoDup tag :
  tags_all members_ordered tag -> forall self, NoDup (project tag self).
Proof.
  induction tag as [ty nm v IHl IHm] using NBTTag_nested_ind. intros Hall self.
  inversion Hall as [? Ho Hl Hm]; subst. cbn [value] in *.
  rewrite project_unfold. cbn [type value].
  assert (Nm : NoDup (project_members self (compoundVal v))).
  { apply project_members_NoDup; [exact Ho|].
    rewrite Forall_forall in *. intros kv Hin self'. apply (IHm kv Hin). now apply Hm. }
  assert (Nl : NoDup (project_items self (listVal v) 0)).
  { apply project_items_NoDup.
    rewrite Forall_forall in *. intros x Hin self'. apply (IHl x Hin). now apply Hl. }
  constructor.
  - destruct ty; cbn [In]; try tauto.
    + intros Hin. apply project_items_In in Hin. destruct Hin as (j & y & _ & Hp).
      apply project_below in Hp. destruct Hp as (q & E).
      rewrite <- app_assoc in E. now apply ptr_not_below in E.
    + intros Hin. apply project_members_In in Hin. destruct Hin as (k & c & _ & Hp).
      apply project_below in Hp. destruct Hp as (q & E).
      rewrite <- app_assoc in E. now apply ptr_not_below in E.
  - destruct ty; auto; constructor.
Qed.

Section ViewFacts.

Context {float_text : FloatText}.

(** X21.  Each time the loop of [run] comes round, the flattened view is
    the view of the tree as it is now, although only [addTag] refreshes
    it; no tag appears in it twice, and every row designates a tag of
    the tree. *)
Theorem running_view_is_current (ed : NBTEditor) (Hrun : running ed) :
  exists root,
    getRoot (nbtFile ed) = Some root /\
    flatTagList ed = view root /\
    NoDup (flatTagList ed) /\
    forall p, In p (flatTagList ed) -> exists tag, target p ed = Some tag.
Proof.
  destruct (inv_root _ (running_inv ed Hrun)) as (root & Hroot & Hflat & (Hord & _)).
  exists root. rewrite view_project, Hflat. unfold target. rewrite Hroot.
  split; [reflexivity|]. split; [reflexivity|]. split; [now apply project_NoDup|].
  intros p Hp. destruct (project_deref root [] p Hord Hp) as (q & t & -> & D).
  now exists t.
Qed.

End ViewFacts.

(** ** Numbers as text, and back *)

Ltac digit_step :=
  cbn [NilEmpty.string_of_uint read_digits Pos.of_uint_acc Pos.of_uint];
  match goal with
  | |- context [digit_value ?c] =>
      let v := eval vm_compute in (digit_value c) in
      change (digit_value c) with v
  end;
  cbv iota beta.

Lemma read_digits_acc d :
  forall acc : positive,
    read_digits (NilEmpty.string_of_uint d) (Some (Z.pos acc))
    = Some (Z.pos (Pos.of_uint_acc d acc)).
Proof.
  induction d as [|d IH|d IH|d IH|d IH|d IH|d IH|d IH|d IH|d IH|d IH]; intros acc;
    [reflexivity|..]; digit_step; rewrite <- IH; do 2 f_equal; lia.
Qed.

Lemma read_digits_zero d :
  read_digits (NilEmpty.string_of_uint d) (Some 0) = Some (Z.of_N (Pos.of_uint d)).
Proof.
  induction d as [|d IH|d IH|d IH|d IH|d IH|d IH|d IH|d IH|d IH|d IH];
    [reflexivity|..]; digit_step; [exact IH|..]; apply (read_digits_acc d).
Qed.

Lemma read_digits_none d :
  d <> Decimal.Nil ->
  read_digits (NilEmpty.string_of_uint d) None = Some (Z.of_N (Pos.of_uint d)).
Proof.
  intros H. rewrite <- read_digits_zero. destruct d; [contradiction|..]; reflexivity.
Qed.

Lemma parse_decimal_digits d :
  d <> Decimal.Nil ->
  parse_decimal (NilEmpty.string_of_uint d) = Some (Z.of_N (Pos.of_uint d)).
Proof.
  intros H. rewrite <- (read_digits_none d H). destruct d; [contradiction|..]; reflexivity.
Qed.

Lemma parse_decimal_to_string z : parse_decimal (to_string z) = Some z.
Proof.
  unfold to_string. destruct z as [|p|p]; [reflexivity| |].
  - cbn [Z.to_int NilZero.string_of_int].
    pose proof (DecimalPos.Unsigned.to_uint_nonnil p) as N.
    pose proof (DecimalPos.Unsigned.of_to p) as E.
    unfold NilZero.string_of_uint.
    destruct (Pos.to_uint p) eqn:U; [contradiction|..];
      rewrite parse_decimal_digits by discriminate; now rewrite E.
  - cbn [Z.to_int NilZero.string_of_int].
    pose proof (DecimalPos.Unsigned.to_uint_nonnil p) as N.
    pose proof (DecimalPos.Unsigned.of_to p) as E.
    unfold NilZero.string_of_uint.
    assert (P : parse_decimal (String "-" (NilEmpty.string_of_uint (Pos.to_uint p)))
                = option_map Z.opp (read_digits (NilEmpty.string_of_uint (Pos.to_uint p)) None))
      by reflexivity.
    destruct (Pos.to_uint p) eqn:U; [contradiction|..];
      rewrite P, read_digits_none by discriminate; now rewrite E.
Qed.

Lemma stoi_to_string z : is_int32 z -> stoi (to_string z) = inr z.
Proof.
  unfold is_int32, in_signed. change (32 - 1) with 31. intros H.
  unfold stoi. rewrite parse_decimal_to_string.
  destruct (Z.leb_spec (- 2 ^ 31) z); [|lia]. destruct (Z.ltb_spec z (2 ^ 31)); [|lia].
  reflexivity.
Qed.

Lemma stoll_to_string z : is_int64 z -> stoll (to_string z) = inr z.
Proof.
  unfold is_int64, in_signed. change (64 - 1) with 63. intros H.
  unfold stoll. rewrite parse_decimal_to_string.
  destruct (Z.leb_spec (- 2 ^ 63) z); [|lia]. destruct (Z.ltb_spec z (2 ^ 63)); [|lia].
  reflexivity.
Qed.

Lemma back_snoc s c : back (s ++ String c EmptyString) = Some c.
Proof.
  induction s as [|a s IH]; [reflexivity|]. cbn [append].
  destruct (s ++ String c EmptyString)%string eqn:E; [destruct s; discriminate|].
  exact IH.
Qed.

Lemma pop_back_snoc s c : pop_back (s ++ String c EmptyString) = s.
Proof.
  induction s as [|a s IH]; [reflexivity|]. cbn [append].
  destruct (s ++ String c EmptyString)%string eqn:E; [destruct s; discriminate|].
  cbn [pop_back] in *. now rewrite IH.
Qed.

Lemma length_append s t : String.length (s ++ t) = (String.length s + String.length t)%nat.
Proof. induction s as [|a s IH]; cbn; auto. Qed.

Lemma substring_prefix s t : substring 0 (String.length s) (s ++ t) = s.
Proof.
  induction s as [|a s IH]; cbn [String.length append substring].
  - now destruct t.
  - now rewrite IH.
Qed.

Lemma unquote s :
  substring 1 (String.length (dquote ++ s ++ dquote) - 2) (dquote ++ s ++ dquote) = s.
Proof.
  unfold dquote. cbn [append String.length]. rewrite length_append. cbn [String.length].
  replace (S (String.length s + 1) - 2)%nat with (String.length s) by lia.
  cbn [substring]. apply substring_prefix.
Qed.

Section SeedFacts.

Context {float_text : FloatText}.

(** X22.  For a tag of an integer kind or a string, whose stored number
    fits its type, the text [editValue] offers for editing converts back
    to the tag itself: [toString], the trimming of the quotes and of the
    suffix [L], and [setValueFromString] compose to the identity. *)
Theorem edit_seed_converts_back (tag : NBTTag)
    (Hty : value_type (value tag) = type tag)
    (Hkind : integer_kind (type tag) = true \/ type tag = STRING)
    (Hrange : integer_kind (type tag) = true ->
              in_signed (bit_width (type tag)) (integer_of tag)) :
  setValueFromString (edit_seed tag) tag = inr tag.
Proof.
  destruct tag as [ty nm [vt b s i l f d str ba ia la lv cv]].
  cbn [value value_type type] in *. subst vt.
  unfold edit_seed, setValueFromString, NBTValue_toString, integer_of in *.
  cbn [value value_type type byteVal shortVal intVal longVal stringVal] in *.
  destruct ty; cbn [integer_kind bit_width] in *;
    try (destruct Hkind; discriminate); try specialize (Hrange eq_refl);
    repeat match goal with
           | |- context [TagType_eqb ?a ?b] =>
               let v := eval vm_compute in (TagType_eqb a b) in
               change (TagType_eqb a b) with v
           end;
    cbv iota; cbn [andb].
  - rewrite stoi_to_string by (unfold is_int32, in_signed in *; lia).
    cbn [bind_throws]. unfold on_value, set_value, set_byteVal. cbn.
    unfold to_i8. now rewrite to_signed_id by (auto; lia).
  - rewrite stoi_to_string by (unfold is_int32, in_signed in *; lia).
    cbn [bind_throws]. unfold on_value, set_value, set_shortVal. cbn.
    unfold to_i16. now rewrite to_signed_id by (auto; lia).
  - now rewrite stoi_to_string.
  - rewrite back_snoc. change (Ascii.eqb "L" "L") with true. cbv iota.
    rewrite pop_back_snoc. now rewrite stoll_to_string.
  - rewrite unquote. reflexivity.
Qed.

(** ** The lines of the screen *)

Lemma length_substring_0 n s :
  (n <= String.length s)%nat -> String.length (substring 0 n s) = n.
Proof.
  revert s. induction n as [|n IH]; intros s H.
  - now destruct s.
  - destruct s as [|a s]; cbn in *; [lia|]. rewrite IH; lia.
Qed.

(** X23.  The text [drawEditor] prints for a tag row, in a terminal of at
    least 4 columns, has at most [maxX - 1] characters: a longer text of
    [NBTTag::toString] is cut to its first [maxX - 4] characters followed
    by three dots, and a text that fits is printed as it is.  (The title,
    the help line and the [Modified] mark are printed uncut; they are
    not rows of tags.) *)
Theorem drawn_line_fits (maxX : Z) (tag : NBTTag)
    (Hwide : 4 <= maxX < 2 ^ 31) :
  let line := NBTTag_toString 0 tag in
  Z.of_nat (String.length (drawn_line maxX tag)) <= maxX - 1 /\
  (Z.of_nat (String.length line) <= maxX - 1 -> drawn_line maxX tag = line) /\
  (maxX - 1 < Z.of_nat (String.length line) ->
   drawn_line maxX tag = (substring 0 (Z.to_nat (maxX - 4)) line ++ "...")%string /\
   Z.of_nat (String.length (drawn_line maxX tag)) = maxX - 1).
Proof.
  cbv zeta. unfold drawn_line. cbv zeta.
  set (line := NBTTag_toString 0 tag).
  assert (U1 : to_u64 (maxX - 1) = maxX - 1)
    by (unfold to_u64, to_unsigned; apply Z.mod_small; lia).
  assert (U4 : to_u64 (maxX - 4) = maxX - 4)
    by (unfold to_u64, to_unsigned; apply Z.mod_small; lia).
  rewrite U1.
  destruct (Z.gtb_spec (Z.of_nat (String.length line)) (maxX - 1)) as [G|G].
  - assert (E : substr 0 (maxX - 4) line = substring 0 (Z.to_nat (maxX - 4)) line).
    { unfold substr. rewrite U4. f_equal. lia. }
    rewrite E.
    assert (L : Z.of_nat (String.length (substring 0 (Z.to_nat (maxX - 4)) line ++ "..."))
                = maxX - 1).
    { rewrite length_append, length_substring_0 by lia. cbn [String.length]. lia. }
    split; [lia|]. split; [lia|]. intros _. split; [reflexivity|exact L].
  - split; [lia|]. split; [reflexivity|lia].
Qed.

End SeedFacts.

(** ** [flattenTags] and [refreshTagList] *)

(** X24.  [flattenTags] only appends to the list it is given, and what it
    appends does not depend on [depth]. *)
Theorem flattenTags_appends (tag : NBTTag) (self : tag_ptr) (depth depth' : Z)
    (flatTagList : list tag_ptr) :
  flattenTags tag self depth flatTagList = flatTagList ++ flattenTags tag self depth' [].
Proof.
  rewrite (flattenTags_project tag self depth flatTagList).
  rewrite (flattenTags_project tag self depth' []).
  reflexivity.
Qed.

(** X25.  [refreshTagList] forgets the list the editor held: its result
    does not depend on it, so refreshing twice is refreshing once. *)
Theorem refreshTagList_forgets_old_list (ed : NBTEditor) (old : list tag_ptr) :
  refreshTagList (set_flatTagList old ed) = refreshTagList ed /\
  refreshTagList (refreshTagList ed) = refreshTagList ed.
Proof.
  unfold refreshTagList. destruct ed as [[fname [root|] comp] cr so mv e buf sel flat m];
    cbn [set_flatTagList nbtFile getRoot rootTag flatTagList]; split; reflexivity.
Qed.

(** ** Strings cut short *)

Lemma length_string_of_bytes bs : String.length (string_of_bytes bs) = List.length bs.
Proof. induction bs as [|b bs IH]; cbn; auto. Qed.

Section ShortReads.

Variable host_big_endian : bool.

(** X26.  A string read by [readString] has the length its prefix
    announces, also when the stream ends before that many bytes: the bytes
    that are missing read as zero. *)
Theorem readString_has_announced_length (file rest : ifstream) (value : string)
    (Hread : readString host_big_endian file = StringRead value rest) :
  exists length after,
    readShort host_big_endian file = Some (length, after) /\
    0 <= length /\
    String.length value = Z.to_nat length /\
    rest = skipn (Z.to_nat length) after /\
    forall i, (List.length after <= i < Z.to_nat length)%nat ->
              String.get i value = Some zero.
Proof.
  unfold readString in Hread.
  destruct (readShort host_big_endian file) as [[len after]|]; [|discriminate].
  destruct (Z.ltb_spec len 0); [discriminate|]. injection Hread as <- <-.
  exists len, after. split; [reflexivity|]. split; [assumption|].
  set (n := Z.to_nat len).
  assert (L : List.length (firstn n after) = Nat.min n (List.length after))
    by apply length_firstn.
  split; [|split; [reflexivity|]].
  - rewrite length_string_of_bytes, length_app, repeat_length. lia.
  - intros i Hi.
    assert (G : forall bs j, String.get j (string_of_bytes bs)
                             = option_map char_of_byte (nth_error bs j)).
    { induction bs as [|b bs IH]; intros [|j]; cbn; auto. }
    rewrite G, nth_error_app2 by lia.
    rewrite nth_error_repeat by lia. reflexivity.
Qed.

End ShortReads.


(** ** The further properties on the tree of [load] and on short streams *)

Lemma byte_short_write_read_roundtrip_witness :
  is_int8 (-1) /\ is_int16 (-256) /\
  ((exists bs, writeByte false [0] (-1) = [0] ++ bs /\
               readByte false (bs ++ [7]) = Some (-1, [7])) /\
   (exists bs, writeShort false [0] (-256) = [0] ++ bs /\
               readShort false (bs ++ [7]) = Some (-256, [7]))).
Proof.
  assert (H8 : is_int8 (-1)) by (unfold is_int8, in_signed; simpl; lia).
  assert (H16 : is_int16 (-256)) by (unfold is_int16, in_signed; simpl; lia).
  split; [exact H8 | split; [exact H16 |]].
  exact (byte_short_write_read_roundtrip false (-1) (-256) [0] [7] H8 H16).
Defined.

Lemma float_double_write_read_roundtrip_witness :
  0 <= float_20_0 < 2 ^ 32 /\ 0 <= double_minus_200_75 < 2 ^ 64 /\
  ((exists bs, writeFloat false [0] float_20_0 = [0] ++ bs /\
               readFloat false (bs ++ [7]) = Some (float_20_0, [7])) /\
   (exists bs, writeDouble false [0] double_minus_200_75 = [0] ++ bs /\
               readDouble false (bs ++ [7]) = Some (double_minus_200_75, [7]))).
Proof.
  assert (Hf : 0 <= float_20_0 < 2 ^ 32) by (vm_compute; split; [discriminate|reflexivity]).
  assert (Hd : 0 <= double_minus_200_75 < 2 ^ 64)
    by (vm_compute; split; [discriminate|reflexivity]).
  split; [exact Hf | split; [exact Hd |]].
  exact (float_double_write_read_roundtrip false float_20_0 double_minus_200_75 [0] [7] Hf Hd).
Defined.

Lemma read_write_roundtrip_witness :
  let file := [1; 2; 3; 4; 5; 6; 7; 8; 9] in
  Forall is_byte file /\
  (forall v rest, readShort false file = Some (v, rest) ->
                  writeShort false [] v ++ rest = file) /\
  (forall v rest, readInt false file = Some (v, rest) ->
                  writeInt false [] v ++ rest = file) /\
  (forall v rest, readLong false file = Some (v, rest) ->
                  writeLong false [] v ++ rest = file).
Proof.
  cbv zeta.
  assert (H : Forall is_byte [1; 2; 3; 4; 5; 6; 7; 8; 9])
    by (repeat constructor; unfold is_byte; lia).
  split; [exact H|].
  exact (read_write_roundtrip false [1; 2; 3; 4; 5; 6; 7; 8; 9] H).
Defined.

Lemma string_write_read_roundtrip_witness :
  Z.of_nat (String.length "Test Player") < 32768 /\
  exists bs, writeString false [10] "Test Player" = [10] ++ bs /\
             readString false (bs ++ [7]) = StringRead "Test Player" [7].
Proof.
  assert (H : Z.of_nat (String.length "Test Player") < 32768) by (vm_compute; reflexivity).
  split; [exact H|].
  exact (string_write_read_roundtrip false "Test Player" [10] [7] H).
Defined.

Lemma string_too_long_is_not_read_back_witness :
  let s := string_of_bytes (repeat 65 (Z.to_nat 32768)) in
  32768 <= Z.of_nat (String.length s) < 65536 /\
  exists bs, writeString false [] s = [] ++ bs /\
             readString false (bs ++ []) = StringLengthError.
Proof.
  cbv zeta.
  assert (H : 32768 <= Z.of_nat (String.length (string_of_bytes (repeat 65 (Z.to_nat 32768))))
              < 65536)
    by (vm_compute; split; [discriminate|reflexivity]).
  split; [exact H|].
  exact (string_too_long_is_not_read_back false _ [] [] H).
Defined.

Lemma drawEditor_selects_cursor_row_witness :
  let ed := set_currentRow 1 started in
  0 <= currentRow ed /\
  currentRow ed < scrollOffset ed + (24 - 2) /\
  nth_error (flatTagList ed) (Z.to_nat (currentRow ed)) = Some [Member "health"] /\
  selectedTag (drawEditor 24 ed) = Some [Member "health"] /\
  scrollOffset (drawEditor 24 ed) = Z.min (currentRow ed) (scrollOffset ed).
Proof.
  cbv zeta.
  assert (H1 : 0 <= currentRow (set_currentRow 1 started)) by (vm_compute; discriminate).
  assert (H2 : currentRow (set_currentRow 1 started)
               < scrollOffset (set_currentRow 1 started) + (24 - 2))
    by (vm_compute; reflexivity).
  assert (H3 : nth_error (flatTagList (set_currentRow 1 started))
                 (Z.to_nat (currentRow (set_currentRow 1 started)))
               = Some [Member "health"]) by (vm_compute; reflexivity).
  split; [exact H1|].
  split; [exact H2|].
  split; [exact H3|].
  exact (drawEditor_selects_cursor_row 24 (set_currentRow 1 started) [Member "health"]
           H1 H2 H3).
Defined.

Lemma drawEditor_below_window_keeps_selection_witness :
  let ed := set_currentRow 1 (drawEditor 3 started) in
  scrollOffset ed <= currentRow ed /\
  scrollOffset ed + (3 - 2) <= currentRow ed /\
  selectedTag ed = Some [] /\
  selectedTag (drawEditor 3 ed) = selectedTag ed /\
  scrollOffset (drawEditor 3 ed) = currentRow ed - (3 - 2) + 1.
Proof.
  cbv zeta.
  assert (H1 : scrollOffset (set_currentRow 1 (drawEditor 3 started))
               <= currentRow (set_currentRow 1 (drawEditor 3 started)))
    by (vm_compute; discriminate).
  assert (H2 : scrollOffset (set_currentRow 1 (drawEditor 3 started)) + (3 - 2)
               <= currentRow (set_currentRow 1 (drawEditor 3 started)))
    by (vm_compute; discriminate).
  assert (H3 : selectedTag (set_currentRow 1 (drawEditor 3 started)) = Some [])
    by (vm_compute; reflexivity).
  split; [exact H1|].
  split; [exact H2|].
  split; [exact H3|].
  exact (drawEditor_below_window_keeps_selection 3 (set_currentRow 1 (drawEditor 3 started))
           H1 H2).
Defined.

Lemma drawEditor_twice_selects_cursor_row_witness :
  let ed := set_currentRow 1 (drawEditor 3 started) in
  3 <= 3 /\
  0 <= currentRow ed /\
  nth_error (flatTagList ed) (Z.to_nat (currentRow ed)) = Some [Member "health"] /\
  selectedTag (drawEditor 3 (drawEditor 3 ed)) = Some [Member "health"].
Proof.
  cbv zeta.
  assert (H1 : 3 <= 3) by lia.
  assert (H2 : 0 <= currentRow (set_currentRow 1 (drawEditor 3 started)))
    by (vm_compute; discriminate).
  assert (H3 : nth_error (flatTagList (set_currentRow 1 (drawEditor 3 started)))
                 (Z.to_nat (currentRow (set_currentRow 1 (drawEditor 3 started))))
               = Some [Member "health"]) by (vm_compute; reflexivity).
  split; [exact H1|].
  split; [exact H2|].
  split; [exact H3|].
  exact (drawEditor_twice_selects_cursor_row 3 (set_currentRow 1 (drawEditor 3 started))
           [Member "health"] H1 H2 H3).
Defined.


Lemma editValue_empty_line_witness :
  let ed := at_row 10 in
  let sel := [Member "name"] in
  let tag := on_value (set_stringVal "Test Player") (new_NBTTag STRING "name") in
  let ed' := snd (editValue (float_text := no_float_text) OK EmptyString ed) in
  selectedTag ed = Some sel /\
  target sel ed = Some tag /\
  target sel ed' = Some (on_value (set_stringVal EmptyString) tag) /\
  modified ed' = true.
Proof.
  cbv zeta.
  set (sel := [Member "name"]).
  set (tag := on_value (set_stringVal "Test Player") (new_NBTTag STRING "name")).
  assert (H1 : selectedTag (at_row 10) = Some sel) by (vm_compute; reflexivity).
  assert (H2 : target sel (at_row 10) = Some tag) by (vm_compute; reflexivity).
  split; [exact H1|].
  split; [exact H2|].
  exact (proj1 (editValue_empty_line (float_text := no_float_text) (at_row 10) sel tag H1 H2)
           eq_refl).
Defined.

Lemma only_addTag_changes_shape_witness :
  let ev := press (key "d") "" in
  let ed := at_row 1 in
  getRoot (nbtFile ed) = Some load_rootTag /\
  (ch ev <> key "a" /\ ch ev <> key "A") /\
  exists root',
    getRoot (nbtFile (snd (handleInput (float_text := no_float_text) ev ed))) = Some root' /\
    same_shape root' load_rootTag /\
    flatTagList (snd (handleInput (float_text := no_float_text) ev ed)) = flatTagList ed.
Proof.
  cbv zeta.
  assert (H1 : getRoot (nbtFile (at_row 1)) = Some load_rootTag) by (vm_compute; reflexivity).
  assert (H2 : ch (press (key "d") "") <> key "a" /\ ch (press (key "d") "") <> key "A")
    by (split; vm_compute; discriminate).
  split; [exact H1|].
  split; [exact H2|].
  exact (only_addTag_changes_shape (float_text := no_float_text) (press (key "d") "")
           (at_row 1) load_rootTag H1 H2).
Defined.

Lemma modified_cleared_only_by_save_witness :
  let ev := press KEY_DOWN "" in
  let ed := set_modified true started in
  ch ev <> key "s" /\ ch ev <> key "S" /\ modified ed = true /\
  modified (snd (handleInput (float_text := no_float_text) ev ed)) = true.
Proof.
  cbv zeta.
  assert (H1 : ch (press KEY_DOWN "") <> key "s") by (vm_compute; discriminate).
  assert (H2 : ch (press KEY_DOWN "") <> key "S") by (vm_compute; discriminate).
  assert (H3 : modified (set_modified true started) = true) by reflexivity.
  split; [exact H1|].
  split; [exact H2|].
  split; [exact H3|].
  exact (proj2 (modified_cleared_only_by_save (float_text := no_float_text)
                  (press KEY_DOWN "") (set_modified true started)) H1 H2 H3).
Defined.

Lemma addTag_creates_member_witness :
  let ed := at_row 0 in
  let ed' := snd (addTag ed) in
  selectedTag ed = Some [] /\
  target [] ed = Some load_rootTag /\
  type load_rootTag = COMPOUND /\
  StdMap.find "new_tag" (compoundVal (value load_rootTag)) = None /\
  exists tag' root',
    target [] ed' = Some tag' /\
    getRoot (nbtFile ed') = Some root' /\
    flatTagList ed' = view root' /\
    modified ed' = true /\
    type tag' = COMPOUND /\
    name tag' = name load_rootTag /\
    StdMap.size (compoundVal (value tag'))
    = S (StdMap.size (compoundVal (value load_rootTag))) /\
    StdMap.find "new_tag" (compoundVal (value tag'))
    = Some (on_value (set_stringVal "value") (new_NBTTag STRING "new_tag")) /\
    forall k, k <> "new_tag"%string ->
              StdMap.find k (compoundVal (value tag'))
              = StdMap.find k (compoundVal (value load_rootTag)).
Proof.
  cbv zeta.
  assert (H1 : selectedTag (at_row 0) = Some []) by (vm_compute; reflexivity).
  assert (H2 : target [] (at_row 0) = Some load_rootTag) by (vm_compute; reflexivity).
  assert (H3 : type load_rootTag = COMPOUND) by (vm_compute; reflexivity).
  assert (H4 : StdMap.find "new_tag" (compoundVal (value load_rootTag)) = None)
    by (vm_compute; reflexivity).
  split; [exact H1|].
  split; [exact H2|].
  split; [exact H3|].
  split; [exact H4|].
  exact (addTag_creates_member (at_row 0) [] load_rootTag H1 H2 H3 H4).
Defined.

Lemma save_then_quit_without_prompt_witness :
  let ev_s := press (key "s") "" in
  let ev_q := press (key "q") "" in
  let ed := set_modified true started in
  let saved := fst (run_turn (float_text := no_float_text) ev_s ed) in
  (ch ev_s = key "s" \/ ch ev_s = key "S") /\
  (ch ev_q = key "q" \/ ch ev_q = key "Q") /\
  snd (run_turn (float_text := no_float_text) ev_s ed) = true /\
  modified saved = false /\
  nbtFile saved = nbtFile ed /\
  flatTagList saved = flatTagList ed /\
  run_turn (float_text := no_float_text) ev_q saved = (drawEditor (maxY ev_q) saved, false).
Proof.
  cbv zeta.
  assert (H1 : ch (press (key "s") "") = key "s" \/ ch (press (key "s") "") = key "S")
    by (left; reflexivity).
  assert (H2 : ch (press (key "q") "") = key "q" \/ ch (press (key "q") "") = key "Q")
    by (left; reflexivity).
  split; [exact H1|].
  split; [exact H2|].
  exact (save_then_quit_without_prompt (float_text := no_float_text)
           (press (key "s") "") (press (key "q") "") (set_modified true started) H1 H2).
Defined.

Lemma deleteTag_marks_accumulate_witness :
  let ed := at_row 1 in
  let sel := [Member "health"] in
  let tag := on_value (set_floatVal float_20_0) (new_NBTTag FLOAT "health") in
  let ed' := Nat.iter 2 (fun ed => snd (deleteTag ed)) ed in
  selectedTag ed = Some sel /\
  sel <> [] /\
  target sel ed = Some tag /\
  selectedTag ed' = Some sel /\
  target sel ed' = Some (set_name (deleted_n 2 (name tag)) tag).
Proof.
  cbv zeta.
  set (sel := [Member "health"]).
  set (tag := on_value (set_floatVal float_20_0) (new_NBTTag FLOAT "health")).
  assert (H1 : selectedTag (at_row 1) = Some sel) by (vm_compute; reflexivity).
  assert (H2 : sel <> []) by discriminate.
  assert (H3 : target sel (at_row 1) = Some tag) by (vm_compute; reflexivity).
  split; [exact H1|].
  split; [exact H2|].
  split; [exact H3|].
  exact (deleteTag_marks_accumulate (at_row 1) sel tag 2 H1 H2 H3).
Defined.

Lemma running_view_is_current_witness :
  running (float_text := no_float_text) started /\
  exists root,
    getRoot (nbtFile started) = Some root /\
    flatTagList started = view root /\
    NoDup (flatTagList started) /\
    forall p, In p (flatTagList started) -> exists tag, target p started = Some tag.
Proof.
  assert (H : running (float_text := no_float_text) started) by apply running_start.
  split; [exact H|].
  exact (running_view_is_current (float_text := no_float_text) started H).
Defined.

Lemma edit_seed_converts_back_witness :
  let tag := on_value (set_longVal (-5)) (new_NBTTag LONG "time") in
  value_type (value tag) = type tag /\
  (integer_kind (type tag) = true \/ type tag = STRING) /\
  (integer_kind (type tag) = true -> in_signed (bit_width (type tag)) (integer_of tag)) /\
  setValueFromString (float_text := no_float_text)
    (edit_seed (float_text := no_float_text) tag) tag = inr tag.
Proof.
  cbv zeta.
  set (tag := on_value (set_longVal (-5)) (new_NBTTag LONG "time")).
  assert (H1 : value_type (value tag) = type tag) by reflexivity.
  assert (H2 : integer_kind (type tag) = true \/ type tag = STRING) by (left; reflexivity).
  assert (H3 : integer_kind (type tag) = true ->
               in_signed (bit_width (type tag)) (integer_of tag))
    by (intros _; vm_compute; split; [discriminate|reflexivity]).
  split; [exact H1|].
  split; [exact H2|].
  split; [exact H3|].
  exact (edit_seed_converts_back (float_text := no_float_text) tag H1 H2 H3).
Defined.

Lemma drawn_line_fits_witness :
  let line := NBTTag_toString (float_text := no_float_text) 0 load_rootTag in
  4 <= 10 < 2 ^ 31 /\
  Z.of_nat (String.length (drawn_line (float_text := no_float_text) 10 load_rootTag))
  <= 10 - 1 /\
  (Z.of_nat (String.length line) <= 10 - 1 ->
   drawn_line (float_text := no_float_text) 10 load_rootTag = line) /\
  (10 - 1 < Z.of_nat (String.length line) ->
   drawn_line (float_text := no_float_text) 10 load_rootTag
   = (substring 0 (Z.to_nat (10 - 4)) line ++ "...")%string /\
   Z.of_nat (String.length (drawn_line (float_text := no_float_text) 10 load_rootTag))
   = 10 - 1).
Proof.
  cbv zeta.
  assert (H : 4 <= 10 < 2 ^ 31) by (split; [discriminate|reflexivity]).
  split; [exact H|].
  exact (drawn_line_fits (float_text := no_float_text) 10 load_rootTag H).
Defined.

Lemma readString_has_announced_length_witness :
  let file := [0; 3; 65] in
  let value := String "A" (String zero (String zero EmptyString)) in
  readString false file = StringRead value [] /\
  exists length after,
    readShort false file = Some (length, after) /\
    0 <= length /\
    String.length value = Z.to_nat length /\
    [] = skipn (Z.to_nat length) after /\
    forall i, (List.length after <= i < Z.to_nat length)%nat ->
              String.get i value = Some zero.
Proof.
  cbv zeta.
  assert (H : readString false [0; 3; 65]
              = StringRead (String "A" (String zero (String zero EmptyString))) [])
    by (vm_compute; reflexivity).
  split; [exact H|].
  exact (readString_has_announced_length false [0; 3; 65] [] _ H).
Defined.

(** ** Integer texts, inside and outside the range of the conversion *)

Lemma substring_whole n s : (String.length s <= n)%nat -> substring 0 n s = s.
Proof.
  revert s. induction n as [|n IH]; intros [|a s] H; cbn in *; try reflexivity; try lia.
  rewrite IH; [reflexivity|lia].
Qed.

Ltac not_the_zero_character :=
  repeat match goal with
         | |- context [Ascii.eqb ?c zero] =>
             let v := eval vm_compute in (Ascii.eqb c zero) in
             change (Ascii.eqb c zero) with v
         end;
  cbv iota.

Lemma c_string_digits d : c_string (NilEmpty.string_of_uint d) = NilEmpty.string_of_uint d.
Proof.
  induction d; cbn [NilEmpty.string_of_uint c_string]; [reflexivity|..];
    not_the_zero_character; now rewrite IHd.
Qed.

Lemma c_string_to_string z : c_string (to_string z) = to_string z.
Proof.
  unfold to_string. destruct (Z.to_int z) as [d|d]; cbn [NilZero.string_of_int].
  - unfold NilZero.string_of_uint. destruct d; [reflexivity|..]; apply c_string_digits.
  - cbn [c_string]. not_the_zero_character. f_equal.
    unfold NilZero.string_of_uint. destruct d; [reflexivity|..]; apply c_string_digits.
Qed.

Lemma stoi_to_string_out z : ~ is_int32 z -> stoi (to_string z) = inl out_of_range.
Proof.
  unfold is_int32, in_signed. change (32 - 1) with 31. intros H.
  unfold stoi. rewrite parse_decimal_to_string.
  destruct (Z.leb_spec (- 2 ^ 31) z); destruct (Z.ltb_spec z (2 ^ 31)); cbn [andb];
    try reflexivity. lia.
Qed.

Lemma stoll_to_string_out z : ~ is_int64 z -> stoll (to_string z) = inl out_of_range.
Proof.
  unfold is_int64, in_signed. change (64 - 1) with 63. intros H.
  unfold stoll. rewrite parse_decimal_to_string.
  destruct (Z.leb_spec (- 2 ^ 63) z); destruct (Z.ltb_spec z (2 ^ 63)); cbn [andb];
    try reflexivity. lia.
Qed.

Lemma parse_integer_in t z :
  in_signed (conversion_width t) z -> parse_integer t (to_string z) = inr z.
Proof. destruct t; cbn [conversion_width parse_integer]; auto using stoi_to_string, stoll_to_string. Qed.

Lemma parse_integer_out t z :
  ~ in_signed (conversion_width t) z -> parse_integer t (to_string z) = inl out_of_range.
Proof.
  destruct t; cbn [conversion_width parse_integer];
    auto using stoi_to_string_out, stoll_to_string_out.
Qed.

Section IntegerEdits.

Context {float_text : FloatText}.

Lemma setValueFromString_out tag z :
  integer_kind (type tag) = true ->
  ~ in_signed (conversion_width (type tag)) z ->
  setValueFromString (to_string z) tag = inl out_of_range.
Proof.
  intros Hk Hz. pose proof (parse_integer_out (type tag) z Hz) as P.
  unfold setValueFromString, parse_integer in *.
  destruct (type tag); try discriminate; now rewrite P.
Qed.

(** C5. A confirmed edit of a selected tag of an integer kind, with the
    decimal text of an integer [z] that fits the input buffer.  The text
    is converted by [std::stoi], or [std::stoll] for a Long.  When [z] is
    in the range of [int] ([long long] for a Long), it is narrowed to the
    width of the kind and stored as the value of the tag, and [modified]
    is set.  When it is not, the conversion throws, nothing is truncated:
    the tag, the tree and [modified] are what they were. *)
Theorem editValue_commits_integer
    (ed : NBTEditor) (sel : tag_ptr) (tag : NBTTag) (z : Z)
    (Hsel : selectedTag ed = Some sel)
    (Htag : target sel ed = Some tag)
    (Hkind : integer_kind (type tag) = true)
    (Hfits : (String.length (to_string z) <= 255)%nat) :
  let ed' := snd (editValue OK (to_string z) ed) in
  fst (editValue OK (to_string z) ed) = Returned /\
  (in_signed (conversion_width (type tag)) z ->
   modified ed' = true /\
   exists tag',
     target sel ed' = Some tag' /\
     type tag' = type tag /\ name tag' = name tag /\
     integer_of tag' = to_signed (bit_width (type tag)) z) /\
  (~ in_signed (conversion_width (type tag)) z ->
   target sel ed' = Some tag /\
   nbtFile ed' = nbtFile ed /\
   modified ed' = modified ed).
Proof.
  cbv zeta.
  assert (L : c_string (substring 0 255 (to_string z)) = to_string z)
    by (rewrite (substring_whole 255 _ Hfits); apply c_string_to_string).
  split; [apply editValue_returns|]. split.
  - intros Hz.
    assert (P : parse_integer (type tag) (c_string (substring 0 255 (to_string z))) = inr z)
      by (rewrite L; now apply parse_integer_in).
    destruct (editValue_commits_parsed ed sel tag (to_string z) z Hsel Htag Hkind P)
      as (_ & M & T).
    split; [exact M|exact T].
  - intros Hz.
    assert (He : editable (type tag) = true) by (destruct (type tag); auto; discriminate).
    assert (V : setValueFromString (c_string (substring 0 255 (to_string z))) tag
                = inl out_of_range)
      by (rewrite L; now apply setValueFromString_out).
    rewrite (editValue_throw ed sel tag (to_string z) out_of_range Hsel Htag He V).
    cbn [snd]. split; [exact Htag|]. split; reflexivity.
Qed.

End IntegerEdits.

(** C5, counterexample: on the Byte tag that holds 5, the text
    "2147483648" is the text of an integer, whose truncation to 8 bits
    is 0; [std::stoi] throws on it, the tag still holds 5 and [modified]
    is not set. *)
Lemma editValue_truncation_counterexample :
  let ed := at_row 8 in
  let sel := [Member "inventory"; Member "items"; Item 1; Member "count"] in
  let ed' := snd (editValue (float_text := no_float_text) OK "2147483648" ed) in
  selectedTag ed = Some sel /\
  option_map (fun t => (type t, byteVal (value t))) (target sel ed) = Some (BYTE, 5) /\
  to_string 2147483648 = "2147483648"%string /\
  to_signed (bit_width BYTE) 2147483648 = 0 /\
  stoi "2147483648" = inl out_of_range /\
  option_map (fun t => (type t, byteVal (value t))) (target sel ed') = Some (BYTE, 5) /\
  modified ed = false /\
  modified ed' = false.
Proof. cbv zeta. repeat apply conj; by_eval. Qed.

Lemma editValue_commits_integer_witness :
  let ed := at_row 8 in
  let sel := [Member "inventory"; Member "items"; Item 1; Member "count"] in
  let tag := on_value (set_byteVal 5) (new_NBTTag BYTE "count") in
  let ed7 := snd (editValue (float_text := no_float_text) OK "7" ed) in
  let ed300 := snd (editValue (float_text := no_float_text) OK "300" ed) in
  selectedTag ed = Some sel /\
  target sel ed = Some tag /\
  integer_kind (type tag) = true /\
  (String.length (to_string 7) <= 255)%nat /\
  in_signed (conversion_width (type tag)) 7 /\
  to_string 7 = "7"%string /\
  to_string 300 = "300"%string /\
  (modified ed7 = true /\
   exists tag',
     target sel ed7 = Some tag' /\
     type tag' = type tag /\ name tag' = name tag /\
     integer_of tag' = to_signed (bit_width (type tag)) 7) /\
  (modified ed300 = true /\
   exists tag',
     target sel ed300 = Some tag' /\
     type tag' = type tag /\ name tag' = name tag /\
     integer_of tag' = to_signed (bit_width (type tag)) 300) /\
  to_signed (bit_width (type tag)) 7 = 7 /\
  to_signed (bit_width (type tag)) 300 = 44.
Proof.
  cbv zeta.
  set (sel := [Member "inventory"; Member "items"; Item 1; Member "count"]).
  set (tag := on_value (set_byteVal 5) (new_NBTTag BYTE "count")).
  assert (H1 : selectedTag (at_row 8) = Some sel) by (vm_compute; reflexivity).
  assert (H2 : target sel (at_row 8) = Some tag) by (vm_compute; reflexivity).
  assert (H3 : integer_kind (type tag) = true) by reflexivity.
  assert (H4 : (String.length (to_string 7) <= 255)%nat) by (vm_compute; lia).
  assert (H5 : in_signed (conversion_width (type tag)) 7)
    by (vm_compute; split; [discriminate|reflexivity]).
  assert (H6 : (String.length (to_string 300) <= 255)%nat) by (vm_compute; lia).
  assert (H7 : in_signed (conversion_width (type tag)) 300)
    by (vm_compute; split; [discriminate|reflexivity]).
  split; [exact H1|]. split; [exact H2|]. split; [exact H3|]. split; [exact H4|].
  split; [exact H5|]. split; [reflexivity|]. split; [reflexivity|].
  split; [|split; [|split; vm_compute; reflexivity]].
  - exact (proj1 (proj2 (editValue_commits_integer (float_text := no_float_text)
                           (at_row 8) sel tag 7 H1 H2 H3 H4)) H5).
  - exact (proj1 (proj2 (editValue_commits_integer (float_text := no_float_text)
                           (at_row 8) sel tag 300 H1 H2 H3 H6)) H7).
Defined.

(** ** What an edit can store in a string *)

Lemma append_assoc a b c : ((a ++ b) ++ c)%string = (a ++ (b ++ c))%string.
Proof. induction a as [|x a IH]; cbn [append]; [reflexivity|now rewrite IH]. Qed.

Lemma append_empty a : (a ++ EmptyString)%string = a.
Proof. induction a as [|x a IH]; cbn [append]; [reflexivity|now rewrite IH]. Qed.

Lemma substring_cut n :
  forall s, exists cut,
    s = (substring 0 n s ++ cut)%string /\
    (cut = EmptyString \/ String.length (substring 0 n s) = n).
Proof.
  induction n as [|n IH]; intros s.
  - exists s. split; [|right]; now destruct s.
  - destruct s as [|a s]; [exists EmptyString; split; [reflexivity|now left]|].
    destruct (IH s) as (cut & E & H). exists cut. cbn [substring append String.length].
    split; [now rewrite <- E|]. destruct H as [H|H]; [now left|right; now rewrite H].
Qed.

Lemma c_string_cut s :
  exists r,
    s = (c_string s ++ r)%string /\
    (r = EmptyString \/ exists r', r = String zero r') /\
    forall i, String.get i (c_string s) <> Some zero.
Proof.
  induction s as [|a s (r & E & H & G)]; cbn [c_string].
  - exists EmptyString. split; [reflexivity|]. split; [now left|]. intros i. now destruct i.
  - destruct (Ascii.eqb_spec a zero) as [->|Ha].
    + exists (String zero s). split; [reflexivity|]. split; [right; now exists s|].
      intros i. now destruct i.
    + exists r. cbn [append]. split; [now rewrite <- E|]. split; [exact H|].
      intros [|i]; cbn [String.get]; [congruence|apply G].
Qed.

Lemma length_c_string s : (String.length (c_string s) <= String.length s)%nat.
Proof.
  induction s as [|a s IH]; cbn [c_string String.length]; [lia|].
  destruct (Ascii.eqb a zero); cbn [String.length]; lia.
Qed.

Lemma length_substring_le m n s : (String.length (substring m n s) <= n)%nat.
Proof.
  revert m n. induction s as [|a s IH]; intros [|m] [|n]; cbn [substring String.length];
    try lia.
  - specialize (IH O n). lia.
  - apply (IH m 0%nat).
  - apply (IH m (S n)).
Qed.

Section StringEdits.

Context {float_text : FloatText}.

(** X27.  A confirmed edit of a string stores the longest beginning of the
    line typed that has no zero character and at most 255 characters, the
    size of the input buffer less one: what is stored is a beginning of
    the line, it holds no zero character, and it stops at the end of the
    line, at 255 characters, or in front of a zero character.  The tag
    keeps everything else and [modified] is set. *)
Theorem editValue_string_is_cut_to_buffer (ed : NBTEditor) (sel : tag_ptr) (tag : NBTTag)
    (line : string)
    (Hsel : selectedTag ed = Some sel)
    (Htag : target sel ed = Some tag)
    (Hkind : type tag = STRING) :
  let ed' := snd (editValue OK line ed) in
  exists stored rest,
    target sel ed' = Some (on_value (set_stringVal stored) tag) /\
    line = (stored ++ rest)%string /\
    (forall i, String.get i stored <> Some zero) /\
    (String.length stored <= 255)%nat /\
    (rest = EmptyString \/ String.length stored = 255%nat \/
     exists rest', rest = String zero rest') /\
    modified ed' = true.
Proof.
  cbv zeta.
  rewrite (editValue_commit ed sel tag line
             (on_value (set_stringVal (c_string (substring 0 255 line))) tag) Hsel Htag);
    [ | now rewrite Hkind | unfold setValueFromString; now rewrite Hkind ].
  cbn [snd].
  destruct (substring_cut 255 line) as (cut & Ecut & Hcut).
  destruct (c_string_cut (substring 0 255 line)) as (r & Er & Hr & Hzero).
  exists (c_string (substring 0 255 line)), (r ++ cut)%string.
  split; [|split; [|split; [exact Hzero|split; [|split; [|reflexivity]]]]].
  - change (target sel (set_modified true ?e)) with (target sel e).
    rewrite (target_written _ sel _ tag); [reflexivity|exact Htag].
  - rewrite <- append_assoc, <- Er. exact Ecut.
  - pose proof (length_c_string (substring 0 255 line)).
    pose proof (length_substring_le 0 255 line). lia.
  - destruct Hr as [->|(r' & ->)].
    + rewrite append_empty in Er. rewrite <- Er.
      destruct Hcut as [->|Hlen]; [now left|right; now left].
    + right. right. now exists (r' ++ cut)%string.
Qed.

End StringEdits.

(** ** [editBuffer] is never read *)

Lemma draw_row_editBuffer buf ed i :
  draw_row (set_editBuffer buf ed) i = set_editBuffer buf (draw_row ed i).
Proof.
  unfold draw_row. cbn [set_editBuffer currentRow flatTagList].
  destruct (i =? currentRow ed); [|reflexivity]. now destruct (nth_error _ _).
Qed.

Lemma draw_loop_editBuffer buf l :
  forall ed,
    fold_left draw_row l (set_editBuffer buf ed) = set_editBuffer buf (fold_left draw_row l ed).
Proof.
  induction l as [|i l IH]; intros ed; cbn [fold_left]; [reflexivity|].
  now rewrite draw_row_editBuffer, IH.
Qed.

Lemma drawEditor_editBuffer buf y ed :
  drawEditor y (set_editBuffer buf ed) = set_editBuffer buf (drawEditor y ed).
Proof.
  unfold drawEditor. cbv zeta.
  cbn [set_maxVisibleRows set_editBuffer currentRow scrollOffset maxVisibleRows flatTagList].
  destruct (currentRow ed <? scrollOffset ed);
    [|destruct (currentRow ed >=? scrollOffset ed + (y - 2))];
    rewrite <- draw_loop_editBuffer; reflexivity.
Qed.

Lemma differ_in_editBuffer a b :
  set_editBuffer EmptyString a = set_editBuffer EmptyString b ->
  a = set_editBuffer (editBuffer a) b.
Proof. destruct a, b. cbn. intros [= -> -> -> -> -> -> -> ->]. reflexivity. Qed.

Section BufferFacts.

Context {float_text : FloatText}.

Lemma editValue_editBuffer result line buf ed :
  set_editBuffer EmptyString (snd (editValue result line (set_editBuffer buf ed)))
  = set_editBuffer EmptyString (snd (editValue result line ed)).
Proof.
  unfold editValue, target. cbn [set_editBuffer selectedTag nbtFile].
  destruct (selectedTag ed); [|reflexivity].
  destruct (getRoot (nbtFile ed)); [|reflexivity].
  destruct (deref _ _); [|reflexivity].
  destruct (negb _); [reflexivity|]. cbv zeta.
  destruct (result =? OK); [|reflexivity].
  destruct (setValueFromString _ _); reflexivity.
Qed.

Lemma handleInput_editBuffer ev buf ed :
  set_editBuffer EmptyString (snd (handleInput ev (set_editBuffer buf ed)))
  = set_editBuffer EmptyString (snd (handleInput ev ed)).
Proof.
  unfold handleInput. cbv zeta.
  destruct (ch ev =? KEY_UP).
  { cbn [snd set_editBuffer currentRow]. now destruct (_ >? _). }
  destruct (ch ev =? KEY_DOWN).
  { cbn [snd set_editBuffer currentRow flatTagList]. now destruct (_ <? _). }
  destruct (_ || _); [apply editValue_editBuffer|].
  destruct (_ || _).
  { unfold addTag, target, refreshTagList, write_root.
    cbn [set_editBuffer selectedTag nbtFile].
    destruct (selectedTag ed); [|reflexivity].
    destruct (getRoot (nbtFile ed)); [|reflexivity].
    destruct (deref _ _); [|reflexivity].
    destruct (TagType_eqb _ _); reflexivity. }
  destruct (_ || _).
  { unfold deleteTag. cbn [set_editBuffer selectedTag].
    destruct (selectedTag ed); [|reflexivity]. now destruct (negb _). }
  destruct (_ || _); [|reflexivity].
  unfold saveChanges. cbn [snd set_editBuffer nbtFile]. now destruct (fst (save _)).
Qed.

Lemma run_turn_editBuffer ev buf ed :
  set_editBuffer EmptyString (fst (run_turn ev (set_editBuffer buf ed)))
  = set_editBuffer EmptyString (fst (run_turn ev ed)) /\
  snd (run_turn ev (set_editBuffer buf ed)) = snd (run_turn ev ed).
Proof.
  unfold run_turn. rewrite drawEditor_editBuffer. cbv zeta.
  generalize (drawEditor (maxY ev) ed). intros d.
  destruct (_ || _); [|split; [apply handleInput_editBuffer|reflexivity]].
  cbn [set_editBuffer modified].
  destruct (negb (modified d) || _); [split; reflexivity|].
  destruct (_ || _); [|split; reflexivity].
  unfold saveChanges. cbn [nbtFile]. destruct (fst (save _)); split; reflexivity.
Qed.

Lemma play_editBuffer evs :
  forall a b,
    set_editBuffer EmptyString a = set_editBuffer EmptyString b ->
    set_editBuffer EmptyString (play evs a) = set_editBuffer EmptyString (play evs b).
Proof.
  unfold play. induction evs as [|ev evs IH]; intros a b H; cbn [fold_left]; [exact H|].
  apply IH. rewrite (differ_in_editBuffer a b H). apply run_turn_editBuffer.
Qed.

(** X13.  An edit that is not confirmed ([mvgetnstr] does not return [OK])
    cannot be observed: it changes at most [editBuffer], and [editBuffer]
    is never read, so whatever keys follow, the loop of [run] passes
    through the same editors, [editBuffer] apart, and stops at the same
    turn as if [editValue] had not been called. *)
Theorem unconfirmed_edit_is_unobservable (result : Z) (line : string) (ed : NBTEditor)
    (evs : list event)
    (Hres : result <> OK) :
  let ed' := snd (editValue result line ed) in
  set_editBuffer (editBuffer ed) ed' = ed /\
  set_editBuffer EmptyString (play evs ed') = set_editBuffer EmptyString (play evs ed) /\
  forall ev, snd (run_turn ev (play evs ed')) = snd (run_turn ev (play evs ed)).
Proof.
  cbv zeta.
  assert (E : exists buf, snd (editValue result line ed) = set_editBuffer buf ed).
  { unfold editValue. destruct (selectedTag ed); [|exists (editBuffer ed); now destruct ed].
    destruct (target _ _); [|exists (editBuffer ed); now destruct ed].
    destruct (negb _); [exists (editBuffer ed); now destruct ed|]. cbv zeta.
    destruct (Z.eqb_spec result OK) as [C|_]; [contradiction|].
    eexists. reflexivity. }
  destruct E as (buf & ->).
  assert (P : set_editBuffer EmptyString (play evs (set_editBuffer buf ed))
              = set_editBuffer EmptyString (play evs ed))
    by (now apply play_editBuffer).
  split; [now destruct ed|]. split; [exact P|].
  intros ev. rewrite (differ_in_editBuffer _ _ P). apply run_turn_editBuffer.
Qed.

End BufferFacts.

(** ** The conversions of floating-point numbers *)

Lemma NBTValue_toString_same (a b : FloatText) v :
  value_type v <> FLOAT -> value_type v <> DOUBLE ->
  NBTValue_toString (float_text := a) v = NBTValue_toString (float_text := b) v.
Proof. intros Hf Hd. unfold NBTValue_toString. destruct (value_type v); congruence. Qed.

Lemma setValueFromString_same (a b : FloatText) str tag :
  type tag <> FLOAT -> type tag <> DOUBLE ->
  setValueFromString (float_text := a) str tag = setValueFromString (float_text := b) str tag.
Proof. intros Hf Hd. unfold setValueFromString. destruct (type tag); congruence. Qed.

(** X28.  [editValue] converts floating-point numbers only for a Float or
    a Double: on a selected tag of any other kind it gives the same
    editor whatever [std::stof], [std::stod] and [std::to_string] of a
    [float] or [double] do. *)
Theorem editValue_same_for_any_float_text (a b : FloatText) (result : Z) (line : string)
    (ed : NBTEditor) (sel : tag_ptr) (tag : NBTTag)
    (Hsel : selectedTag ed = Some sel)
    (Htag : target sel ed = Some tag)
    (Hty : value_type (value tag) = type tag)
    (Hkind : type tag <> FLOAT /\ type tag <> DOUBLE) :
  editValue (float_text := a) result line ed = editValue (float_text := b) result line ed.
Proof.
  destruct Hkind as [Hf Hd]. unfold editValue. rewrite Hsel, Htag. cbv zeta.
  rewrite (NBTValue_toString_same a b) by (rewrite Hty; assumption).
  rewrite (setValueFromString_same a b) by assumption.
  reflexivity.
Qed.

Lemma editValue_string_is_cut_to_buffer_witness :
  let ed := at_row 10 in
  let sel := [Member "name"] in
  let tag := on_value (set_stringVal "Test Player") (new_NBTTag STRING "name") in
  let ed' := snd (editValue (float_text := no_float_text) OK "Alex" ed) in
  selectedTag ed = Some sel /\
  target sel ed = Some tag /\
  type tag = STRING /\
  exists stored rest,
    target sel ed' = Some (on_value (set_stringVal stored) tag) /\
    "Alex"%string = (stored ++ rest)%string /\
    (forall i, String.get i stored <> Some zero) /\
    (String.length stored <= 255)%nat /\
    (rest = EmptyString \/ String.length stored = 255%nat \/
     exists rest', rest = String zero rest') /\
    modified ed' = true.
Proof.
  cbv zeta.
  set (sel := [Member "name"]).
  set (tag := on_value (set_stringVal "Test Player") (new_NBTTag STRING "name")).
  assert (H1 : selectedTag (at_row 10) = Some sel) by (vm_compute; reflexivity).
  assert (H2 : target sel (at_row 10) = Some tag) by (vm_compute; reflexivity).
  assert (H3 : type tag = STRING) by reflexivity.
  split; [exact H1|]. split; [exact H2|]. split; [exact H3|].
  exact (editValue_string_is_cut_to_buffer (float_text := no_float_text) (at_row 10) sel tag
           "Alex" H1 H2 H3).
Defined.

Lemma unconfirmed_edit_is_unobservable_witness :
  let ed := at_row 8 in
  let evs := [press KEY_UP ""; press (key "d") ""] in
  let ed' := snd (editValue (float_text := no_float_text) ERR "12" ed) in
  ERR <> OK /\
  set_editBuffer (editBuffer ed) ed' = ed /\
  set_editBuffer EmptyString (play (float_text := no_float_text) evs ed')
  = set_editBuffer EmptyString (play (float_text := no_float_text) evs ed) /\
  forall ev, snd (run_turn (float_text := no_float_text) ev
                    (play (float_text := no_float_text) evs ed'))
             = snd (run_turn (float_text := no_float_text) ev
                      (play (float_text := no_float_text) evs ed)).
Proof.
  cbv zeta.
  assert (H : ERR <> OK) by discriminate.
  split; [exact H|].
  exact (unconfirmed_edit_is_unobservable (float_text := no_float_text) ERR "12" (at_row 8)
           [press KEY_UP ""; press (key "d") ""] H).
Defined.

Lemma editValue_same_for_any_float_text_witness :
  let ed := at_row 8 in
  let sel := [Member "inventory"; Member "items"; Item 1; Member "count"] in
  let tag := on_value (set_byteVal 5) (new_NBTTag BYTE "count") in
  let other := {| stof := fun _ => inr float_20_0;
                  stod := fun _ => inr double_64_0;
                  to_string_float := fun _ => "20.000000"%string;
                  to_string_double := fun _ => "64.000000"%string |} in
  selectedTag ed = Some sel /\
  target sel ed = Some tag /\
  value_type (value tag) = type tag /\
  (type tag <> FLOAT /\ type tag <> DOUBLE) /\
  editValue (float_text := no_float_text) OK "7" ed = editValue (float_text := other) OK "7" ed.
Proof.
  cbv zeta.
  set (sel := [Member "inventory"; Member "items"; Item 1; Member "count"]).
  set (tag := on_value (set_byteVal 5) (new_NBTTag BYTE "count")).
  assert (H1 : selectedTag (at_row 8) = Some sel) by (vm_compute; reflexivity).
  assert (H2 : target sel (at_row 8) = Some tag) by (vm_compute; reflexivity).
  assert (H3 : value_type (value tag) = type tag) by reflexivity.
  assert (H4 : type tag <> FLOAT /\ type tag <> DOUBLE) by (split; discriminate).
  split; [exact H1|]. split; [exact H2|]. split; [exact H3|]. split; [exact H4|].
  exact (editValue_same_for_any_float_text no_float_text _ OK "7" (at_row 8) sel tag
           H1 H2 H3 H4).
Defined.
